(* ===== verification/_CoqProject ===== *)
-Q . S2P
Prelude.v
Loops.v
Lexeme.v
Decimal.v
Arith.v
Tokenizer.v
Syntax.v
Validator.v
Grammar.v
Converter.v
Evaluator.v
Safety.v
Forest.v
Console.v
Terminal.v
Format.v
Echo.v
Pipeline.v
Driver.v
