(* ===== verification/Prelude.v ===== *)
(** * A verified model of the [calc] expression evaluator (src/main.cpp)

    The program reads one line, turns it into tokens, checks the token
    sequence, converts it to postfix notation with the shunting-yard
    algorithm and evaluates the postfix text on a stack of doubles.  This
    library is a shallow embedding of that pipeline: every function of
    src/main.cpp is a Rocq function of the same name, written from the C++
    text branch by branch, and the theorems state what the functions
    compute, which invariants their loops keep and where the program leaves
    the behaviour its specification (spec.md) describes.

    ** Files, in dependency order

    - [Prelude] (this file): strings as lists of characters with a literal
      notation ([str_scope]), the outcome type [result] of a call (a value,
      an escaped C++ exception, or undefined behaviour) with stdpp's monad
      notation, the monadic left fold [foldlM] that models a loop whose body
      can fail, the two <cctype> predicates the program relies on, the
      shared tactics and the hint database [calc].
    - [Loops]: the [while] statement as a loop with fuel, with the rule
      that a measure decreasing in every turn bounds the number of turns.
    - [Lexeme]: [isNumber] (main.cpp 37-41) and [std::stod] (main.cpp 163).
      Both are calls into the C++ library, so the file models what
      libstdc++ and glibc do on them: [extract_float] is the character
      automaton of [operator>>(double&)], [decimal_to_float] the correctly
      rounded decimal-to-binary64 conversion of [strtod], built on the
      Standard Library's [SpecFloat.SFdiv].
    - [Decimal]: on the lexemes the tokenizer can produce, [isNumber] and
      [std::stod] agree with a description that does not scan: a digit, at
      most one dot, and the value spelled by the digits.
    - [Arith]: [precedence] (11-19) and [applyOp] (22-34) on primitive
      binary64 floats.  [std::pow] is a field of the class [Libm]; general
      theorems hold for every instance.
    - [Tokenizer]: [tokenize] (44-72) as a left fold of [tokenize_step] over
      the characters, with the loop state as the record [tok_state]; the
      automaton [retok_step] of the token lists that the tokenizer reads
      back from their text.
    - [Syntax]: the abstract specification.  Expression trees [expr], the
      stratified infix grammar [infix] that relates a token list to the tree
      it denotes under the precedences of [precedence] and left
      associativity, the postfix form of a tree and its value.
    - [Validator]: [validateExpression] (75-112) as the loop
      [validate_loop] over three variables, the reachable-state invariant,
      the two-state machine it is equivalent to, and the parenthesis
      discipline it enforces.
    - [Grammar]: the language of the grammar without its trees: every
      alternation of operands and operators with parentheses has a tree,
      and the validator's loop with two more guards ([strict_step])
      accepts exactly these token lists.
    - [Converter]: [infixToPostfix] (115-153): the operator stack, the two
      inner [while] loops, the four-way branch on a token and the final
      drain.  Main theorem: on every token list of the grammar the
      converter returns the postfix text of the denoted tree.  [emit_run]
      is the same loop seen as a producer of tokens; [convert_emit] proves
      the two equal.  [infixToPostfix_loop] is the function with its three
      [while] loops run by [Loops.loop].
    - [Evaluator]: [evaluatePostfix] (156-173): extraction of
      whitespace-separated words, the value stack, and the theorem that the
      postfix text of a tree evaluates to the value of the tree.
      [evaluatePostfix_loop] is the function with [while (tokens >> token)]
      run by [Loops.loop] on the stream.
    - [Safety]: the unchecked [pop()] and [top()] calls of the converter
      and the evaluator are safe on every validated input but those with
      an unknown operator inside parentheses ([unknown_inside]); the
      invariant [safe_inv] links the validator's state, the operator stack
      and the depth of the value stack.
    - [Forest]: the postfix text read back as a stack of trees ([build]);
      on every accepted token list with known operators the converter
      writes the postfix form of a sequence of trees, and the evaluator
      computes them in order.
    - [Console]: the monad [st] of computations that change a state and
      may throw, with [try_catch]; the interface [Streams] of the three
      standard streams ([cout], [cerr], [getline]); its implementation
      [console], a record of what is left to read and of what each stream
      has written; refinement of one implementation by another
      ([refines], [Refinement]).
    - [Terminal]: two more implementations.  [terminal] has the buffer of
      [std::cout], the flush by [std::endl], the tie of [std::cin] and
      [std::cerr] to [std::cout], the flush at [exit] and the sequence of
      events on the device; [display] is the screen, on which writes of
      one stream that follow one another are one write.  [terminal]
      refines [display], which refines [console].
    - [Format]: [printf_g], the [%g] conversion by which [operator<<]
      writes a [double]; a reference instance of the interface
      [Console.Iostream], with the proof that it writes six correctly
      rounded digits.
    - [Echo]: the text that [printf_g] writes for six digits is read by
      the [strtod] of [Lexeme], to its end, as the decimal of these
      digits: the two library models agree.
    - [Pipeline]: the body of [main]'s [try] block (182-185) as [run],
      end-to-end correctness from tokens and from text, absence of
      undefined behaviour, the examples of the specification, and the
      inputs on which code and specification differ.
    - [Driver]: [main] (176-190) in the monad [st] over the interface
      [Streams], statement by statement; what it has written when it
      returns, and what the terminal shows, in order.

    ** Correspondence of data

    - [std::string] is [list ascii] (abbreviated [str]); [push_back] and
      [+=] are [++ [x]]; a [char] is an [ascii].
    - [std::vector<std::string>] is [list str], in order.
    - [std::stack<T>] is [list T] with the top at the head; [top()] and
      [pop()] on an empty stack are undefined behaviour in C++ and give
      [Undefined] here.
    - [double] is the kernel's [float] (IEEE 754 binary64, round to nearest
      even), so [a + b], [a / b] and [b == 0] are the machine operations.
    - [int] is [Z]; the only counter ([openBrackets]) is shown to stay
      within the number of tokens, hence within [int] for every input a
      [std::vector] can hold.
    - [throw std::runtime_error(m)] is [Throw m]; the [catch] of [main]
      prints [m].
    - A range-based [for] is a fold over the list; a [while] is either a
      structurally recursive function on the stack or stream it consumes
      ([pop_to_paren], [pop_higher], [drain], [words]) or, in the
      definitions named [..._loop], a [Loops.loop] with fuel.  The two
      forms are proved equal for enough fuel.
    - A statement of [main] is an [st] computation on the state of the
      streams, [;;] is sequencing, and what was written before an
      exception stays written.  The state is [console] where only the
      text of each stream matters, and [terminal] where the order of the
      events does.  [std::endl] is the item [endl]: a newline, and on
      [terminal] a flush.

    ** What the theorems show

    - Tokenizer: the tokens concatenate to the input, none is empty, each
      is one non-digit character or a lexeme of digits and dots with an
      optional leading minus.  Conversely a token list is read back from
      its text when no two neighbours merge ([retokenizable]), and every
      output of the tokenizer is such a list: [tokenize] and [concat] are
      inverse bijections between texts and these lists.  The tokens of a
      text around a character that is a token of its own, other than [)]
      and [-], are those of the two parts ([tokenize_separator]).
    - Numbers: whatever [isNumber] accepts, [std::stod] reads entirely and
      as the same decimal; on lexemes both are characterised by counting
      digits and dots, and the value is the correctly rounded decimal.
    - Validator: the third loop variable is redundant, accepted sequences
      have balanced parentheses, every sequence of the grammar is accepted,
      the counter is bounded.
    - Grammar: [strict_validate ts = true] if and only if [ts] denotes a
      tree; what it accepts the validator accepts; and what the validator
      accepts beyond it departs from the grammar at an opening
      parenthesis after an operand or at an unknown operator token.
    - Evaluator: texts with the same words are equivalent
      ([same_words]) and [evaluatePostfix] is a morphism for the
      equivalence.
    - Converter and evaluator: the shunting-yard output of a grammatical
      token list is the postfix form of its tree (refinement of the
      grammar), and evaluating that text gives the value of the tree,
      exceptions included, in the order the program raises them.
    - Safety: on a validated token list with known operators the
      converter returns a sequence of words on which the value stack never
      underflows and ends non-empty ([convert_safe]).  The undefined
      behaviour of the program is characterised exactly:
      [infixToPostfix] pops an empty stack if and only if the validator
      accepts the tokens and an operator token of rank 0 stands inside
      parentheses ([infixToPostfix_undefined]), and [run] has no other
      undefined behaviour: on every other input it returns a value or
      throws one of three messages ([run_safe]).  Whenever the converter
      returns, the operands of its text are those of its tokens, in
      order ([convert_operands]).
    - Termination: [infixToPostfix_loop] and [evaluatePostfix_loop] return
      for every input when the fuel exceeds the length of the text, with
      the results of [infixToPostfix] and [evaluatePostfix].
    - Driver: on a line that denotes a tree, [main] writes the prompt, the
      postfix form and the value, or the postfix form and then the error
      ([main_correct]); on every line with no unknown operator inside
      parentheses it returns 0 after a result or an error line
      ([main_responds]); its behaviour is undefined on the other accepted
      lines and on no others ([main_undefined]).  These are stated on
      [console]; [main_refinement] carries a run of [main] from one
      implementation of the streams to any that it refines, and the run
      on the buffered streams has the texts and the outcome of the run
      on [console] ([main_buffered]).  On
      [terminal], whenever the library flushes, the screen shows the
      prompt, the line, and the lines of the result or of the error in
      the order of the statements ([main_screen]).  With the formatting
      of the GNU C library the result line shows six significant
      digits, correctly rounded, and the text written is read by
      [strtod] as the decimal of these digits ([result_rounded]).
    - Pipeline: [run] on the text of an expression returns its value, both
      when the tokens of the text are given as grammatical ([run_correct])
      and when the text is written from a grammatical token list
      ([run_text]); a text denotes at most one tree; the concrete cases of
      spec.md section 8.
    - Outside the grammar: on every accepted input with operators among
      the five the text is the postfix form of a sequence of trees over
      the numbers of the input, and the result is the value of the last
      ([run_forest]).  As general theorems of [Pipeline] and
      [Evaluator]: an operand followed by a parenthesised expression is
      accepted and dropped ([operand_before_parenthesis],
      [leftover_operands_ignored]); an unknown operator token between two
      expressions outside parentheses is accepted, and the result is the
      second value when the token is a space, a digit when it is a
      malformed number, and 0 otherwise ([unknown_operator_result]); two
      operator tokens side by side are rejected, spaces included
      ([adjacent_operators_rejected]); an input that begins with [-(] is
      rejected ([minus_before_parenthesis]); [^] groups to the left
      ([power_groups_left]); a tiny decimal makes [stod] throw.

    ** How the proofs are layered

    A theorem that states a property of a function is proved from lemmas
    on its loop body and loop ([convert_infix], [eval_postfix],
    [validate_loop_infix], [emit_run_validated], [retok_run_holds]); the
    theorems of [Pipeline] use these lemmas and not the theorems of the
    components, so each stated property stands on its own.

    ** Fuel

    Fuel appears in [Loops.loop] and the definitions built on it, and in
    [Format.digits_from].  The measure of the converter's loops is the height of the operator
    stack, which is at most the number of tokens read, itself at most the
    number of characters; the measure of the evaluator's loop is the
    length of what is left of the stream.  Fuel above the length of the
    text is therefore enough for both functions, and more fuel changes
    nothing ([loop_fuel_mono]).  The decimal digits of a number are
    written with as much fuel as it has binary digits, which is enough
    ([digits_of_length]).  All other definitions are structurally
    recursive.

    ** Buffering

    When the library flushes [std::cout] of its own accord is the field
    [early] of [terminal], a function of the buffer: [unbuffered],
    [line_buffered] and [fully_buffered] are three values, and the
    theorems hold for all.

    ** Not modelled

    The state flags of the streams, which [main] never tests (an end of
    file gives the empty line).  [std::pow] beyond the interface [Libm]:
    the C standard does not fix its results, and the reference instance
    [exact_libm], exact for integer exponents, is used in concrete runs
    only.  [operator<<(double)] of C libraries other than the GNU one,
    beyond the interface [Iostream]; the sign of a NaN; locales other
    than "C"; characters outside ASCII in
    [std::isdigit], where C++ leaves the call undefined for negative
    [char] values and glibc answers false. *)

From Stdlib Require Import ZArith Ascii List.
From stdpp Require Import base tactics option list strings.

(** ** Strings *)

Abbreviation str := (list ascii).

(** String literals for [str]: ["3+4"] is the list of its characters. *)
Inductive str_literal : Set :=
| lit_nil
| lit_cons (c : ascii) (s : str_literal).

Fixpoint lit_of_bytes (l : list Byte.byte) : str_literal :=
  match l with
  | [] => lit_nil
  | b :: l => lit_cons (ascii_of_byte b) (lit_of_bytes l)
  end.

Fixpoint bytes_of_lit (l : str_literal) : list Byte.byte :=
  match l with
  | lit_nil => []
  | lit_cons c l => byte_of_ascii c :: bytes_of_lit l
  end.

Declare Scope str_scope.
Delimit Scope str_scope with str.
#[warnings="-via-type-mismatch,-via-type-remapping"]
String Notation list lit_of_bytes bytes_of_lit
  (via str_literal mapping [[nil] => lit_nil, [cons] => lit_cons]) : str_scope.
Local Open Scope str_scope.

(** ** <cctype> in the "C" locale *)

(** [std::isdigit]: the ten decimal digits. *)
Definition isdigit (ch : ascii) : bool :=
  ("0" <=? ch)%char && (ch <=? "9")%char.

(** [std::isspace]: space, and the five control characters \t \n \v \f \r. *)
Definition isspace (ch : ascii) : bool :=
  bool_decide (ch = " "%char) || (("009" <=? ch)%char && (ch <=? "013")%char).

(** ** Outcomes of a call *)

(** A call returns a value, lets an exception escape (we keep [what()]),
    or reaches undefined behaviour. *)
Inductive result (A : Type) : Type :=
| Ok (a : A)
| Throw (what : str)
| Undefined.
Arguments Ok {A} a.
Arguments Throw {A} what.
Arguments Undefined {A}.

#[export] Instance result_ret : MRet result := @Ok.
#[export] Instance result_bind : MBind result := λ A B f m,
  match m with
  | Ok a => f a
  | Throw w => Throw w
  | Undefined => Undefined
  end.
#[export] Instance result_fmap : FMap result := λ A B f m,
  match m with
  | Ok a => Ok (f a)
  | Throw w => Throw w
  | Undefined => Undefined
  end.

#[export] Instance result_eq_dec {A} `{EqDecision A} : EqDecision (result A).
Proof. solve_decision. Defined.

(** [is_Ok m]: the call returned. *)
Definition is_Ok {A} (m : result A) : Prop := ∃ a, m = Ok a.

#[export] Instance is_Ok_dec {A} (m : result A) : Decision (is_Ok m).
Proof.
  destruct m; [left; by eexists | right; intros [? [=]] ..].
Defined.

(** A loop over [l] whose body [f] can fail: the first failure ends it. *)
Fixpoint foldlM {A B} (f : A → B → result A) (a : A) (l : list B) : result A :=
  match l with
  | [] => Ok a
  | x :: l => a' ← f a x; foldlM f a' l
  end.

(** ** Automation *)

Create HintDb calc discriminated.
Create Rewrite HintDb calc.

(** [case_result m]: case analysis on an outcome, keeping the equation. *)
Ltac case_result m :=
  let E := fresh "E" in destruct m eqn:E; simplify_eq/=; try done.

(** [bool_cases]: split every [if], [decide] and boolean connective of the
    goal and of the hypotheses it can see. *)
Ltac bool_step :=
  match goal with
  | H : _ && _ = true |- _ => apply andb_prop in H; destruct H
  | H : _ || _ = false |- _ => apply orb_false_elim in H; destruct H
  | H : negb _ = true |- _ => apply negb_true_iff in H
  | H : negb _ = false |- _ => apply negb_false_iff in H
  | H : bool_decide _ = true |- _ => apply bool_decide_eq_true_1 in H
  | H : bool_decide _ = false |- _ => apply bool_decide_eq_false_1 in H
  | |- context [bool_decide ?P] => destruct (bool_decide_reflect P)
  | |- context [decide ?P] => destruct (decide P)
  | |- context [if ?b then _ else _] => destruct b eqn:?
  end.
Ltac bool_cases := repeat (bool_step; simplify_eq/=); try done.

(** Characters are finite: facts about a character class are checked on
    all 256 of them. *)
Ltac all_chars ch :=
  destruct ch as [[] [] [] [] [] [] [] []]; vm_compute.

(** ** Shared lemmas *)

Section result_lemmas.
Context {A B : Type}.
Implicit Types (m : result A) (f : A → result B).

Lemma bind_Ok (a : A) f : Ok a ≫= f = f a.
Proof. done. Qed.

Lemma bind_Ok_inv m f b :
  m ≫= f = Ok b → ∃ a, m = Ok a ∧ f a = Ok b.
Proof. destruct m; naive_solver. Qed.

Lemma bind_is_Ok m f : is_Ok (m ≫= f) → is_Ok m.
Proof. intros [b [a [-> _]]%bind_Ok_inv]. by eexists. Qed.

Lemma fmap_Ok_inv (g : A → B) m b :
  g <$> m = Ok b → ∃ a, m = Ok a ∧ b = g a.
Proof. destruct m; naive_solver. Qed.

End result_lemmas.

Section foldlM_lemmas.
Context {A B : Type} (f : A → B → result A).

Lemma foldlM_cons a x l : foldlM f a (x :: l) = a' ← f a x; foldlM f a' l.
Proof. done. Qed.

Lemma foldlM_app a l1 l2 :
  foldlM f a (l1 ++ l2) = a' ← foldlM f a l1; foldlM f a' l2.
Proof.
  revert a; induction l1 as [|x l1 IH]; intros a; [done|].
  simpl. destruct (f a x); simpl; auto.
Qed.

Lemma foldlM_snoc a l x :
  foldlM f a (l ++ [x]) = a' ← foldlM f a l; f a' x.
Proof. rewrite foldlM_app. destruct (foldlM f a l); simpl; [|done..]. by destruct (f _ x). Qed.

(** An invariant of the loop state that the body preserves holds at the
    end of every run that returns. *)
Lemma foldlM_invariant (P : A → Prop) a l a' :
  (∀ a x a', P a → f a x = Ok a' → P a') →
  P a → foldlM f a l = Ok a' → P a'.
Proof.
  intros Hstep. revert a; induction l as [|x l IH]; intros a Ha; simpl.
  - by intros [= <-].
  - intros (a1 & Hf & Hl)%bind_Ok_inv. eauto.
Qed.

(** A loop whose body never fails is a plain left fold. *)
Lemma foldlM_total (g : A → B → A) a l :
  (∀ a x, f a x = Ok (g a x)) → foldlM f a l = Ok (foldl g a l).
Proof.
  intros Hfg. revert a; induction l as [|x l IH]; intros a; [done|].
  simpl. rewrite Hfg. simpl. apply IH.
Qed.

End foldlM_lemmas.

Section list_lemmas.
Context {A : Type}.
Implicit Types (l : list A) (ls : list (list A)).

Lemma foldl_snoc {S} (g : S → A → S) s l x :
  foldl g s (l ++ [x]) = g (foldl g s l) x.
Proof. by rewrite foldl_app. Qed.

(** Loop invariants that relate the state to the part of the input
    already consumed. *)
Lemma foldl_prefix_ind {S} (g : S → A → S) (P : list A → S → Prop) s l :
  P [] s → (∀ l x s, P l s → P (l ++ [x]) (g s x)) → P l (foldl g s l).
Proof.
  intros H0 Hstep. induction l as [|x l IH] using rev_ind; [done|].
  rewrite foldl_snoc. auto.
Qed.

Lemma concat_snoc ls l : concat (ls ++ [l]) = concat ls ++ l.
Proof. by rewrite concat_app; simpl; rewrite app_nil_r. Qed.

(** Lists that are not empty have at least one element each. *)
Lemma concat_length_nonempty ls :
  Forall (λ l, l ≠ []) ls → length ls ≤ length (concat ls).
Proof.
  induction 1 as [|[|x l] ls Hl _ IH]; simpl; [lia|done|].
  rewrite length_app. lia.
Qed.

Lemma Forall_snoc (P : A → Prop) l x : Forall P l → P x → Forall P (l ++ [x]).
Proof. intros. apply Forall_app; auto. Qed.

End list_lemmas.

#[export] Hint Rewrite @concat_snoc @foldl_snoc : calc.
#[export] Hint Resolve Forall_snoc Forall_nil_2 : calc.

Section ctype_lemmas.

Lemma isdigit_spec ch :
  isdigit ch = true ↔ (48 ≤ nat_of_ascii ch ≤ 57)%nat.
Proof. all_chars ch; split; (done || lia). Qed.

Lemma isspace_spec ch :
  isspace ch = true ↔ nat_of_ascii ch = 32%nat ∨ (9 ≤ nat_of_ascii ch ≤ 13)%nat.
Proof. all_chars ch; split; (done || lia || (intros _; lia)). Qed.

Lemma isdigit_not_space ch : isdigit ch = true → isspace ch = false.
Proof.
  intros Hd%isdigit_spec. apply not_true_is_false.
  intros Hs%isspace_spec. lia.
Qed.

End ctype_lemmas.
