(* ===== verification/Loops.v ===== *)
(** * Loops: [while] loops with fuel, and why they terminate

    The [for] loops of the program run over a container and are modelled
    by folds.  Its [while] loops test a stack or a stream that the body
    changes; here they are written as the source writes them, a test and
    a body on a state, and run with fuel.

    - [loop fuel turn s]: [turn s] is [None] when the test fails and the
      loop is left, and otherwise the outcome of one run of the body;
      [loop] returns [None] only when the fuel runs out;
    - [while cond body]: the turn of [while (cond) body];
    - [loop_terminates]: a measure that every turn decreases bounds the
      number of turns, so fuel above the measure is enough;
    - [loop_exit], [loop_invariant]: the rule of the [while] loop: an
      invariant kept by the body holds at the exit, where the test fails. *)

From Stdlib Require Import Arith List Lia.
From stdpp Require Import base tactics option.
From S2P Require Import Prelude.

(** ** Definitions *)

Fixpoint loop {St} (fuel : nat) (turn : St → option (result St)) (s : St) :
    option (result St) :=
  match fuel with
  | O => None
  | S fuel =>
      match turn s with
      | None => Some (Ok s)
      | Some (Ok s') => loop fuel turn s'
      | Some (Throw what) => Some (Throw what)
      | Some Undefined => Some Undefined
      end
  end.

Definition while {St} (cond : St → bool) (body : St → result St) (s : St) :
    option (result St) :=
  if cond s then Some (body s) else None.

(** A measure that each completed turn decreases. *)
Definition variant {St} (turn : St → option (result St)) (measure : St → nat) : Prop :=
  ∀ s s', turn s = Some (Ok s') → measure s' < measure s.

(** ** Properties *)

Section loop.
Context {St : Type} (turn : St → option (result St)).
Implicit Types (s : St) (fuel : nat) (r : result St).

Lemma loop_unfold fuel s :
  loop (S fuel) turn s =
    match turn s with
    | None => Some (Ok s)
    | Some (Ok s') => loop fuel turn s'
    | Some (Throw what) => Some (Throw what)
    | Some Undefined => Some Undefined
    end.
Proof. done. Qed.

(** More fuel does not change the outcome. *)
Lemma loop_fuel_mono fuel fuel' s r :
  loop fuel turn s = Some r → fuel ≤ fuel' → loop fuel' turn s = Some r.
Proof.
  revert fuel' s; induction fuel as [|fuel IH]; intros [|fuel'] s; simpl;
    try done; [lia|].
  intros Hr Hle. destruct (turn s) as [[s'| |]|]; try done. apply IH; [done|lia].
Qed.

Lemma loop_terminates measure fuel s :
  variant turn measure → measure s < fuel → is_Some (loop fuel turn s).
Proof.
  intros Hvar. revert s; induction fuel as [|fuel IH]; intros s Hm; [lia|].
  simpl. destruct (turn s) as [[s'| |]|] eqn:Hturn; try done.
  apply IH. apply Hvar in Hturn. lia.
Qed.

(** At the exit the test fails. *)
Lemma loop_exit fuel s s' : loop fuel turn s = Some (Ok s') → turn s' = None.
Proof.
  revert s; induction fuel as [|fuel IH]; intros s; [done|]. simpl.
  destruct (turn s) as [[s1| |]|] eqn:Hturn; try done; [apply IH|].
  by intros [= <-].
Qed.

Lemma loop_invariant (P : St → Prop) fuel s s' :
  (∀ s s', P s → turn s = Some (Ok s') → P s') →
  P s → loop fuel turn s = Some (Ok s') → P s'.
Proof.
  intros Hstep. revert s; induction fuel as [|fuel IH]; intros s Hs; [done|].
  simpl. destruct (turn s) as [[s1| |]|] eqn:Hturn; try done; [eauto|].
  by intros [= <-].
Qed.

End loop.

Lemma while_true {St} cond body (s : St) :
  cond s = true → while cond body s = Some (body s).
Proof. unfold while. by intros ->. Qed.

Lemma while_false {St} cond body (s : St) :
  cond s = false → while cond body s = None.
Proof. unfold while. by intros ->. Qed.
