(* ===== verification/Lexeme.v ===== *)
(** * Lexeme: which strings are numbers, and their values

    [isNumber] (main.cpp 37-41) is [(iss >> d) && iss.eof()] on a string
    stream, and line 163 calls [std::stod].  Both are library calls; this
    file models the GNU implementation (libstdc++ on glibc, "C" locale):

    - [skipws]: the stream sentry skips leading whitespace;
    - [read_mantissa], [read_exponent]: the decimal grammar
      [[+-]? digits* (. digits* )? ([eE] [+-]? digits+)?] with a digit in
      the mantissa;
    - [extract_float]: [num_get::do_get] for [double].  It accumulates the
      longest run of characters the grammar allows and fails if [strtod]
      does not accept all of it (an exponent marker without digits);
    - [decimal_to_float]: the correctly rounded binary64 value of a
      decimal, as [strtod] computes it, by one rounded division of
      integers ([SpecFloat.SFdiv]);
    - [isNumber]: extraction succeeds with a finite value (libstdc++ sets
      [failbit] when the value is infinite) and consumes the whole string;
    - [stod]: [strtod] on the longest decimal prefix, with
      [std::out_of_range] when glibc reports [ERANGE], that is on overflow
      and on results that are tiny and inexact.

    [stod] is modelled on decimal literals only; the forms [inf], [nan]
    and hexadecimal, that [strtod] also reads, are rejected by [isNumber]
    and never reach line 163. *)

From Stdlib Require Import ZArith Ascii List Floats.
From stdpp Require Import base tactics list.
From S2P Require Import Prelude.
Local Open Scope str_scope.

(** ** Lexical classes of the tokenizer *)

(** A character that extends a number (main.cpp 50). *)
Definition numchar (ch : ascii) : bool :=
  isdigit ch || bool_decide (ch = "."%char).

(** A numeric lexeme: an optional minus sign, then digits and dots. *)
Definition lexeme (t : str) : bool :=
  match t with
  | [] => false
  | c :: t' => (bool_decide (c = "-"%char) || numchar c) && forallb numchar t'
  end.

(** A single character that is not part of a number. *)
Definition symbol (t : str) : bool :=
  match t with
  | [c] => negb (numchar c)
  | _ => false
  end.

Definition token_shape (t : str) : bool := symbol t || lexeme t.

(** [token[0]]: the first character; of an empty string, the terminator
    that [std::string] keeps behind its last character. *)
Definition first_char (token : str) : ascii := hd Ascii.zero token.

(** No whitespace inside. *)
Definition spaceless (t : str) : bool := forallb (λ c, negb (isspace c)) t.

(** ** Scanning *)

Fixpoint skipws (s : str) : str :=
  match s with
  | c :: s' => if isspace c then skipws s' else s
  | [] => []
  end.

Definition digit_val (c : ascii) : Z := (Z.of_N (N_of_ascii c) - 48)%Z.

(** Read a run of digits: the number read so far, how many digits were
    read, and the rest of the input. *)
Fixpoint read_digits (s : str) (acc : Z) (n : Z) : Z * Z * str :=
  match s with
  | c :: s' =>
      if isdigit c then read_digits s' (10 * acc + digit_val c)%Z (n + 1)%Z
      else (acc, n, s)
  | [] => (acc, n, [])
  end.

Definition read_sign (s : str) : bool * str :=
  match s with
  | c :: s' =>
      if bool_decide (c = "-"%char) then (true, s')
      else if bool_decide (c = "+"%char) then (false, s')
      else (false, s)
  | [] => (false, [])
  end.

(** A decimal: sign, digits of the mantissa read as one integer, and the
    power of ten that scales it. *)
Record decimal := Decimal {
  d_neg : bool;
  d_digits : Z;
  d_exp10 : Z;
}.

(** Sign, integer part, fraction: [None] when no digit was read. *)
Definition read_mantissa (s : str) : option (decimal * str) :=
  let '(neg, s1) := read_sign s in
  let '(ip, ni, s2) := read_digits s1 0 0 in
  let '(m, nf, s3) :=
    match s2 with
    | c :: s2' =>
        if bool_decide (c = "."%char) then read_digits s2' ip 0 else (ip, 0%Z, s2)
    | [] => (ip, 0%Z, s2)
    end in
  if (ni + nf =? 0)%Z then None
  else Some ({| d_neg := neg; d_digits := m; d_exp10 := - nf |}, s3).

Definition is_exp_marker (c : ascii) : bool :=
  bool_decide (c = "e"%char) || bool_decide (c = "E"%char).

(** What follows an exponent marker: a sign and at least one digit. *)
Definition read_exponent (s : str) : option (Z * str) :=
  let '(neg, s1) := read_sign s in
  let '(e, n, s2) := read_digits s1 0 0 in
  if (n =? 0)%Z then None else Some (if neg then (- e)%Z else e, s2).

Definition scale (d : decimal) (e : Z) : decimal :=
  {| d_neg := d_neg d; d_digits := d_digits d; d_exp10 := (d_exp10 d + e)%Z |}.

(** [operator>>(double&)]: the value and the unread rest, or failure. *)
Definition extract_float (s : str) : option (decimal * str) :=
  match read_mantissa s with
  | None => None
  | Some (d, s1) =>
      match s1 with
      | c :: s2 =>
          if is_exp_marker c then
            match read_exponent s2 with
            | Some (e, s3) => Some (scale d e, s3)
            | None => None
            end
          else Some (d, s1)
      | [] => Some (d, [])
      end
  end.

(** [strtod]: the longest prefix that is a decimal literal. *)
Definition scan_decimal (s : str) : option (decimal * str) :=
  match read_mantissa s with
  | None => None
  | Some (d, s1) =>
      match s1 with
      | c :: s2 =>
          if is_exp_marker c then
            match read_exponent s2 with
            | Some (e, s3) => Some (scale d e, s3)
            | None => Some (d, s1)
            end
          else Some (d, s1)
      | [] => Some (d, [])
      end
  end.

(** ** Decimal to binary64 *)

(** The decimal as a fraction of two integers, the denominator positive. *)
Definition dec_num (d : decimal) : Z :=
  if (0 <=? d_exp10 d)%Z then (d_digits d * 10 ^ d_exp10 d)%Z else d_digits d.
Definition dec_den (d : decimal) : Z :=
  if (0 <=? d_exp10 d)%Z then 1%Z else (10 ^ (- d_exp10 d))%Z.

(** Round to nearest, ties to even, with gradual underflow and overflow
    to infinity. *)
Definition decimal_to_spec (d : decimal) : spec_float :=
  match dec_num d with
  | Z.pos n =>
      SFdiv prec emax (S754_finite (d_neg d) n 0)
                      (S754_finite false (Z.to_pos (dec_den d)) 0)
  | _ => S754_zero (d_neg d)
  end.

Definition decimal_to_float (d : decimal) : float := SF2Prim (decimal_to_spec d).

Definition is_infinite (x : spec_float) : bool :=
  match x with
  | S754_infinity _ => true
  | _ => false
  end.

(** Does the binary value [x] equal the decimal [d]? *)
Definition exactly (d : decimal) (x : spec_float) : bool :=
  match x with
  | S754_zero _ => (dec_num d =? 0)%Z
  | S754_finite _ m e =>
      if (0 <=? e)%Z then (dec_num d =? Z.pos m * 2 ^ e * dec_den d)%Z
      else (dec_num d * 2 ^ (- e) =? Z.pos m * dec_den d)%Z
  | _ => false
  end.

(** glibc's [is_tiny]: rounded to 53 bits with unbounded exponent the
    magnitude is still below the least normal number [2^-1022], that is
    the decimal is below [2^-1022 - 2^-1077]. *)
Definition tiny (d : decimal) : bool :=
  (dec_num d * 2 ^ 1077 <? (2 ^ 55 - 1) * dec_den d)%Z.

(** [errno == ERANGE] after [strtod]. *)
Definition erange (d : decimal) : bool :=
  let x := decimal_to_spec d in
  is_infinite x || (tiny d && negb (exactly d x)).

(** ** The program's two calls *)

Definition isNumber (s : str) : bool :=
  match extract_float (skipws s) with
  | Some (d, []) => negb (is_infinite (decimal_to_spec d))
  | _ => false
  end.

Definition stod (s : str) : result float :=
  match scan_decimal (skipws s) with
  | Some (d, _) => if erange d then Throw "stod" else Ok (decimal_to_float d)
  | None => Throw "stod"
  end.

(** ** Properties *)

Section lexeme.
Implicit Types (s t : str) (c ch : ascii) (d : decimal).

Lemma lexeme_snoc t ch :
  lexeme t = true → numchar ch = true → lexeme (t ++ [ch]) = true.
Proof.
  destruct t as [|c t]; [done|]. simpl. intros [-> Ht]%andb_prop Hc.
  by rewrite forallb_app, Ht; simpl; rewrite Hc.
Qed.

Lemma token_shape_nonempty t : token_shape t = true → t ≠ [].
Proof. by destruct t. Qed.




Lemma stod_Throw s w : stod s = Throw w → w = "stod".
Proof. unfold stod. repeat case_match; congruence. Qed.

Lemma stod_not_Undefined s : stod s ≠ Undefined.
Proof. unfold stod. repeat case_match; congruence. Qed.


(** A single character is a number exactly when it is a digit. *)
Lemma isNumber_char c : isNumber [c] = isdigit c.
Proof. by all_chars c. Qed.

Lemma isNumber_symbol t : symbol t = true → isNumber t = false.
Proof.
  destruct t as [|c [|??]]; try done. simpl. rewrite isNumber_char.
  unfold numchar. by intros [? _]%negb_true_iff%orb_false_elim.
Qed.

Lemma isNumber_nonempty t : isNumber t = true → t ≠ [].
Proof. by intros H ->. Qed.

Lemma numchar_not_space c : numchar c = true → isspace c = false.
Proof. by all_chars c. Qed.

Lemma lexeme_spaceless t : lexeme t = true → spaceless t = true.
Proof.
  destruct t as [|c t]; [done|]. simpl. intros [Hc Ht]%andb_prop.
  apply andb_true_intro. split.
  - apply orb_prop in Hc as [Hc%bool_decide_eq_true_1|Hc%numchar_not_space].
    + by subst.
    + by rewrite Hc.
  - unfold spaceless. rewrite forallb_forall in *. intros x Hx%Ht.
    by rewrite numchar_not_space.
Qed.

(** Among the tokens of the tokenizer, the numbers have no whitespace. *)
Lemma number_token_spaceless t :
  token_shape t = true → isNumber t = true → spaceless t = true.
Proof.
  intros [Hs|Hl]%orb_prop Hn; [|by apply lexeme_spaceless].
  apply isNumber_symbol in Hs. congruence.
Qed.

End lexeme.

#[export] Hint Resolve isNumber_symbol isNumber_nonempty token_shape_nonempty : calc.
