(* ===== verification/Decimal.v ===== *)
(** * Decimal: what [isNumber] and [std::stod] compute on lexemes

    The lexemes of the tokenizer are made of digits and dots, with an
    optional minus sign in front.  On them the number grammar of
    [Lexeme] has a description that does not mention scanning:

    - [decimal_lexeme t]: [t] has a digit and at most one dot;
    - [lexeme_decimal t]: the sign is the leading minus, the mantissa is
      the decimal numeral made of the digits of [t], and the exponent
      counts the digits behind the dot.

    [isNumber] accepts a lexeme exactly when it is a [decimal_lexeme] of
    finite value, and [std::stod] returns the correctly rounded value of
    [lexeme_decimal]. *)

From Stdlib Require Import ZArith Ascii List Floats.
From stdpp Require Import base tactics list.
From S2P Require Import Prelude Lexeme.
Local Open Scope str_scope.

(** ** Definitions *)

(** The numeral [ds] read after the digits that gave [acc]. *)
Definition digits_value (acc : Z) (ds : str) : Z :=
  foldl (λ a c, 10 * a + digit_val c)%Z acc ds.

Definition is_dot (c : ascii) : bool := bool_decide (c = "."%char).

Definition dots (t : str) : nat := length (filter (λ c, is_dot c = true) t).

(** What stands behind the first dot. *)
Fixpoint after_dot (t : str) : str :=
  match t with
  | c :: t' => if is_dot c then t' else after_dot t'
  | [] => []
  end.

Definition decimal_lexeme (t : str) : bool :=
  lexeme t && existsb isdigit t && bool_decide (dots t ≤ 1)%nat.

Definition lexeme_decimal (t : str) : decimal :=
  {| d_neg := bool_decide (head t = Some "-"%char);
     d_digits := digits_value 0 (filter (λ c, isdigit c = true) t);
     d_exp10 := - Z.of_nat (length (after_dot t)) |}.

(** The text of a sign. *)
Definition sign_text (neg : bool) : str := if neg then "-" else "".

(** The three forms of a lexeme: no dot, one dot, more. *)
Inductive lexeme_form : str → Prop :=
| form_int neg ip :
    forallb isdigit ip = true → lexeme_form (sign_text neg ++ ip)
| form_dot neg ip fp :
    forallb isdigit ip = true → forallb isdigit fp = true →
    lexeme_form (sign_text neg ++ ip ++ "." ++ fp)
| form_dots neg ip fp r :
    forallb isdigit ip = true → forallb isdigit fp = true →
    lexeme_form (sign_text neg ++ ip ++ "." ++ fp ++ "." ++ r).

(** The scanner and the description agree on [t]. *)
Definition scan_agrees (t : str) : Prop :=
  if decimal_lexeme t then extract_float (skipws t) = Some (lexeme_decimal t, [])
  else isNumber t = false.

(** ** Scanning a run of digits *)

Section scanning.
Implicit Types (s t ip fp r rest : str) (c : ascii) (acc n : Z) (neg : bool).

Lemma isdigit_inv c :
  isdigit c = true →
  c ≠ "."%char ∧ c ≠ "-"%char ∧ c ≠ "+"%char ∧ isspace c = false.
Proof. by all_chars c. Qed.

Lemma numchar_inv c : numchar c = true → isdigit c = true ∨ c = "."%char.
Proof.
  unfold numchar. intros [?|?%bool_decide_eq_true_1]%orb_prop; auto.
Qed.

Lemma digits_value_app acc ds1 ds2 :
  digits_value acc (ds1 ++ ds2) = digits_value (digits_value acc ds1) ds2.
Proof. apply foldl_app. Qed.

Lemma read_digits_app ds s acc n :
  forallb isdigit ds = true →
  read_digits (ds ++ s) acc n
  = read_digits s (digits_value acc ds) (n + Z.of_nat (length ds)).
Proof.
  revert acc n; induction ds as [|c ds IH]; intros acc n; simpl.
  - intros _. by rewrite Z.add_0_r.
  - intros [-> Hds]%andb_prop. rewrite IH by done. f_equal. lia.
Qed.

(** The scan stops at the end and at a dot. *)
Lemma read_digits_stop rest acc n :
  rest = [] ∨ (∃ r, rest = "." ++ r) → read_digits rest acc n = (acc, n, rest).
Proof. by intros [->|[r ->]]. Qed.

Lemma read_digits_all ds rest acc n :
  forallb isdigit ds = true → rest = [] ∨ (∃ r, rest = "." ++ r) →
  read_digits (ds ++ rest) acc n
  = (digits_value acc ds, (n + Z.of_nat (length ds))%Z, rest).
Proof. intros Hds Hr. by rewrite read_digits_app, read_digits_stop. Qed.

(** The sign of a lexeme: a minus, or nothing in front of a digit or dot. *)
Lemma read_sign_text neg s :
  match s with c :: _ => numchar c = true | [] => True end →
  read_sign (sign_text neg ++ s) = (neg, s).
Proof.
  destruct neg; [done|]. destruct s as [|c s]; [done|]. simpl.
  intros [(_ & Hm & Hp & _)%isdigit_inv| ->]%numchar_inv; [|done].
  by rewrite !bool_decide_eq_false_2.
Qed.

End scanning.

(** ** The scanner on the three forms *)

Section forms.
Implicit Types (s t ip fp r rest : str) (c : ascii) (neg : bool).

Lemma digits_numchars ds : forallb isdigit ds = true → forallb numchar ds = true.
Proof.
  rewrite !forallb_forall. intros Hds c Hc%Hds. unfold numchar. by rewrite Hc.
Qed.

Lemma digits_head_numchar ds s :
  forallb isdigit ds = true →
  match ds ++ "." ++ s with c :: _ => numchar c = true | [] => True end.
Proof. destruct ds as [|c ds]; [done|]. simpl. unfold numchar. by intros [-> _]%andb_prop. Qed.

Lemma read_mantissa_int neg ip :
  forallb isdigit ip = true →
  read_mantissa (sign_text neg ++ ip)
  = if bool_decide (ip = []) then None
    else Some ({| d_neg := neg; d_digits := digits_value 0 ip; d_exp10 := 0 |}, []).
Proof.
  intros Hip. unfold read_mantissa. rewrite read_sign_text.
  - rewrite <-(app_nil_r ip) at 1. rewrite read_digits_all by auto.
    by destruct ip.
  - destruct ip as [|c ip]; [done|]. simpl in *. unfold numchar.
    by destruct (isdigit c).
Qed.

Lemma read_mantissa_dot neg ip fp rest :
  forallb isdigit ip = true → forallb isdigit fp = true →
  rest = [] ∨ (∃ r, rest = "." ++ r) →
  read_mantissa (sign_text neg ++ ip ++ "." ++ fp ++ rest)
  = if bool_decide (ip ++ fp = []) then None
    else Some ({| d_neg := neg; d_digits := digits_value 0 (ip ++ fp);
                  d_exp10 := - Z.of_nat (length fp) |}, rest).
Proof.
  intros Hip Hfp Hrest. unfold read_mantissa.
  rewrite read_sign_text by by apply digits_head_numchar.
  rewrite read_digits_all by eauto. simpl.
  rewrite read_digits_all, digits_value_app by eauto.
  destruct ip, fp; simpl; done.
Qed.

(** No exponent follows in a lexeme. *)
Lemma extract_float_mantissa s d rest :
  read_mantissa s = Some (d, rest) → rest = [] ∨ (∃ r, rest = "." ++ r) →
  extract_float s = Some (d, rest).
Proof. unfold extract_float. by intros -> [->|[r ->]]. Qed.

Lemma skipws_sign_text neg s :
  match s with c :: _ => numchar c = true | [] => True end →
  skipws (sign_text neg ++ s) = sign_text neg ++ s.
Proof.
  destruct neg; [done|]. destruct s as [|c s]; [done|]. simpl.
  intros [(_ & _ & _ & ->)%isdigit_inv| ->]%numchar_inv; done.
Qed.

End forms.

(** ** The description on the three forms *)

Section description.
Implicit Types (s t ip fp r rest : str) (c : ascii) (neg : bool).

Lemma filter_digits ds :
  forallb isdigit ds = true → filter (λ c, isdigit c = true) ds = ds.
Proof.
  induction ds as [|c ds IH]; [done|]. simpl. intros [Hc Hds]%andb_prop.
  by rewrite filter_cons_True, IH.
Qed.

Lemma filter_digits_sign neg s :
  filter (λ c, isdigit c = true) (sign_text neg ++ s)
  = filter (λ c, isdigit c = true) s.
Proof. by destruct neg. Qed.

Lemma filter_digits_dot s :
  filter (λ c, isdigit c = true) ("." ++ s) = filter (λ c, isdigit c = true) s.
Proof. done. Qed.

Lemma dots_app s1 s2 : dots (s1 ++ s2) = (dots s1 + dots s2)%nat.
Proof. unfold dots. by rewrite filter_app, length_app. Qed.

Lemma dots_digits ds : forallb isdigit ds = true → dots ds = 0%nat.
Proof.
  induction ds as [|c ds IH]; [done|]. simpl. intros [Hc Hds]%andb_prop.
  apply isdigit_inv in Hc as (Hc & _). unfold dots in *.
  rewrite filter_cons_False; [auto|]. unfold is_dot. by rewrite bool_decide_eq_false_2.
Qed.

Lemma dots_sign neg : dots (sign_text neg) = 0%nat.
Proof. by destruct neg. Qed.

Lemma after_dot_digits ds s :
  forallb isdigit ds = true → after_dot (ds ++ s) = after_dot s.
Proof.
  induction ds as [|c ds IH]; [done|]. simpl. intros [Hc Hds]%andb_prop.
  apply isdigit_inv in Hc as (Hc & _). unfold is_dot.
  rewrite bool_decide_eq_false_2 by done. auto.
Qed.

Lemma after_dot_sign neg s : after_dot (sign_text neg ++ s) = after_dot s.
Proof. by destruct neg. Qed.

(** The sign of a lexeme is its leading minus. *)
Lemma head_sign neg s :
  match s with c :: _ => numchar c = true | [] => True end →
  bool_decide (head (sign_text neg ++ s) = Some "-"%char) = neg.
Proof.
  destruct neg; [done|]. destruct s as [|c s]; [done|]. simpl.
  intros [(_ & Hm & _)%isdigit_inv| ->]%numchar_inv; [|done].
  apply bool_decide_eq_false_2. by intros [= ->].
Qed.

Lemma lexeme_sign neg s :
  forallb numchar s = true → s ≠ [] → lexeme (sign_text neg ++ s) = true.
Proof.
  intros Hs Hne. destruct neg; [done|]. destruct s as [|c s]; [done|].
  simpl in *. apply andb_prop in Hs as [-> ->]. by rewrite orb_true_r.
Qed.

Lemma existsb_digits ds s :
  forallb isdigit ds = true → ds ≠ [] → existsb isdigit (ds ++ s) = true.
Proof. destruct ds as [|c ds]; [done|]. simpl. by intros [-> _]%andb_prop. Qed.

Lemma existsb_digits_nonempty ds :
  forallb isdigit ds = true → existsb isdigit ds = negb (bool_decide (ds = [])).
Proof. destruct ds as [|c ds]; [done|]. simpl. by intros [-> _]%andb_prop. Qed.

Lemma existsb_sign neg : existsb isdigit (sign_text neg) = false.
Proof. by destruct neg. Qed.

Lemma lexeme_decimal_int neg ip :
  forallb isdigit ip = true →
  lexeme_decimal (sign_text neg ++ ip)
  = {| d_neg := neg; d_digits := digits_value 0 ip; d_exp10 := 0 |}.
Proof.
  intros Hip. unfold lexeme_decimal.
  rewrite head_sign, filter_digits_sign, filter_digits, after_dot_sign by
    (done || by destruct ip as [|c ip]; [|apply andb_prop in Hip as [Hc _];
                                           unfold numchar; rewrite Hc]).
  rewrite <-(app_nil_r ip) at 2. by rewrite after_dot_digits.
Qed.

Lemma lexeme_decimal_dot neg ip fp :
  forallb isdigit ip = true → forallb isdigit fp = true →
  lexeme_decimal (sign_text neg ++ ip ++ "." ++ fp)
  = {| d_neg := neg; d_digits := digits_value 0 (ip ++ fp);
       d_exp10 := - Z.of_nat (length fp) |}.
Proof.
  intros Hip Hfp. unfold lexeme_decimal.
  rewrite head_sign by by apply digits_head_numchar.
  rewrite filter_digits_sign, filter_app, filter_digits_dot, !filter_digits by done.
  by rewrite after_dot_sign, after_dot_digits.
Qed.

Lemma decimal_lexeme_int neg ip :
  forallb isdigit ip = true →
  decimal_lexeme (sign_text neg ++ ip) = negb (bool_decide (ip = [])).
Proof.
  intros Hip. destruct ip as [|c ip]; [by destruct neg|].
  unfold decimal_lexeme.
  rewrite lexeme_sign, existsb_app, (existsb_digits_nonempty (c :: ip)) by
    (done || by apply digits_numchars).
  rewrite dots_app, dots_sign, dots_digits, orb_true_r by done. done.
Qed.

Lemma decimal_lexeme_dot neg ip fp :
  forallb isdigit ip = true → forallb isdigit fp = true →
  decimal_lexeme (sign_text neg ++ ip ++ "." ++ fp)
  = negb (bool_decide (ip ++ fp = [])).
Proof.
  intros Hip Hfp. unfold decimal_lexeme. rewrite lexeme_sign.
  - rewrite !existsb_app, !dots_app, dots_sign, !dots_digits, existsb_sign by done.
    rewrite (dots_digits fp), (existsb_digits_nonempty ip),
      (existsb_digits_nonempty fp) by done.
    by destruct ip, fp.
  - by rewrite !forallb_app, (digits_numchars ip), (digits_numchars fp).
  - by destruct ip.
Qed.

Lemma decimal_lexeme_dots neg ip fp r :
  forallb isdigit ip = true → forallb isdigit fp = true →
  decimal_lexeme (sign_text neg ++ ip ++ "." ++ fp ++ "." ++ r) = false.
Proof.
  intros Hip Hfp. unfold decimal_lexeme.
  rewrite !dots_app, dots_sign, (dots_digits ip), (dots_digits fp) by done.
  rewrite bool_decide_eq_false_2, andb_false_r; [done|].
  change (dots ("." ++ r)) with (S (dots r)). change (dots ".") with 1%nat. lia.
Qed.

End description.

(** ** Scanner and description agree *)

Section agreement.
Implicit Types (s t ip fp r rest : str) (c : ascii) (neg : bool).

(** A string of digits and dots is a run of digits, or a run of digits, a
    dot, and more digits and dots. *)
Lemma numchars_split t :
  forallb numchar t = true →
  forallb isdigit t = true ∨
  ∃ ip r, t = ip ++ "." ++ r ∧ forallb isdigit ip = true ∧ forallb numchar r = true.
Proof.
  induction t as [|c t IH]; [by left|]. simpl.
  intros [[Hc| ->]%numchar_inv Ht]%andb_prop.
  - destruct (IH Ht) as [Hd|(ip & r & -> & Hip & Hr)].
    + left. by rewrite Hc.
    + right. exists (c :: ip), r. simpl. by rewrite Hc.
  - right. by exists [], t.
Qed.

Lemma lexeme_forms t : lexeme t = true → lexeme_form t.
Proof.
  intros Ht.
  assert (∃ neg s, t = sign_text neg ++ s ∧ forallb numchar s = true)
    as (neg & s & -> & Hs).
  { destruct t as [|c t]; [done|]. simpl in Ht.
    apply andb_prop in Ht as [[->%bool_decide_eq_true_1|Hc]%orb_prop Ht].
    - by exists true, t.
    - exists false, (c :: t). simpl. by rewrite Hc. }
  destruct (numchars_split s Hs) as [?|(ip & r & -> & Hip & Hr)];
    [by constructor|].
  destruct (numchars_split r Hr) as [?|(fp & r' & -> & Hfp & _)];
    by constructor.
Qed.

Lemma form_agrees t : lexeme_form t → scan_agrees t.
Proof.
  unfold scan_agrees, isNumber.
  destruct 1 as [neg ip Hip|neg ip fp Hip Hfp|neg ip fp r Hip Hfp].
  - rewrite decimal_lexeme_int, lexeme_decimal_int by done.
    rewrite skipws_sign_text by
      (destruct ip as [|c ip]; [done|]; simpl in *; unfold numchar; by destruct (isdigit c)).
    pose proof (read_mantissa_int neg ip Hip) as Hm.
    case_bool_decide; cbn [negb]; [unfold extract_float; by rewrite Hm|].
    apply extract_float_mantissa; auto.
  - rewrite decimal_lexeme_dot, lexeme_decimal_dot by done.
    rewrite skipws_sign_text by by apply digits_head_numchar.
    pose proof (read_mantissa_dot neg ip fp [] Hip Hfp (or_introl eq_refl)) as Hm.
    rewrite app_nil_r in Hm.
    case_bool_decide; cbn [negb]; [unfold extract_float; by rewrite Hm|].
    apply extract_float_mantissa; auto.
  - rewrite decimal_lexeme_dots by done.
    rewrite skipws_sign_text by by apply digits_head_numchar.
    pose proof (read_mantissa_dot neg ip fp ("." ++ r) Hip Hfp) as Hm.
    unfold extract_float. rewrite Hm by eauto. by case_bool_decide.
Qed.

(** C28: on a lexeme of the tokenizer, [isNumber] holds exactly when the
    lexeme has a digit and at most one dot and the decimal it spells does
    not round to infinity. *)
Theorem isNumber_lexeme t :
  lexeme t = true →
  isNumber t
  = decimal_lexeme t && negb (is_infinite (decimal_to_spec (lexeme_decimal t))).
Proof.
  intros Hf%lexeme_forms%form_agrees. unfold scan_agrees, isNumber in *.
  destruct (decimal_lexeme t); [by rewrite Hf|done].
Qed.


End agreement.

Lemma isNumber_lexeme_witness :
  isNumber "-12.5"
  = decimal_lexeme "-12.5"
    && negb (is_infinite (decimal_to_spec (lexeme_decimal "-12.5"))).
Proof. apply isNumber_lexeme. reflexivity. Defined.

