(* ===== verification/Arith.v ===== *)
(** * Arith: the operator table and the arithmetic of one operator

    [precedence] (main.cpp 11-19) and [applyOp] (main.cpp 22-34).  A
    [double] is a primitive binary64 float, so the four basic operations
    and the test [b == 0] are the machine's.  [std::pow] is not part of the
    program: it is the field of the class [Libm], and [exact_libm] is a
    reference instance for concrete runs, correctly rounded where the exact
    power is a rational number (finite non-zero base, integer exponent). *)

From Stdlib Require Import ZArith Ascii List Floats.
From stdpp Require Import base tactics list.
From S2P Require Import Prelude.
Local Open Scope str_scope.

(** ** The math library *)

Class Libm := { pow : float → float → float }.

(** ** The program *)

Definition precedence (op : ascii) : Z :=
  if bool_decide (op = "+"%char) || bool_decide (op = "-"%char) then 1
  else if bool_decide (op = "*"%char) || bool_decide (op = "/"%char) then 2
  else if bool_decide (op = "^"%char) then 3
  else 0.

Definition applyOp `{Libm} (a b : float) (op : ascii) : result float :=
  if bool_decide (op = "+"%char) then Ok (a + b)%float
  else if bool_decide (op = "-"%char) then Ok (a - b)%float
  else if bool_decide (op = "*"%char) then Ok (a * b)%float
  else if bool_decide (op = "/"%char) then
    if (b =? 0)%float then Throw "Division by zero" else Ok (a / b)%float
  else if bool_decide (op = "^"%char) then Ok (pow a b)
  else Ok 0%float.

(** The five characters [applyOp] has a case for. *)
Definition is_operator (op : ascii) : bool :=
  bool_decide (op ∈ ["+"; "-"; "*"; "/"; "^"]%char).

(** ** A reference [pow] *)

(** The integer a float denotes, if it denotes one. *)
Definition float_to_Z (y : float) : option Z :=
  match Prim2SF y with
  | S754_zero _ => Some 0%Z
  | S754_finite s m e =>
      let n := Z.shiftl (Z.pos m) e in
      if (Z.shiftl n (- e) =? Z.pos m)%Z then Some (if s then (- n)%Z else n)
      else None
  | _ => None
  end.

(** [x ^ n] for finite non-zero [x] and integer [n], rounded once. *)
Definition pow_exact (x y : float) : option float :=
  match Prim2SF x, float_to_Z y with
  | _, Some 0%Z => Some 1%float
  | S754_finite s m e, Some (Z.pos n) =>
      let sign := s && Z.odd (Z.pos n) in
      Some (SF2Prim (SFdiv prec emax
        (S754_finite sign (m ^ n) (e * Z.pos n)) (S754_finite false 1 0)))
  | S754_finite s m e, Some (Z.neg n) =>
      let sign := s && Z.odd (Z.pos n) in
      Some (SF2Prim (SFdiv prec emax
        (S754_finite sign 1 0) (S754_finite false (m ^ n) (e * Z.pos n))))
  | _, _ => None
  end.

Definition exact_libm : Libm := {| pow x y := default nan (pow_exact x y) |}.

(** ** Properties *)

Section arith.
Context `{Libm}.
Implicit Types (op : ascii) (a b : float).

Lemma precedence_operator op :
  (0 < precedence op)%Z ↔ is_operator op = true.
Proof. all_chars op; split; done. Qed.

(** An operator is not a digit, a dot, a parenthesis or a space. *)
Lemma is_operator_inv op :
  is_operator op = true →
  isdigit op = false ∧ isspace op = false ∧ op ≠ "."%char ∧
  op ≠ "("%char ∧ op ≠ ")"%char.
Proof. all_chars op; done. Qed.

Lemma precedence_range op : (0 ≤ precedence op ≤ 3)%Z.
Proof. unfold precedence. repeat case_bool_decide; simpl; lia. Qed.

(** The parentheses rank below every operator. *)
Lemma precedence_lparen : precedence "(" = 0%Z.
Proof. done. Qed.

Lemma applyOp_not_Undefined a b op : applyOp a b op ≠ Undefined.
Proof. unfold applyOp. repeat case_match; done. Qed.

(** The [default] of the [switch]. *)
Lemma applyOp_unknown a b op : is_operator op = false → applyOp a b op = Ok 0%float.
Proof.
  unfold applyOp, is_operator. rewrite bool_decide_eq_false, !elem_of_cons.
  intros Hop. rewrite !bool_decide_eq_false_2 by (intros ->; tauto). done.
Qed.

Lemma applyOp_message a b op w :
  applyOp a b op = Throw w → w = "Division by zero".
Proof.
  unfold applyOp. repeat case_bool_decide; try done.
  destruct (b =? 0)%float; [by intros [= <-]|done].
Qed.

(** C33: [applyOp] throws exactly when the operator is [/] and the right
    operand compares equal to zero, and then the message is "Division by
    zero". *)
Lemma applyOp_Throw a b op w :
  applyOp a b op = Throw w ↔
  op = "/"%char ∧ (b =? 0)%float = true ∧ w = "Division by zero".
Proof.
  unfold applyOp. repeat case_bool_decide; subst; try by (split; [|intros (?&?&?)]).
  destruct (b =? 0)%float; split; (by intros [= <-]) || (by intros (?&?&->)) || done.
Qed.

End arith.
