(* ===== verification/Tokenizer.v ===== *)
(** * Tokenizer: [tokenize] (main.cpp 44-72)

    The loop state is the record [tok_state] (the three locals of the
    function), the loop body is [tokenize_step], and [tokenize] folds it
    over the characters and flushes the pending lexeme.  The theorems: the
    tokens concatenate to the input, no token is empty, every token has one
    of two shapes.  [retok_step] is an automaton on tokens that follows
    the loop across a whole token: it accepts the token lists that
    [tokenize] reads back from their concatenation, and these are exactly
    the lists [tokenize] returns.  The loop never reads the tokens it has
    pushed ([after]), so it starts afresh after every character that
    leaves it in its initial flags ([tokenize_separator]), and tokens are
    only ever appended ([tokenize_extends]). *)

From Stdlib Require Import ZArith Ascii List.
From stdpp Require Import base tactics list.
From S2P Require Import Prelude Lexeme.
Local Open Scope str_scope.

(** ** The program *)

Record tok_state := TokState {
  tokens : list str;
  num : str;
  lastCharWasOperator : bool;
}.

(** Lines 54-57 and 67-69: push the pending lexeme, if any. *)
Definition flush_num (st : tok_state) : tok_state :=
  if negb (bool_decide (num st = [])) then
    {| tokens := tokens st ++ [num st]; num := [];
       lastCharWasOperator := lastCharWasOperator st |}
  else st.

(** Lines 50-64: the loop body. *)
Definition tokenize_step (st : tok_state) (ch : ascii) : tok_state :=
  if numchar ch then
    {| tokens := tokens st; num := num st ++ [ch]; lastCharWasOperator := false |}
  else
    let st := flush_num st in
    if bool_decide (ch = "-"%char) && lastCharWasOperator st then
      {| tokens := tokens st; num := num st ++ [ch];
         lastCharWasOperator := lastCharWasOperator st |}
    else
      {| tokens := tokens st ++ [[ch]]; num := num st;
         lastCharWasOperator := negb (bool_decide (ch = ")"%char)) |}.

Definition tok_init : tok_state :=
  {| tokens := []; num := []; lastCharWasOperator := true |}.

Definition tokenize_loop (expression : str) : tok_state :=
  foldl tokenize_step tok_init expression.

Definition tokenize (expression : str) : list str :=
  tokens (flush_num (tokenize_loop expression)).

(** ** Specification predicates *)

(** The text a state has consumed: the tokens, then the pending lexeme. *)
Definition consumed (st : tok_state) : str := concat (tokens st) ++ num st.

(** The loop invariant on shapes: the tokens are well shaped and the
    pending lexeme is empty or a lexeme. *)
Definition shape_inv (st : tok_state) : Prop :=
  Forall (λ t, token_shape t = true) (tokens st) ∧
  (num st ≠ [] → lexeme (num st) = true).

(** The state [st] with the tokens [pre] pushed before its own: the loop
    never reads the tokens it has pushed. *)
Definition after (pre : list str) (st : tok_state) : tok_state :=
  {| tokens := pre ++ tokens st; num := num st;
     lastCharWasOperator := lastCharWasOperator st |}.

(** ** Which token lists the tokenizer reads back

    Between two tokens the tokenizer holds nothing, a minus sign that may
    still become the sign of a number, or the digits of a number. *)
Inductive pending :=
| Clear (lastWasOperator : bool)
| Minus
| Digits.

(** The state after the token [t], or [None] when the text of [t] would
    not come back as the token [t]: digits that follow digits or a pending
    minus sign merge with them, and a signed number needs the flag. *)
Definition retok_step (p : pending) (t : str) : option pending :=
  match t with
  | [] => None
  | c :: t' =>
      if numchar c then
        match p with
        | Clear _ => if forallb numchar t' then Some Digits else None
        | _ => None
        end
      else if bool_decide (c = "-"%char) then
        match t', p with
        | [], (Clear true | Minus) => Some Minus
        | [], (Clear false | Digits) => Some (Clear true)
        | _ :: _, (Clear true | Minus) => if forallb numchar t' then Some Digits else None
        | _ :: _, _ => None
        end
      else
        match t' with
        | [] => Some (Clear (negb (bool_decide (c = ")"%char))))
        | _ => None
        end
  end.

Fixpoint retok_run (p : pending) (ts : list str) : option pending :=
  match ts with
  | [] => Some p
  | t :: ts => p' ← retok_step p t; retok_run p' ts
  end.

(** The tokenizer reads the token list [ts] back from its text. *)
Definition retokenizable (ts : list str) : bool :=
  bool_decide (is_Some (retok_run (Clear true) ts)).

(** A loop state holds the tokens [ts] with [p] pending. *)
Definition holds (p : pending) (ts : list str) (st : tok_state) : Prop :=
  tokens (flush_num st) = ts ∧
  match p with
  | Clear f => num st = [] ∧ lastCharWasOperator st = f
  | Minus => num st = "-" ∧ lastCharWasOperator st = true
  | Digits => num st ≠ [] ∧ lastCharWasOperator st = false
  end.

(** What the loop has pushed is read back, and the pending number can
    still become a token. *)
Definition retok_inv (st : tok_state) : Prop :=
  ∃ p, retok_run (Clear true) (tokens st) = Some p ∧
    if bool_decide (num st = []) then p = Clear (lastCharWasOperator st)
    else retok_step p (num st) = Some (if lastCharWasOperator st then Minus else Digits).

(** ** Properties of the loop body *)

Section tokenizer.
Implicit Types (st : tok_state) (ch : ascii) (t s : str).

Lemma flush_num_consumed st : consumed (flush_num st) = consumed st.
Proof.
  unfold flush_num, consumed. case_bool_decide as E; simpl; [by rewrite E|].
  by rewrite concat_snoc, app_nil_r.
Qed.

Lemma flush_num_num st : num (flush_num st) = [].
Proof. unfold flush_num. by case_bool_decide. Qed.

Lemma flush_num_last st :
  lastCharWasOperator (flush_num st) = lastCharWasOperator st.
Proof. unfold flush_num. by case_bool_decide. Qed.

Lemma flush_num_Forall (P : str → Prop) st :
  Forall P (tokens st) → (num st ≠ [] → P (num st)) →
  Forall P (tokens (flush_num st)).
Proof.
  intros Ht Hn. unfold flush_num. case_bool_decide; simpl; auto with calc.
Qed.

Lemma tokenize_step_consumed st ch :
  consumed (tokenize_step st ch) = consumed st ++ [ch].
Proof.
  unfold tokenize_step. destruct (numchar ch).
  { unfold consumed; simpl. by rewrite app_assoc. }
  rewrite <-(flush_num_consumed st). unfold consumed at 2.
  rewrite flush_num_num, app_nil_r.
  case_match; unfold consumed; simpl; rewrite ?flush_num_num; [done|].
  by rewrite concat_snoc, app_nil_r.
Qed.

Lemma flush_num_shape st : shape_inv st → shape_inv (flush_num st).
Proof.
  intros [Ht Hn]. split; [|by rewrite flush_num_num].
  apply flush_num_Forall; [done|]. intros ?%Hn. unfold token_shape.
  by apply orb_true_iff; right.
Qed.

Lemma tokenize_step_shape st ch : shape_inv st → shape_inv (tokenize_step st ch).
Proof.
  intros Hst. unfold tokenize_step. destruct (numchar ch) eqn:Hch.
  { destruct Hst as [Ht Hn]. split; [done|]. simpl. intros _.
    destruct (num st) as [|c n] eqn:E; [by simpl; rewrite Hch, orb_true_r|].
    apply lexeme_snoc; auto. }
  apply flush_num_shape in Hst as [Ht Hn]. case_match; split; simpl; try done.
  - rewrite flush_num_num. intros _. simpl.
    by destruct (bool_decide (ch = "-"%char)).
  - apply Forall_snoc; [done|]. unfold token_shape, symbol. by rewrite Hch.
Qed.

(** ** Properties of [tokenize] *)

(** The loop has consumed its input. *)
Lemma tokenize_loop_consumed s : consumed (tokenize_loop s) = s.
Proof.
  apply (foldl_prefix_ind _ (λ l st, consumed st = l)); [done|].
  intros l x st <-. apply tokenize_step_consumed.
Qed.

Lemma tokenize_consumed s : concat (tokenize s) = consumed (tokenize_loop s).
Proof.
  unfold tokenize. rewrite <-flush_num_consumed. unfold consumed.
  by rewrite flush_num_num, app_nil_r.
Qed.

(** C16: the tokens, concatenated in order, are the input text: the
    tokenizer drops and invents no character. *)
Theorem tokenize_concat s : concat (tokenize s) = s.
Proof. by rewrite tokenize_consumed, tokenize_loop_consumed. Qed.

Lemma tokenize_loop_shape s : shape_inv (tokenize_loop s).
Proof.
  apply (foldl_prefix_ind _ (λ _ st, shape_inv st)).
  - by split.
  - intros _ x st. apply tokenize_step_shape.
Qed.

(** C27: every token is either one character that is neither a digit nor a
    dot, or a lexeme made of an optional minus sign followed by digits and
    dots. *)
Theorem tokenize_shape s : Forall (λ t, token_shape t = true) (tokenize s).
Proof. apply flush_num_shape, tokenize_loop_shape. Qed.

Lemma tokenize_elem_shape s t : t ∈ tokenize s → token_shape t = true.
Proof.
  revert t. apply Forall_forall, flush_num_shape, tokenize_loop_shape.
Qed.

(** No token is the empty string, so [token[0]] in the converter reads a
    character of the token. *)
Lemma tokenize_nonempty s : Forall (λ t, t ≠ []) (tokenize s).
Proof.
  apply Forall_forall. intros t Ht%tokenize_elem_shape.
  by apply token_shape_nonempty.
Qed.

(** There are at most as many tokens as characters. *)
Lemma tokenize_length s : length (tokenize s) ≤ length s.
Proof.
  rewrite <-(tokenize_loop_consumed s) at 2. rewrite <-tokenize_consumed.
  apply concat_length_nonempty, tokenize_nonempty.
Qed.

(** ** Reading tokens back *)

Lemma foldl_tokenize_numchars st t :
  forallb numchar t = true → t ≠ [] →
  foldl tokenize_step st t =
    {| tokens := tokens st; num := num st ++ t; lastCharWasOperator := false |}.
Proof.
  revert st; induction t as [|c t IH]; intros st; [done|]. simpl.
  intros [Hc Ht]%andb_prop _. unfold tokenize_step at 2. rewrite Hc.
  destruct t as [|c' t]; [done|]. rewrite IH by done. simpl.
  by rewrite <-app_assoc.
Qed.

(** A character that is not part of a number, from any state. *)
Lemma tokenize_step_symbol st c :
  numchar c = false →
  tokenize_step st c =
    if bool_decide (c = "-"%char) && lastCharWasOperator st then
      {| tokens := tokens (flush_num st); num := "-"; lastCharWasOperator := true |}
    else
      {| tokens := tokens (flush_num st) ++ [[c]]; num := [];
         lastCharWasOperator := negb (bool_decide (c = ")"%char)) |}.
Proof.
  intros Hc. unfold tokenize_step. rewrite Hc, flush_num_last, flush_num_num.
  case_bool_decide as Hm; [subst|done]. simpl. by destruct (lastCharWasOperator st).
Qed.

Lemma flush_num_tokens st :
  tokens (flush_num st) = if bool_decide (num st = []) then tokens st else tokens st ++ [num st].
Proof. unfold flush_num. by case_bool_decide. Qed.

(** One token: the automaton follows the loop. *)
Lemma retok_step_holds p ts st t p' :
  holds p ts st → retok_step p t = Some p' →
  holds p' (ts ++ [t]) (foldl tokenize_step st t).
Proof.
  intros [Hts Hp] Hstep. destruct t as [|c t']; [done|]. simpl in Hstep.
  destruct (numchar c) eqn:Hc.
  - destruct p as [f| |]; [|done..]. destruct Hp as [Hn Hf].
    destruct (forallb numchar t') eqn:Ht'; [|done]. injection Hstep as <-.
    rewrite foldl_tokenize_numchars by (done || by simpl; rewrite Hc).
    rewrite flush_num_tokens, Hn in Hts. simpl in Hts. subst ts.
    split; [|by rewrite Hn]. rewrite flush_num_tokens. simpl. by rewrite Hn.
  - simpl. rewrite tokenize_step_symbol by done. rewrite Hts.
    case_bool_decide as Hm.
    + subst c. destruct t' as [|c' t'].
      * destruct p as [[]| |]; destruct Hp as [Hn Hf]; injection Hstep as <-;
          rewrite Hf; simpl; split; done.
      * destruct (forallb numchar (c' :: t')) eqn:Ht'; [|by destruct p as [[]| |]].
        assert (lastCharWasOperator st = true ∧ p' = Digits) as [Hf ->].
        { destruct p as [[]| |]; destruct Hp; by simplify_eq. }
        rewrite Hf. simpl andb. cbv iota.
        rewrite foldl_tokenize_numchars by done. split; [|done].
        rewrite flush_num_tokens. simpl. done.
    + destruct t' as [|??]; [|done]. injection Hstep as <-. simpl. split; [|done].
      by rewrite flush_num_tokens.
Qed.

Lemma retok_run_holds p ts st more p' :
  holds p ts st → retok_run p more = Some p' →
  holds p' (ts ++ more) (foldl tokenize_step st (concat more)).
Proof.
  revert p ts st; induction more as [|t more IH]; intros p ts st Hst; simpl.
  - intros [= <-]. by rewrite app_nil_r.
  - destruct (retok_step p t) as [p1|] eqn:Hstep; [|done]. simpl. intros Hrun.
    rewrite foldl_app, cons_middle, (assoc_L (++)).
    eauto using retok_step_holds.
Qed.

Lemma retok_run_tokenize ts p :
  retok_run (Clear true) ts = Some p → tokenize (concat ts) = ts.
Proof.
  intros Hrun.
  by destruct (retok_run_holds (Clear true) [] tok_init ts p) as [Hts _].
Qed.

Lemma retok_run_app p ts1 ts2 :
  retok_run p (ts1 ++ ts2) = p' ← retok_run p ts1; retok_run p' ts2.
Proof.
  revert p; induction ts1 as [|t ts1 IH]; intros p; [done|]. simpl.
  destruct (retok_step p t); simpl; auto.
Qed.

(** C17: the tokenizer reads a token list back from its concatenated text
    whenever no two tokens merge: digits do not follow digits or a pending
    minus sign, and a number carries a sign only at the start, after an
    opening parenthesis or after an operator. *)
Theorem tokenize_retokenizable ts :
  retokenizable ts = true → tokenize (concat ts) = ts.
Proof. intros [p Hrun]%bool_decide_eq_true_1. eauto using retok_run_tokenize. Qed.

(** A digit or a dot extends the pending token. *)
Lemma retok_step_extend p t p' ch :
  retok_step p t = Some p' → p' = Minus ∨ p' = Digits → numchar ch = true →
  retok_step p (t ++ [ch]) = Some Digits.
Proof.
  intros Hstep Hp' Hch. destruct t as [|c t']; [done|]. simpl in *.
  rewrite forallb_app. simpl. rewrite Hch, andb_true_r.
  destruct (numchar c); [by destruct p, (forallb numchar t'), Hp'; simplify_eq|].
  case_bool_decide; [|destruct t', Hp'; by simplify_eq].
  destruct t' as [|c' t'], p as [[]| |]; simpl in *; rewrite ?Hch; try done;
    repeat case_match; destruct Hp'; by simplify_eq.
Qed.

(** After the pending number is pushed, the flag tells what precedes. *)
Lemma retok_inv_flush st :
  retok_inv st →
  ∃ p, retok_run (Clear true) (tokens (flush_num st)) = Some p ∧
       if lastCharWasOperator st then p = Clear true ∨ p = Minus
       else p = Clear false ∨ p = Digits.
Proof.
  intros (p & Hrun & Hp). rewrite flush_num_tokens.
  case_bool_decide.
  { exists p. split; [done|]. rewrite Hp. destruct (lastCharWasOperator st); auto. }
  rewrite retok_run_app, Hrun. simpl. rewrite Hp. simpl.
  eexists; split; [done|]. case_match; auto.
Qed.

Lemma tokenize_step_retok st ch : retok_inv st → retok_inv (tokenize_step st ch).
Proof.
  intros Hinv. destruct (numchar ch) eqn:Hch.
  - destruct Hinv as (p & Hrun & Hp). exists p. unfold tokenize_step. rewrite Hch.
    simpl. split; [done|]. rewrite bool_decide_eq_false_2 by by destruct (num st).
    case_bool_decide as Hn; [rewrite Hn, Hp; simpl; by rewrite Hch|].
    eapply retok_step_extend; [done| |done]. case_match; auto.
  - destruct (retok_inv_flush st Hinv) as (p & Hrun & Hp).
    rewrite tokenize_step_symbol by done.
    destruct (decide (ch = "-"%char)) as [->|Hm].
    + exists (if lastCharWasOperator st then p else Clear true).
      destruct (lastCharWasOperator st); simpl; [by destruct Hp as [->| ->]|].
      rewrite retok_run_app, Hrun. by destruct Hp as [->| ->].
    + rewrite bool_decide_eq_false_2 by done. simpl.
      exists (Clear (negb (bool_decide (ch = ")"%char)))). split; [|done]. simpl.
      rewrite retok_run_app, Hrun. simpl. by rewrite Hch, bool_decide_eq_false_2.
Qed.

(** C18: the token lists that the tokenizer produces are among those it
    reads back, whatever the text: no two of its tokens would merge when
    written side by side.  With the round trip in the other direction, the
    tokenizer is a bijection between texts and these token lists. *)
Theorem tokenize_image s : retokenizable (tokenize s) = true.
Proof.
  apply bool_decide_eq_true_2. unfold tokenize.
  destruct (retok_inv_flush (tokenize_loop s)) as (p & -> & _); [|done].
  apply (foldl_prefix_ind _ (λ _ st, retok_inv st)).
  - by exists (Clear true).
  - intros _ x st. apply tokenize_step_retok.
Qed.

Lemma tokenize_retokenizable_witness :
  tokenize (concat ["-"; "("; "-2.5"; "*"; "3"; ")"; "-"; "-4"])
  = ["-"; "("; "-2.5"; "*"; "3"; ")"; "-"; "-4"].
Proof. apply tokenize_retokenizable. reflexivity. Defined.

(** Tokens are only ever appended: the tokens of a text begin with the
    tokens its beginning has already given. *)
Lemma flush_num_extends st : tokens st `prefix_of` tokens (flush_num st).
Proof. unfold flush_num. case_match; [by eexists|done]. Qed.

Lemma tokenize_step_extends st ch : tokens st `prefix_of` tokens (tokenize_step st ch).
Proof.
  unfold tokenize_step. repeat case_match; simpl; try done;
    (etrans; [apply flush_num_extends|]); [done|by eexists].
Qed.

Lemma tokenize_extends s1 s2 :
  tokens (tokenize_loop s1) `prefix_of` tokenize (s1 ++ s2).
Proof.
  unfold tokenize, tokenize_loop. rewrite foldl_app.
  generalize (foldl tokenize_step tok_init s1). intros st.
  etrans; [|apply flush_num_extends].
  revert st; induction s2 as [|ch s2 IH]; intros st; [done|].
  simpl. etrans; [apply tokenize_step_extends|apply IH].
Qed.

(** The loop does not depend on the tokens already pushed. *)
Lemma flush_num_after pre st : flush_num (after pre st) = after pre (flush_num st).
Proof.
  unfold flush_num, after. simpl. case_bool_decide; simpl; [done|].
  by rewrite app_assoc.
Qed.

Lemma tokenize_step_after pre st ch :
  tokenize_step (after pre st) ch = after pre (tokenize_step st ch).
Proof.
  unfold tokenize_step. rewrite flush_num_after.
  unfold after. simpl. repeat case_match; simpl; by rewrite ?app_assoc.
Qed.

Lemma tokenize_loop_after pre st s :
  foldl tokenize_step (after pre st) s = after pre (foldl tokenize_step st s).
Proof.
  revert st; induction s as [|ch s IH]; intros st; [done|].
  simpl. by rewrite tokenize_step_after, IH.
Qed.

(** C19: the tokenizer starts afresh after every character that is a
    token of its own, but for the closing parenthesis and the minus sign:
    the tokens of a text around such a character are the tokens of what
    precedes it, the character, and the tokens of what follows it. *)
Theorem tokenize_separator s1 ch s2 :
  numchar ch = false → ch ≠ "-"%char → ch ≠ ")"%char →
  tokenize (s1 ++ [ch] ++ s2) = tokenize s1 ++ [[ch]] ++ tokenize s2.
Proof.
  intros Hn Hm Hp. unfold tokenize, tokenize_loop. rewrite foldl_app. simpl.
  set (st := foldl tokenize_step tok_init s1).
  replace (tokenize_step st ch) with (after (tokens (flush_num st) ++ [[ch]]) tok_init).
  - rewrite tokenize_loop_after, flush_num_after. simpl. by rewrite <-app_assoc.
  - unfold tokenize_step, after. rewrite Hn, flush_num_num. simpl.
    by rewrite !bool_decide_eq_false_2, app_nil_r by done.
Qed.

End tokenizer.

Lemma tokenize_separator_witness :
  tokenize ("12" ++ ["*"%char] ++ "-3") = tokenize "12" ++ ["*"] ++ tokenize "-3".
Proof. by apply tokenize_separator. Defined.
