(* ===== verification/Syntax.v ===== *)
(** * Syntax: the abstract specification of the calculator

    What the pipeline is meant to compute, stated without stacks: the
    expression tree a token list denotes and the value of a tree.

    - [expr]: a number lexeme or a binary operation;
    - [infix k ts e]: the token list [ts] is an infix expression of level
      at least [k] that denotes [e].  The levels are the values of
      [precedence]: 1 for [+ -], 2 for [* /], 3 for [^]; level 4 is a
      number or a parenthesised expression.  An operator of level [k]
      takes a left operand of level [k] and a right operand of level
      [k + 1]: every operator groups to the left, [^] included, as the
      comparison [>=] of main.cpp 137 makes it;
    - [postfix e]: the postfix token list of [e]; [unwords] writes each
      token followed by one space, the text the converter builds;
    - [eval e]: the value of [e], evaluated left operand first, with the
      exceptions of [stod] and [applyOp];
    - [build]: trees read back from a postfix token list, which shows that
      the postfix form determines the tree.

    None of these definitions models a line of the program: the
    components are proved against them. *)

From Stdlib Require Import ZArith Ascii List Floats.
From stdpp Require Import base tactics list.
From S2P Require Import Prelude Lexeme Arith.
Local Open Scope str_scope.
Local Open Scope Z_scope.

Inductive expr : Type :=
| ENum (t : str)
| EBin (op : ascii) (l r : expr).

#[export] Instance expr_eq_dec : EqDecision expr.
Proof. solve_decision. Defined.

Inductive infix : Z → list str → expr → Prop :=
| infix_num t :
    isNumber t = true → infix 4 [t] (ENum t)
| infix_paren ts e :
    infix 1 ts e → infix 4 (["("] ++ ts ++ [")"]) e
| infix_bin op k ts1 ts2 e1 e2 :
    is_operator op = true → precedence op = k →
    infix k ts1 e1 → infix (k + 1) ts2 e2 →
    infix k (ts1 ++ [[op]] ++ ts2) (EBin op e1 e2)
| infix_up k ts e :
    1 ≤ k → infix (k + 1) ts e → infix k ts e.

Fixpoint postfix (e : expr) : list str :=
  match e with
  | ENum t => [t]
  | EBin op l r => postfix l ++ postfix r ++ [[op]]
  end.

Definition unwords (ts : list str) : str := concat (map (λ t, t ++ " ") ts).

Fixpoint eval `{Libm} (e : expr) : result float :=
  match e with
  | ENum t => stod t
  | EBin op l r => a ← eval l; b ← eval r; applyOp a b op
  end.

(** The number lexemes of a tree, left to right. *)
Fixpoint leaves (e : expr) : list str :=
  match e with
  | ENum t => [t]
  | EBin _ l r => leaves l ++ leaves r
  end.

(** The operators of a tree. *)
Fixpoint operators_of (e : expr) : list ascii :=
  match e with
  | ENum _ => []
  | EBin op l r => operators_of l ++ operators_of r ++ [op]
  end.

(** A well-formed tree: its leaves are numbers, its operators are among
    the five. *)
Definition wf_expr (e : expr) : Prop :=
  Forall (λ t, isNumber t = true) (leaves e) ∧
  Forall (λ op, is_operator op = true) (operators_of e).

(** Reading a postfix token list back into trees, on a stack. *)
Fixpoint build (stack : list expr) (ts : list str) : option (list expr) :=
  match ts with
  | [] => Some stack
  | t :: ts =>
      if isNumber t then build (ENum t :: stack) ts
      else match stack with
           | r :: l :: stack => build (EBin (first_char t) l r :: stack) ts
           | _ => None
           end
  end.

(** ** Properties of the grammar *)

Section syntax.
Implicit Types (e : expr) (ts : list str) (t : str) (k : Z).

(** An operator token is not a number and not a parenthesis. *)
Lemma operator_token op :
  is_operator op = true →
  isNumber [op] = false ∧ [op] ≠ "(" ∧ [op] ≠ ")".
Proof.
  intros (Hd & _ & _ & Hl & Hr)%is_operator_inv.
  rewrite isNumber_char. split_and!; [done|by intros [= ->]..].
Qed.

Lemma unwords_app ts1 ts2 : unwords (ts1 ++ ts2) = unwords ts1 ++ unwords ts2.
Proof. unfold unwords. by rewrite map_app, concat_app. Qed.

Lemma unwords_cons t ts : unwords (t :: ts) = t ++ " " ++ unwords ts.
Proof. unfold unwords. simpl. by rewrite <-app_assoc. Qed.

Lemma unwords_singleton t : unwords [t] = t ++ " ".
Proof. unfold unwords. simpl. by rewrite app_nil_r. Qed.

Lemma infix_level k ts e : infix k ts e → 1 ≤ k ≤ 4.
Proof.
  induction 1; lia.
Qed.

(** An expression of some level is an expression of every lower level. *)
Lemma infix_weaken k j ts e : infix k ts e → 1 ≤ j ≤ k → infix j ts e.
Proof.
  intros He [Hj Hjk]. revert He. pattern k.
  apply (Zlt_lower_bound_ind _ j); [|done]. clear k Hjk. intros k IH Hk He.
  destruct (decide (k = j)) as [->|]; [done|].
  apply (IH (k - 1)); [lia|]. apply infix_up; [lia|]. by replace (k - 1 + 1) with k by lia.
Qed.

(** A number is an expression of every level. *)
Lemma infix_atom k t : 1 ≤ k ≤ 4 → isNumber t = true → infix k [t] (ENum t).
Proof. intros Hk Ht. apply (infix_weaken 4); [by constructor|lia]. Qed.

Lemma infix_nonempty k ts e : infix k ts e → ts ≠ [].
Proof. induction 1; try done; by destruct ts1. Qed.

(** The operators of a denoted tree are among the five of [applyOp]. *)
Lemma infix_operators k ts e :
  infix k ts e → Forall (λ op, is_operator op = true) (operators_of e).
Proof.
  induction 1; simpl; auto.
  rewrite !Forall_app. repeat split; auto.
Qed.

(** The leaves of a denoted tree are numbers. *)
Lemma infix_leaves k ts e :
  infix k ts e → Forall (λ t, isNumber t = true) (leaves e).
Proof. induction 1; simpl; auto. rewrite Forall_app. auto. Qed.

(** The numbers among the tokens are the leaves of the tree, in order. *)
Lemma infix_leaves_tokens k ts e :
  infix k ts e → filter (λ t, isNumber t = true) ts = leaves e.
Proof.
  induction 1 as [t Ht| |op k ts1 ts2 e1 e2 Hop Hk _ IH1 _ IH2|];
    cbn [leaves]; rewrite ?filter_app, ?filter_cons, ?filter_nil; [..|done].
  - by rewrite decide_True.
  - rewrite !decide_False, app_nil_r by done. done.
  - rewrite IH1, IH2, decide_False; [done|].
    apply operator_token in Hop as [-> _]. done.
Qed.

Lemma wf_expr_bin op l r :
  wf_expr (EBin op l r) ↔ wf_expr l ∧ wf_expr r ∧ is_operator op = true.
Proof.
  unfold wf_expr. simpl. rewrite !Forall_app, Forall_singleton. tauto.
Qed.

Lemma infix_wf k ts e : infix k ts e → wf_expr e.
Proof. split; eauto using infix_leaves, infix_operators. Qed.

(** The postfix form of a tree determines the tree. *)
Lemma build_postfix e stack rest :
  wf_expr e → build stack (postfix e ++ rest) = build (e :: stack) rest.
Proof.
  revert stack rest; induction e as [t|op l IHl r IHr]; intros stack rest Hwf.
  - destruct Hwf as [[Ht _]%Forall_cons _]. simpl. by rewrite Ht.
  - apply wf_expr_bin in Hwf as (Hl & Hr & [Hop _]%operator_token). simpl.
    rewrite <-!app_assoc, IHl, IHr by done. simpl. by rewrite Hop.
Qed.

Lemma postfix_inj e1 e2 :
  wf_expr e1 → wf_expr e2 → postfix e1 = postfix e2 → e1 = e2.
Proof.
  intros H1 H2 E.
  pose proof (build_postfix e1 [] [] H1) as B1. rewrite E, build_postfix in B1 by done.
  by injection B1.
Qed.

End syntax.
