(* ===== verification/Validator.v ===== *)
(** * Validator: [validateExpression] (main.cpp 75-112)

    The loop keeps three variables, the record [val_state]; its body is
    [validate_step], where [None] is the [return false] of lines 88, 94 and
    100, and [validateExpression] runs it over the tokens and applies the
    final test of line 107.

    The theorems: the flag [lastTokenWasOpeningBracket] never matters
    (every reachable state that has it set also has
    [lastTokenWasOperator] set), so the loop is the two-state machine
    [machine_step] of the specification; the counter equals the number of
    unmatched opening parentheses and stays between 0 and the number of
    tokens read; accepted sequences are balanced, start with an operand or
    an opening parenthesis and end with an operand or a closing one; and
    every infix expression of [Syntax.infix] is accepted. *)

From Stdlib Require Import ZArith Ascii List.
From stdpp Require Import base tactics option list.
From S2P Require Import Prelude Lexeme Arith Syntax.
Local Open Scope str_scope.
Local Open Scope Z_scope.

(** ** The program *)

Record val_state := ValState {
  openBrackets : Z;
  lastTokenWasOperator : bool;
  lastTokenWasOpeningBracket : bool;
}.

Definition val_init : val_state :=
  {| openBrackets := 0; lastTokenWasOperator := true;
     lastTokenWasOpeningBracket := false |}.

(** Lines 81-104. *)
Definition validate_step (st : val_state) (token : str) : option val_state :=
  if bool_decide (token = "(") then
    Some {| openBrackets := openBrackets st + 1; lastTokenWasOperator := true;
            lastTokenWasOpeningBracket := true |}
  else if bool_decide (token = ")") then
    let openBrackets := openBrackets st - 1 in
    if (openBrackets <? 0) || lastTokenWasOperator st then None
    else Some {| openBrackets := openBrackets; lastTokenWasOperator := false;
                 lastTokenWasOpeningBracket := false |}
  else if isNumber token then
    if negb (lastTokenWasOperator st) && negb (lastTokenWasOpeningBracket st)
    then None
    else Some {| openBrackets := openBrackets st; lastTokenWasOperator := false;
                 lastTokenWasOpeningBracket := false |}
  else
    if lastTokenWasOperator st then None
    else Some {| openBrackets := openBrackets st; lastTokenWasOperator := true;
                 lastTokenWasOpeningBracket := false |}.

(** Lines 80-105: the loop, left at the first [return false]. *)
Fixpoint validate_loop (st : val_state) (tokens : list str) : option val_state :=
  match tokens with
  | [] => Some st
  | token :: tokens => st' ← validate_step st token; validate_loop st' tokens
  end.

(** Line 107. *)
Definition validate_end (st : val_state) : bool :=
  negb (negb (openBrackets st =? 0) || lastTokenWasOperator st).

Definition validateExpression (tokens : list str) : bool :=
  match validate_loop val_init tokens with
  | Some st => validate_end st
  | None => false
  end.

(** ** The state machine of the specification *)

Inductive token_class := LeftParen | RightParen | Number | Operator.

Definition classify (t : str) : token_class :=
  if bool_decide (t = "(") then LeftParen
  else if bool_decide (t = ")") then RightParen
  else if isNumber t then Number
  else Operator.

Inductive phase := ExpectOperand | ExpectOperatorOrClose.

#[export] Instance phase_eq_dec : EqDecision phase.
Proof. solve_decision. Defined.

(** Depth of open parentheses and phase; [None] rejects. *)
Definition machine_step (s : Z * phase) (t : str) : option (Z * phase) :=
  let '(depth, ph) := s in
  match classify t, ph with
  | LeftParen, _ => Some (depth + 1, ExpectOperand)
  | RightParen, ExpectOperatorOrClose =>
      if 0 <? depth then Some (depth - 1, ExpectOperatorOrClose) else None
  | Number, ExpectOperand => Some (depth, ExpectOperatorOrClose)
  | Operator, ExpectOperatorOrClose => Some (depth, ExpectOperand)
  | _, _ => None
  end.

Fixpoint machine_run (s : Z * phase) (ts : list str) : option (Z * phase) :=
  match ts with
  | [] => Some s
  | t :: ts => s' ← machine_step s t; machine_run s' ts
  end.

Definition machine_accepts (ts : list str) : bool :=
  bool_decide (machine_run (0, ExpectOperand) ts = Some (0, ExpectOperatorOrClose)).

(** Opening minus closing parentheses of a token list. *)
Fixpoint paren_depth (ts : list str) : Z :=
  match ts with
  | [] => 0
  | t :: ts =>
      (if bool_decide (t = "(") then 1 else if bool_decide (t = ")") then -1 else 0)
      + paren_depth ts
  end.

(** Balanced: no prefix closes more than it opens, and the whole closes all. *)
Definition balanced (ts : list str) : Prop :=
  paren_depth ts = 0 ∧ ∀ n, 0 ≤ paren_depth (take n ts).

(** What a state abstracts to. *)
Definition abstract (st : val_state) : Z * phase :=
  (openBrackets st,
   if lastTokenWasOperator st then ExpectOperand else ExpectOperatorOrClose).

(** The invariant of reachable states. *)
Definition val_inv (st : val_state) : Prop :=
  0 ≤ openBrackets st ∧
  (lastTokenWasOpeningBracket st = true → lastTokenWasOperator st = true).

(** ** Properties *)

Section validator.
Implicit Types (st : val_state) (t : str) (ts : list str).

Lemma validate_loop_app st ts1 ts2 :
  validate_loop st (ts1 ++ ts2) = st' ← validate_loop st ts1; validate_loop st' ts2.
Proof.
  revert st; induction ts1 as [|t ts1 IH]; intros st; [done|].
  simpl. destruct (validate_step st t); simpl; auto.
Qed.

Lemma machine_run_app s ts1 ts2 :
  machine_run s (ts1 ++ ts2) = s' ← machine_run s ts1; machine_run s' ts2.
Proof.
  revert s; induction ts1 as [|t ts1 IH]; intros s; [done|].
  simpl. destruct (machine_step s t); simpl; auto.
Qed.

Lemma val_inv_init : val_inv val_init.
Proof. by split. Qed.

Lemma validate_step_inv st t st' :
  val_inv st → validate_step st t = Some st' → val_inv st'.
Proof.
  intros [Hd Hf]. unfold validate_step, val_inv.
  repeat case_match; intros [= <-]; simpl; bool_cases; split; (lia || done).
Qed.

Lemma validate_loop_inv st ts st' :
  val_inv st → validate_loop st ts = Some st' → val_inv st'.
Proof.
  revert st; induction ts as [|t ts IH]; intros st Hst; simpl.
  - by intros [= <-].
  - destruct (validate_step st t) eqn:E; [|done]. simpl.
    eauto using validate_step_inv.
Qed.

(** One step of the loop is one step of the machine: a simulation. *)
Lemma validate_step_machine st t :
  val_inv st →
  abstract <$> validate_step st t = machine_step (abstract st) t.
Proof.
  intros [Hd Hf]. unfold validate_step, machine_step, abstract, classify.
  destruct st as [d [] []]; simpl in *; repeat case_match; simpl; bool_cases;
    try lia; try (by discriminate Hf).
Qed.

Lemma validate_loop_machine st ts :
  val_inv st →
  abstract <$> validate_loop st ts = machine_run (abstract st) ts.
Proof.
  revert st; induction ts as [|t ts IH]; intros st Hst; [done|].
  cbn [validate_loop machine_run]. rewrite <-validate_step_machine by done.
  destruct (validate_step st t) eqn:E; [|done]. simpl.
  eauto using validate_step_inv.
Qed.

(** C22: the three-variable loop of the program is the two-state machine
    with a depth counter that the specification describes: both accept
    the same token sequences.  In particular the flag
    [lastTokenWasOpeningBracket] has no effect. *)
Theorem validateExpression_machine ts :
  validateExpression ts = machine_accepts ts.
Proof.
  unfold validateExpression, machine_accepts.
  rewrite <-(validate_loop_machine val_init) by apply val_inv_init.
  destruct (validate_loop val_init ts) as [[d op ob]|] eqn:E; simpl; [|done].
  unfold validate_end, abstract; simpl.
  destruct op, (Z.eqb_spec d 0); simpl; case_bool_decide; naive_solver.
Qed.

(** The counter is the number of parentheses opened and not yet closed. *)
Lemma validate_step_depth st t st' :
  validate_step st t = Some st' →
  openBrackets st' = openBrackets st + paren_depth [t].
Proof.
  unfold validate_step. simpl.
  repeat case_match; intros [= <-]; simpl; lia.
Qed.

Lemma paren_depth_app ts1 ts2 :
  paren_depth (ts1 ++ ts2) = paren_depth ts1 + paren_depth ts2.
Proof. induction ts1; simpl; lia. Qed.

Lemma validate_loop_depth st ts st' :
  validate_loop st ts = Some st' →
  openBrackets st' = openBrackets st + paren_depth ts.
Proof.
  revert st; induction ts as [|t ts IH]; intros st; simpl.
  - intros [= <-]. lia.
  - destruct (validate_step st t) as [st1|] eqn:E; [|done]. simpl.
    intros ->%IH. apply validate_step_depth in E. simpl in E. lia.
Qed.

Lemma paren_depth_bound ts :
  - Z.of_nat (length ts) ≤ paren_depth ts ≤ Z.of_nat (length ts).
Proof. induction ts; simpl; repeat case_bool_decide; lia. Qed.

(** C31: while the loop runs, the counter [openBrackets] stays between 0
    and the number of tokens read so far: the [int] of the program cannot
    overflow on a vector of fewer than 2^31 tokens. *)
Theorem openBrackets_bound ts st :
  validate_loop val_init ts = Some st →
  0 ≤ openBrackets st ≤ Z.of_nat (length ts).
Proof.
  intros Hrun. split.
  - by apply (validate_loop_inv _ _ _ val_inv_init Hrun).
  - apply validate_loop_depth in Hrun as ->. simpl.
    pose proof (paren_depth_bound ts). lia.
Qed.

Lemma openBrackets_bound_witness :
  0 ≤ 1 ≤ Z.of_nat (length ["("; "("; "7"; ")"]).
Proof.
  apply (openBrackets_bound ["("; "("; "7"; ")"]
    {| openBrackets := 1; lastTokenWasOperator := false;
       lastTokenWasOpeningBracket := false |}).
  reflexivity.
Defined.

Lemma validate_loop_prefix st ts n :
  is_Some (validate_loop st ts) → is_Some (validate_loop st (take n ts)).
Proof.
  rewrite <-(take_drop n ts) at 1. rewrite validate_loop_app.
  destruct (validate_loop st (take n ts)); [done|]. by intros [? [=]].
Qed.

(** C26: an accepted token sequence has balanced parentheses: it closes as
    many as it opens and no prefix closes more than it has opened. *)
Theorem validateExpression_balanced ts :
  validateExpression ts = true → balanced ts.
Proof.
  unfold validateExpression.
  destruct (validate_loop val_init ts) as [st|] eqn:Hrun; [|done].
  intros Hend. split.
  - apply validate_loop_depth in Hrun. unfold validate_end in Hend.
    bool_cases. simpl in *. lia.
  - intros n. destruct (validate_loop_prefix val_init ts n) as [st' Hn]; [by eexists|].
    pose proof (validate_loop_inv _ _ _ val_inv_init Hn) as [? _].
    apply validate_loop_depth in Hn. simpl in *. lia.
Qed.

Lemma validateExpression_balanced_witness :
  balanced ["("; "1"; "+"; "("; "2"; ")"; ")"; "*"; "3"].
Proof. apply validateExpression_balanced. reflexivity. Defined.

(** Running over an infix expression from a state that expects an operand
    leaves the depth as it was and expects an operator. *)
Lemma validate_loop_infix k ts e st :
  infix k ts e → 0 ≤ openBrackets st → lastTokenWasOperator st = true →
  validate_loop st ts =
    Some {| openBrackets := openBrackets st; lastTokenWasOperator := false;
            lastTokenWasOpeningBracket := false |}.
Proof.
  intros He. revert st.
  induction He as [t Ht|ts e _ IH|op k ts1 ts2 e1 e2 Hop Hk _ IH1 _ IH2|k ts e _ _ IH];
    intros st Hd Hop'; [| | |by apply IH].
  - simpl. unfold validate_step. rewrite Ht, Hop'.
    by rewrite !bool_decide_eq_false_2 by (by intros ->).
  - simpl. rewrite validate_loop_app, IH by (simpl; (lia || done)).
    simpl. unfold validate_step. simpl.
    replace (openBrackets st + 1 - 1 <? 0) with false by lia. simpl.
    do 2 f_equal. lia.
  - rewrite !validate_loop_app, IH1 by done. simpl.
    assert (validate_step {| openBrackets := openBrackets st;
              lastTokenWasOperator := false; lastTokenWasOpeningBracket := false |} [op]
            = Some {| openBrackets := openBrackets st;
              lastTokenWasOperator := true; lastTokenWasOpeningBracket := false |}) as ->.
    { apply operator_token in Hop as (Hn & Hl & Hr). unfold validate_step.
      by rewrite Hn, !bool_decide_eq_false_2. }
    simpl. by rewrite IH2.
Qed.

(** A parenthesised expression is read from every state: the branch of
    ["("] has no check. *)
Lemma validate_loop_group ts e st :
  infix 1 ts e → 0 ≤ openBrackets st →
  validate_loop st (["("] ++ ts ++ [")"]) =
    Some {| openBrackets := openBrackets st; lastTokenWasOperator := false;
            lastTokenWasOpeningBracket := false |}.
Proof.
  intros He Hd. simpl.
  rewrite validate_loop_app, (validate_loop_infix 1 ts e) by (simpl; (lia || done)).
  simpl. unfold validate_step. simpl.
  replace (openBrackets st + 1 - 1 <? 0) with false by lia. simpl.
  do 2 f_equal. lia.
Qed.

(** The last branch: what is no parenthesis and no number. *)
Lemma validate_step_operator st t :
  classify t = Operator →
  validate_step st t =
    if lastTokenWasOperator st then None
    else Some {| openBrackets := openBrackets st; lastTokenWasOperator := true;
                 lastTokenWasOpeningBracket := false |}.
Proof.
  unfold classify, validate_step. repeat case_bool_decide; try done.
  by destruct (isNumber t).
Qed.

(** C23: the validator accepts every infix expression of the grammar:
    balanced parentheses, operands and the five operators in alternation. *)
Theorem validateExpression_infix ts e :
  infix 1 ts e → validateExpression ts = true.
Proof.
  intros He. unfold validateExpression.
  by rewrite (validate_loop_infix 1 ts e val_init He).
Qed.

Lemma validateExpression_infix_witness :
  validateExpression ["("; "1"; "+"; "2"; ")"] = true.
Proof.
  apply (validateExpression_infix _ (EBin "+" (ENum "1") (ENum "2"))).
  apply (infix_weaken 4); [|lia]. apply (infix_paren ["1"; "+"; "2"]).
  apply (infix_bin "+" 1 ["1"] ["2"]); [done..| |]; by apply infix_atom.
Defined.

End validator.
