(* ===== verification/Grammar.v ===== *)
(** * Grammar: the language of the infix grammar, and a validator for it

    [Syntax.infix] assigns trees to token lists by precedence levels.
    This file describes the token lists that have a tree without naming
    the tree, and decides them:

    - [flat]: operands and operators in alternation, with parentheses
      around such sequences, whatever the precedences;
    - [chain k]: atoms separated by operators of rank at least [k], the
      form in which an expression of level [k] is read from left to right;
    - every flat sequence has a tree: precedence and left association
      resolve any alternation ([flat_infix]);
    - [strict_step]: the loop body of [validateExpression] with two more
      guards: an opening parenthesis where an operand may stand, and an
      operator token that is one of the five characters.  The loop with
      these guards accepts exactly the token lists of the grammar. *)

From Stdlib Require Import ZArith Ascii List.
From stdpp Require Import base tactics option list.
From S2P Require Import Prelude Lexeme Arith Syntax Validator.
Local Open Scope str_scope.
Local Open Scope Z_scope.

(** ** Definitions *)

Inductive flat : list str → Prop :=
| flat_num t :
    isNumber t = true → flat [t]
| flat_paren ts :
    flat ts → flat (["("] ++ ts ++ [")"])
| flat_bin ts1 op ts2 :
    flat ts1 → is_operator op = true → flat ts2 → flat (ts1 ++ [[op]] ++ ts2).

Inductive chain (k : Z) : list str → Prop :=
| chain_atom ts e :
    infix 4 ts e → chain k ts
| chain_snoc ts op ts' e :
    chain k ts → is_operator op = true → k ≤ precedence op → infix 4 ts' e →
    chain k (ts ++ [[op]] ++ ts').

(** An operator token of the grammar: one of the five characters. *)
Definition operator_token_ok (t : str) : bool :=
  match t with
  | [op] => is_operator op
  | _ => false
  end.

(** The loop body of the validator with two more guards. *)
Definition strict_step (st : val_state) (token : str) : option val_state :=
  match classify token with
  | LeftParen => if lastTokenWasOperator st then validate_step st token else None
  | Operator => if operator_token_ok token then validate_step st token else None
  | _ => validate_step st token
  end.

Fixpoint strict_loop (st : val_state) (tokens : list str) : option val_state :=
  match tokens with
  | [] => Some st
  | token :: tokens => st' ← strict_step st token; strict_loop st' tokens
  end.

Definition strict_validate (tokens : list str) : bool :=
  match strict_loop val_init tokens with
  | Some st => validate_end st
  | None => false
  end.

(** What has been read inside the innermost open parenthesis when an
    operand is expected: nothing, or an expression and an operator. *)
Definition seg_open (s : list str) : Prop :=
  s = [] ∨ ∃ f op, flat f ∧ is_operator op = true ∧ s = f ++ [[op]].

(** What has been read up to the innermost open parenthesis, at depth [d]. *)
Inductive ctx : Z → list str → Prop :=
| ctx_nil : ctx 0 []
| ctx_push d p s : ctx d p → seg_open s → ctx (d + 1) (p ++ s ++ ["("]).

(** The state [st] after the tokens [p]. *)
Definition reads (st : val_state) (p : list str) : Prop :=
  (lastTokenWasOpeningBracket st = true → lastTokenWasOperator st = true) ∧
  ∃ c s, p = c ++ s ∧ ctx (openBrackets st) c ∧
         if lastTokenWasOperator st then seg_open s else flat s.


(** ** From chains to trees *)

Section chains.
Implicit Types (k j : Z) (ts : list str) (e : expr) (op : ascii).

Lemma chain_mono k j ts : j ≤ k → chain k ts → chain j ts.
Proof.
  intros Hj. induction 1; [by econstructor|].
  eapply chain_snoc; [done|done|lia|done].
Qed.

Lemma chain_app k ts1 op ts2 :
  chain k ts1 → is_operator op = true → k ≤ precedence op → chain k ts2 →
  chain k (ts1 ++ [[op]] ++ ts2).
Proof.
  intros H1 Hop Hk. induction 1 as [ts e He|ts op' ts' e _ IH Hop' Hk' He].
  - by econstructor.
  - replace (ts1 ++ [[op]] ++ ts ++ [[op']] ++ ts')
      with ((ts1 ++ [[op]] ++ ts) ++ [[op']] ++ ts') by by rewrite <-!app_assoc.
    by econstructor.
Qed.

(** An expression of level [k], read from left to right. *)
Lemma infix_chain k ts e : infix k ts e → chain k ts.
Proof.
  induction 1 as [t Ht|ts e He _|op k ts1 ts2 e1 e2 Hop Hk _ IH1 _ IH2|k ts e Hk _ IH].
  - econstructor. by constructor.
  - econstructor. by constructor.
  - apply chain_app; [done|done|lia|]. eapply chain_mono; [|done]. lia.
  - eapply chain_mono; [|done]. lia.
Qed.

(** Below level 4 an expression is one of the next level, or splits at
    its last operator of this level. *)
Lemma infix_inv k ts e :
  infix k ts e → k < 4 →
  infix (k + 1) ts e ∨
  ∃ op l r e1 e2, ts = l ++ [[op]] ++ r ∧ is_operator op = true ∧
    precedence op = k ∧ infix k l e1 ∧ infix (k + 1) r e2.
Proof.
  destruct 1 as [| |op k l r e1 e2|]; intros Hk; [lia..| |by left].
  right. by exists op, l, r, e1, e2.
Qed.

Lemma chain_infix_top ts : chain 4 ts → ∃ e, infix 4 ts e.
Proof.
  destruct 1 as [ts e He|ts op ts' e _ _ Hk _]; [eauto|].
  pose proof (precedence_range op). lia.
Qed.

(** One more operator at the right end of an expression. *)
Lemma infix_snoc k ts e op ts' e' :
  1 ≤ k < 4 →
  (∀ ts, chain (k + 1) ts → ∃ e, infix (k + 1) ts e) →
  infix k ts e → is_operator op = true → k ≤ precedence op → infix 4 ts' e' →
  ∃ e'', infix k (ts ++ [[op]] ++ ts') e''.
Proof.
  intros Hk Hnext He Hop Hle He'.
  destruct (decide (precedence op = k)) as [Heq|Hne].
  { eexists. apply infix_bin; [done..|]. apply (infix_weaken 4); [done|lia]. }
  assert (∀ r e2, infix (k + 1) r e2 → ∃ e3, infix (k + 1) (r ++ [[op]] ++ ts') e3)
    as Htight.
  { intros r e2 Hr. apply Hnext.
    eapply chain_snoc; [by eapply infix_chain|done|lia|done]. }
  destruct (infix_inv k ts e He) as [Hup|(opk & l & r & e1 & e2 & -> & Hopk & Hpk & Hl & Hr)];
    [lia| |].
  - destruct (Htight ts e Hup) as [e3 He3]. exists e3. apply infix_up; [lia|done].
  - destruct (Htight r e2 Hr) as [e3 He3]. exists (EBin opk e1 e3).
    rewrite <-!app_assoc. by apply infix_bin.
Qed.

Lemma chain_infix_step k :
  1 ≤ k < 4 →
  (∀ ts, chain (k + 1) ts → ∃ e, infix (k + 1) ts e) →
  ∀ ts, chain k ts → ∃ e, infix k ts e.
Proof.
  intros Hk Hnext ts. induction 1 as [ts e He|ts op ts' e' _ [e He] Hop Hle He'].
  - exists e. apply (infix_weaken 4); [done|lia].
  - eauto using infix_snoc.
Qed.

Lemma chain_infix k ts : 1 ≤ k ≤ 4 → chain k ts → ∃ e, infix k ts e.
Proof.
  intros Hk. revert ts.
  assert (k = 4 ∨ k = 3 ∨ k = 2 ∨ k = 1) as [->|[->|[->| ->]]] by lia;
    repeat (apply chain_infix_step; [lia|]); apply chain_infix_top.
Qed.

Lemma flat_chain ts : flat ts → chain 1 ts.
Proof.
  induction 1 as [t Ht|ts _ IH|ts1 op ts2 _ IH1 Hop _ IH2].
  - econstructor. by constructor.
  - destruct (chain_infix 1 ts) as [e He]; [lia|done|].
    econstructor. by constructor.
  - apply chain_app; [done..| |done].
    apply precedence_operator in Hop. lia.
Qed.

Lemma infix_flat k ts e : infix k ts e → flat ts.
Proof. induction 1; by try constructor. Qed.

End chains.

(** ** The validator with the two guards *)

Section strict.
Implicit Types (st : val_state) (ts p c s f : list str) (t : str) (d : Z).

Lemma seg_open_flat s f : seg_open s → flat f → flat (s ++ f).
Proof.
  intros [->|(f0 & op & Hf0 & Hop & ->)] Hf; [done|].
  rewrite <-app_assoc. by constructor.
Qed.

Lemma ctx_nonneg d c : ctx d c → 0 ≤ d.
Proof. induction 1; lia. Qed.

Lemma ctx_pop d c :
  ctx d c → 0 < d → ∃ c' s, c = c' ++ s ++ ["("] ∧ ctx (d - 1) c' ∧ seg_open s.
Proof.
  destruct 1 as [|d c' s Hc Hs]; [lia|]. intros _. exists c', s.
  by replace (d + 1 - 1) with d by lia.
Qed.

Lemma ctx_zero c : ctx 0 c → c = [].
Proof.
  inversion 1 as [|d c' s Hc Hs Hd]; [done|]. apply ctx_nonneg in Hc. lia.
Qed.

Lemma classify_Operator t :
  classify t = Operator → t ≠ "(" ∧ t ≠ ")" ∧ isNumber t = false.
Proof. unfold classify. repeat case_match; try done. by repeat case_bool_decide. Qed.

Lemma operator_token_ok_inv t :
  operator_token_ok t = true → ∃ op, t = [op] ∧ is_operator op = true.
Proof. destruct t as [|op [|??]]; try done. eauto. Qed.

(** The four branches of the loop body. *)
Lemma reads_lparen st p :
  reads st p → lastTokenWasOperator st = true →
  reads {| openBrackets := openBrackets st + 1; lastTokenWasOperator := true;
           lastTokenWasOpeningBracket := true |} (p ++ ["("]).
Proof.
  intros (_ & c & s & -> & Hc & Hs) Hop. rewrite Hop in Hs. split; [done|].
  exists (c ++ s ++ ["("]), []. simpl.
  split_and!; [by rewrite app_nil_r, <-app_assoc|by constructor|by left].
Qed.

Lemma reads_rparen st p :
  reads st p → lastTokenWasOperator st = false → 0 < openBrackets st →
  reads {| openBrackets := openBrackets st - 1; lastTokenWasOperator := false;
           lastTokenWasOpeningBracket := false |} (p ++ [")"]).
Proof.
  intros (_ & c & f & -> & Hc & Hf) Hop Hd. rewrite Hop in Hf. split; [done|].
  destruct (ctx_pop _ _ Hc Hd) as (c' & s & -> & Hc' & Hs).
  exists c', (s ++ ["("] ++ f ++ [")"]). simpl.
  split_and!; [by rewrite <-!app_assoc|done|].
  apply seg_open_flat; [done|]. by apply flat_paren.
Qed.

Lemma reads_number st p t :
  reads st p → isNumber t = true → lastTokenWasOperator st = true →
  reads {| openBrackets := openBrackets st; lastTokenWasOperator := false;
           lastTokenWasOpeningBracket := false |} (p ++ [t]).
Proof.
  intros (_ & c & s & -> & Hc & Hs) Ht Hop. rewrite Hop in Hs. split; [done|].
  exists c, (s ++ [t]). simpl.
  split_and!; [by rewrite <-app_assoc|done|].
  apply seg_open_flat; [done|]. by constructor.
Qed.

Lemma reads_operator st p op :
  reads st p → is_operator op = true → lastTokenWasOperator st = false →
  reads {| openBrackets := openBrackets st; lastTokenWasOperator := true;
           lastTokenWasOpeningBracket := false |} (p ++ [[op]]).
Proof.
  intros (_ & c & f & -> & Hc & Hf) Hop Hlast. rewrite Hlast in Hf. split; [done|].
  exists c, (f ++ [[op]]). simpl.
  split_and!; [by rewrite <-app_assoc|done|]. right. by exists f, op.
Qed.

Lemma strict_step_reads st p t st' :
  reads st p → strict_step st t = Some st' → reads st' (p ++ [t]).
Proof.
  intros Hr. pose proof Hr as [Hinv _]. unfold strict_step, classify, validate_step.
  case_bool_decide as Hl; [subst|case_bool_decide as Hc; [subst|]].
  - destruct (lastTokenWasOperator st) eqn:Hop; [|done]. intros [= <-].
    by apply reads_lparen.
  - destruct (openBrackets st - 1 <? 0) eqn:Hd; [done|].
    destruct (lastTokenWasOperator st) eqn:Hop; [done|]. intros [= <-].
    apply reads_rparen; [done..|lia].
  - destruct (isNumber t) eqn:Ht.
    + destruct (lastTokenWasOperator st) eqn:Hop.
      * intros [= <-]. by apply reads_number.
      * destruct (lastTokenWasOpeningBracket st); [by discriminate Hinv|done].
    + destruct (operator_token_ok t) eqn:Hok; [|done].
      apply operator_token_ok_inv in Hok as (op & -> & Hop).
      destruct (lastTokenWasOperator st) eqn:Hlast; [done|]. intros [= <-].
      by apply reads_operator.
Qed.

Lemma strict_loop_reads ts st p st' :
  reads st p → strict_loop st ts = Some st' → reads st' (p ++ ts).
Proof.
  revert st p; induction ts as [|t ts IH]; intros st p Hr; simpl.
  - intros [= <-]. by rewrite app_nil_r.
  - destruct (strict_step st t) as [st1|] eqn:Hstep; [|done]. simpl. intros Hrun.
    rewrite cons_middle, app_assoc. eauto using strict_step_reads.
Qed.

Lemma strict_validate_flat ts : strict_validate ts = true → flat ts.
Proof.
  unfold strict_validate, validate_end.
  destruct (strict_loop val_init ts) as [st|] eqn:Hrun; [|done].
  intros [Hd%negb_false_iff%Z.eqb_eq Hop]%negb_true_iff%orb_false_elim.
  destruct (strict_loop_reads ts val_init [] st) as (_ & c & f & Hts & Hc & Hf);
    [|done|].
  - split; [done|]. exists [], []. split_and!; [done|constructor|by left].
  - rewrite Hop in Hf. rewrite Hd in Hc. simpl in Hts.
    by rewrite Hts, (ctx_zero c Hc).
Qed.

(** The guards only restrict. *)
Lemma strict_step_validate st t st' :
  strict_step st t = Some st' → validate_step st t = Some st'.
Proof. unfold strict_step. by repeat case_match. Qed.

Lemma strict_loop_validate ts st st' :
  strict_loop st ts = Some st' → validate_loop st ts = Some st'.
Proof.
  revert st; induction ts as [|t ts IH]; intros st; [done|]. simpl.
  destruct (strict_step st t) as [st1|] eqn:Hstep; [|done].
  rewrite (strict_step_validate _ _ _ Hstep). apply IH.
Qed.

Lemma strict_loop_app st ts1 ts2 :
  strict_loop st (ts1 ++ ts2) = st' ← strict_loop st ts1; strict_loop st' ts2.
Proof.
  revert st; induction ts1 as [|t ts1 IH]; intros st; [done|]. simpl.
  destruct (strict_step st t); simpl; auto.
Qed.

Lemma strict_step_operator st op :
  is_operator op = true → strict_step st [op] = validate_step st [op].
Proof.
  intros Hop. pose proof (operator_token op Hop) as (Hn & Hl & Hr).
  unfold strict_step, classify. simpl. by rewrite !bool_decide_eq_false_2, Hn, Hop.
Qed.

Lemma strict_step_number st t :
  isNumber t = true → strict_step st t = validate_step st t.
Proof.
  intros Ht. unfold strict_step, classify.
  by rewrite !bool_decide_eq_false_2, Ht by by intros ->.
Qed.

(** Over an expression the guarded loop runs as the validator does. *)
Lemma strict_loop_infix k ts e st :
  infix k ts e → lastTokenWasOperator st = true →
  strict_loop st ts = validate_loop st ts.
Proof.
  intros He. revert st.
  induction He as [t Ht|ts e He IH|op k ts1 ts2 e1 e2 Hop Hk He1 IH1 _ IH2|k ts e _ _ IH];
    intros st Hlast; [| | |by apply IH].
  - simpl. by rewrite strict_step_number.
  - simpl. unfold strict_step. simpl. rewrite Hlast. simpl.
    rewrite strict_loop_app, validate_loop_app, IH by done.
    destruct (validate_loop _ ts); simpl; [|done]. by unfold strict_step.
  - rewrite !strict_loop_app, !validate_loop_app, IH1 by done.
    destruct (validate_loop st ts1) as [st1|] eqn:Hrun; [|done]. simpl.
    rewrite strict_step_operator by done.
    destruct (validate_step st1 [op]) as [st2|] eqn:Hstep; [|done]. simpl.
    apply IH2. revert Hstep. pose proof (operator_token op Hop) as (Hn & Hl & Hr).
    unfold validate_step. rewrite Hn, !bool_decide_eq_false_2 by done.
    case_match; [done|]. by intros [= <-].
Qed.



(** C24: the validator with the two guards accepts exactly the token
    lists of the grammar: those that denote an expression tree under the
    precedences 1, 2, 3 with left association. *)
Theorem strict_validate_infix ts :
  strict_validate ts = true ↔ ∃ e, infix 1 ts e.
Proof.
  split.
  - intros Hf%strict_validate_flat%flat_chain. apply chain_infix; [lia|done].
  - intros [e He]. unfold strict_validate.
    rewrite (strict_loop_infix 1 ts e val_init He) by done.
    by rewrite (validate_loop_infix 1 ts e val_init He).
Qed.

(** What the guarded validator accepts, [validateExpression] accepts. *)
Lemma strict_validate_accepted ts :
  strict_validate ts = true → validateExpression ts = true.
Proof.
  unfold strict_validate, validateExpression.
  destruct (strict_loop val_init ts) as [st|] eqn:Hrun; [|done].
  by rewrite (strict_loop_validate _ _ _ Hrun).
Qed.


End strict.

