(* ===== verification/Converter.v ===== *)
(** * Converter: [infixToPostfix] (main.cpp 115-153)

    The shunting-yard algorithm.  The operator stack is a list of
    characters with the top at the head, the output is the text
    [postfix]; [pop_to_paren] and [pop_higher] are the two inner [while]
    loops, [convert_step] the body of the [for] loop, [drain] the final
    loop, and [convert] the part of the function after validation.
    [operators.pop()] of line 135 on an empty stack is undefined
    behaviour: [Undefined].

    Main theorem: on a token list that is an infix expression of the
    grammar [Syntax.infix], [convert] returns the postfix text of the
    tree the grammar assigns to it.  The proof runs the loop from an
    arbitrary stack whose top ranks below the expression, and finds the
    operators the expression left on top of that stack.

    The same function with its [while] loops run by [Loops.loop] is
    [infixToPostfix_loop]: [top_passes] is the test of a loop,
    [pop_to_output] its body.  [infixToPostfix_terminates] shows that it
    returns, with the result of [infixToPostfix], when the fuel exceeds
    the length of the text. *)

From Stdlib Require Import ZArith Ascii List.
From stdpp Require Import base tactics option list.
From S2P Require Import Prelude Loops Lexeme Arith Tokenizer Syntax Validator.
Local Open Scope str_scope.
Local Open Scope Z_scope.

(** ** The program *)

(** Lines 130-134: pop to the output down to the nearest ["("]. *)
Fixpoint pop_to_paren (operators : list ascii) (postfix : str) : list ascii * str :=
  match operators with
  | top :: rest =>
      if bool_decide (top ≠ "("%char)
      then pop_to_paren rest (postfix ++ [top] ++ " ")
      else (operators, postfix)
  | [] => ([], postfix)
  end.

(** Lines 137-141: pop to the output while the top ranks at least [p]. *)
Fixpoint pop_higher (p : Z) (operators : list ascii) (postfix : str) : list ascii * str :=
  match operators with
  | top :: rest =>
      if p <=? precedence top
      then pop_higher p rest (postfix ++ [top] ++ " ")
      else (operators, postfix)
  | [] => ([], postfix)
  end.

(** Lines 125-143: the body of the loop over the tokens. *)
Definition convert_step (st : list ascii * str) (token : str) : result (list ascii * str) :=
  let '(operators, postfix) := st in
  if isNumber token then Ok (operators, postfix ++ token ++ " ")
  else if bool_decide (token = "(") then Ok ("("%char :: operators, postfix)
  else if bool_decide (token = ")") then
    match pop_to_paren operators postfix with
    | (_ :: operators, postfix) => Ok (operators, postfix)
    | ([], _) => Undefined
    end
  else
    let '(operators, postfix) :=
      pop_higher (precedence (first_char token)) operators postfix in
    Ok (first_char token :: operators, postfix).

(** Lines 146-150: pop what is left. *)
Fixpoint drain (operators : list ascii) (postfix : str) : str :=
  match operators with
  | top :: rest => drain rest (postfix ++ [top] ++ " ")
  | [] => postfix
  end.

(** Lines 121-152. *)
Definition convert (tokens : list str) : result str :=
  '(operators, postfix) ← foldlM convert_step ([], "") tokens;
  Ok (drain operators postfix).

Definition infixToPostfix (expression : str) : result str :=
  let tokens := tokenize expression in
  if negb (validateExpression tokens) then Throw "Invalid expression"
  else convert tokens.

(** ** The [while] loops as the source writes them *)

(** [!operators.empty() && test(operators.top())]: the test of the three
    loops, for the three tests on the top. *)
Definition top_passes (test : ascii → bool) (st : list ascii * str) : bool :=
  match st.1 with
  | top :: _ => test top
  | [] => false
  end.

(** The body of the three loops: write the top, write a space, pop. *)
Definition pop_to_output (st : list ascii * str) : result (list ascii * str) :=
  match st with
  | (top :: operators, postfix) => Ok (operators, postfix ++ [top] ++ " ")
  | ([], _) => Undefined
  end.

(** Lines 130-134. *)
Definition paren_loop (fuel : nat) (st : list ascii * str) :
    option (result (list ascii * str)) :=
  loop fuel (while (top_passes (λ top, bool_decide (top ≠ "("%char))) pop_to_output) st.

(** Lines 137-141. *)
Definition precedence_loop (fuel : nat) (token : str) (st : list ascii * str) :
    option (result (list ascii * str)) :=
  loop fuel
    (while (top_passes (λ top, precedence (first_char token) <=? precedence top))
       pop_to_output) st.

(** Lines 146-150. *)
Definition drain_loop (fuel : nat) (st : list ascii * str) :
    option (result (list ascii * str)) :=
  loop fuel (while (top_passes (λ _, true)) pop_to_output) st.

(** Lines 125-143, with the two inner loops as loops. *)
Definition convert_step_loop (fuel : nat) (st : list ascii * str) (token : str) :
    option (result (list ascii * str)) :=
  if isNumber token then Some (Ok (st.1, st.2 ++ token ++ " "))
  else if bool_decide (token = "(") then Some (Ok ("("%char :: st.1, st.2))
  else if bool_decide (token = ")") then
    r ← paren_loop fuel st;
    Some (st' ← r;
          match st' with
          | (_ :: operators, postfix) => Ok (operators, postfix)
          | ([], _) => Undefined
          end)
  else
    r ← precedence_loop fuel token st;
    Some (st' ← r; Ok (first_char token :: st'.1, st'.2)).

(** Lines 124-144: the [for] loop over the tokens. *)
Fixpoint convert_for (fuel : nat) (st : list ascii * str) (tokens : list str) :
    option (result (list ascii * str)) :=
  match tokens with
  | [] => Some (Ok st)
  | token :: tokens =>
      r ← convert_step_loop fuel st token;
      match r with
      | Ok st' => convert_for fuel st' tokens
      | Throw what => Some (Throw what)
      | Undefined => Some Undefined
      end
  end.

(** Lines 115-153. *)
Definition infixToPostfix_loop (fuel : nat) (expression : str) : option (result str) :=
  let tokens := tokenize expression in
  if negb (validateExpression tokens) then Some (Throw "Invalid expression")
  else
    r ← convert_for fuel ([], "") tokens;
    match r with
    | Ok st => r' ← drain_loop fuel st; Some (st' ← r'; Ok st'.2)
    | Throw what => Some (Throw what)
    | Undefined => Some Undefined
    end.

(** ** Specification predicates *)

(** The top of the stack, if any, ranks below [k]: an operator of rank
    [k] or more leaves the stack alone. *)
Definition top_below (k : Z) (operators : list ascii) : Prop :=
  match operators with
  | top :: _ => precedence top < k
  | [] => True
  end.

(** ** The converter on token lists *)

(** The text is only ever extended by whole tokens, each followed by a
    space.  [emit_step] is [convert_step] seen that way: the new stack and
    the tokens the step writes. *)
Definition chars (l : list ascii) : list str := map (λ c, [c]) l.

(** The longest prefix of the stack whose elements pass [keep], and the
    rest: what a [while] loop pops, and what it leaves. *)
Fixpoint span_stack (keep : ascii → bool) (operators : list ascii) : list ascii * list ascii :=
  match operators with
  | top :: rest =>
      if keep top then let '(popped, kept) := span_stack keep rest in (top :: popped, kept)
      else ([], operators)
  | [] => ([], [])
  end.

Definition emit_step (operators : list ascii) (token : str) : result (list ascii * list str) :=
  if isNumber token then Ok (operators, [token])
  else if bool_decide (token = "(") then Ok ("("%char :: operators, [])
  else if bool_decide (token = ")") then
    match span_stack (λ c, bool_decide (c ≠ "("%char)) operators with
    | (popped, _ :: rest) => Ok (rest, chars popped)
    | (_, []) => Undefined
    end
  else
    let '(popped, rest) :=
      span_stack (λ c, precedence (first_char token) <=? precedence c) operators in
    Ok (first_char token :: rest, chars popped).

(** The loop: the final stack and all the tokens written. *)
Fixpoint emit_run (operators : list ascii) (tokens : list str) : result (list ascii * list str) :=
  match tokens with
  | [] => Ok (operators, [])
  | token :: tokens =>
      '(operators, new) ← emit_step operators token;
      '(operators, more) ← emit_run operators tokens;
      Ok (operators, new ++ more)
  end.

(** ** Properties *)

Section converter.
Implicit Types (ops pending : list ascii) (out : str) (t : str) (ts : list str).

Lemma drain_app pending ops out :
  drain (pending ++ ops) out = drain ops (drain pending out).
Proof. revert out; induction pending as [|c p IH]; intros out; simpl; auto. Qed.

Lemma drain_out pending out : drain pending out = out ++ drain pending "".
Proof.
  revert out; induction pending as [|c p IH]; intros out; simpl.
  - by rewrite app_nil_r.
  - rewrite IH, (IH [_; _]). by rewrite !app_assoc.
Qed.

(** Operators that rank at least [p] on top of the stack all go to the
    output when an operator of rank [p] arrives. *)
Lemma pop_higher_pending p pending ops out :
  Forall (λ c, p ≤ precedence c) pending →
  pop_higher p (pending ++ ops) out = pop_higher p ops (drain pending out).
Proof.
  revert out; induction pending as [|c pd IH]; intros out Hp; [done|].
  apply Forall_cons in Hp as [Hc Hp]. simpl.
  replace (p <=? precedence c) with true by lia. auto.
Qed.

Lemma pop_higher_stop p ops out :
  top_below p ops → pop_higher p ops out = (ops, out).
Proof.
  destruct ops as [|c ops]; [done|]. simpl. intros Hc.
  by replace (p <=? precedence c) with false by lia.
Qed.

(** Operators of positive rank on top of a ["("] all go to the output when
    the [")"] arrives, and the ["("] stays on top. *)
Lemma pop_to_paren_pending pending ops out :
  Forall (λ c, 1 ≤ precedence c) pending →
  pop_to_paren (pending ++ "("%char :: ops) out
  = ("("%char :: ops, drain pending out).
Proof.
  revert out; induction pending as [|c pd IH]; intros out Hp; [done|].
  apply Forall_cons in Hp as [Hc Hp]. simpl.
  rewrite bool_decide_eq_true_2; [auto|]. by intros ->.
Qed.

Lemma drain_unwords pending out : drain pending out = out ++ unwords (chars pending).
Proof.
  revert out; induction pending as [|c p IH]; intros out; simpl.
  - by rewrite app_nil_r.
  - rewrite IH. unfold chars. simpl. by rewrite unwords_cons, <-!app_assoc.
Qed.

Lemma pop_to_paren_span ops out :
  pop_to_paren ops out =
    let '(popped, rest) := span_stack (λ c, bool_decide (c ≠ "("%char)) ops in
    (rest, out ++ unwords (chars popped)).
Proof.
  revert out; induction ops as [|c ops IH]; intros out; simpl.
  - by rewrite app_nil_r.
  - case_bool_decide; [|by rewrite app_nil_r]. rewrite IH.
    destruct (span_stack _ ops) as [popped rest]. unfold chars. simpl.
    by rewrite unwords_cons, <-!app_assoc.
Qed.

Lemma pop_higher_span p ops out :
  pop_higher p ops out =
    let '(popped, rest) := span_stack (λ c, p <=? precedence c) ops in
    (rest, out ++ unwords (chars popped)).
Proof.
  revert out; induction ops as [|c ops IH]; intros out; simpl.
  - by rewrite app_nil_r.
  - destruct (p <=? precedence c); [|by rewrite app_nil_r]. rewrite IH.
    destruct (span_stack _ ops) as [popped rest]. unfold chars. simpl.
    by rewrite unwords_cons, <-!app_assoc.
Qed.

(** What [span_stack] splits off passes the test, and the rest starts
    with an element that fails it. *)
Lemma span_stack_spec keep ops :
  let '(popped, rest) := span_stack keep ops in
  ops = popped ++ rest ∧ Forall (λ c, keep c = true) popped ∧
  match rest with c :: _ => keep c = false | [] => True end.
Proof.
  induction ops as [|c ops IH]; simpl; [done|].
  destruct (keep c) eqn:Hc; [|done].
  destruct (span_stack keep ops) as [popped rest]. destruct IH as (-> & ? & ?).
  split_and!; auto.
Qed.

(** One step of the program is one step on token lists. *)
Lemma convert_step_emit ops out t :
  convert_step (ops, out) t =
    '(ops', new) ← emit_step ops t; Ok (ops', out ++ unwords new).
Proof.
  unfold convert_step, emit_step. repeat case_match; simplify_eq/=;
    rewrite ?unwords_singleton, ?app_nil_r; try done.
  all: rewrite ?pop_to_paren_span, ?pop_higher_span in *;
    repeat case_match; by simplify_eq/=.
Qed.

Lemma foldlM_convert_emit ops out ts :
  foldlM convert_step (ops, out) ts =
    '(ops', new) ← emit_run ops ts; Ok (ops', out ++ unwords new).
Proof.
  revert ops out; induction ts as [|t ts IH]; intros ops out.
  - simpl. by rewrite app_nil_r.
  - rewrite foldlM_cons, convert_step_emit. simpl.
    destruct (emit_step ops t) as [[ops1 new]| |]; [|done..]. simpl.
    rewrite IH. destruct (emit_run ops1 ts) as [[ops2 more]| |]; [|done..].
    simpl. by rewrite unwords_app, app_assoc.
Qed.

(** The postfix text is a sequence of whole tokens, each followed by
    one space: the numbers of the input and single operator characters,
    those written during the loop and then the stack from top to bottom.
    [convert] fails exactly when the loop on token lists does. *)
Lemma convert_emit ts :
  convert ts = '(ops, new) ← emit_run [] ts; Ok (unwords (new ++ chars ops)).
Proof.
  unfold convert. rewrite foldlM_convert_emit.
  destruct (emit_run [] ts) as [[ops new]| |]; [|done..]. simpl.
  by rewrite drain_unwords, unwords_app.
Qed.

(** ** The loop body, branch by branch *)

Lemma convert_step_number ops out t :
  isNumber t = true → convert_step (ops, out) t = Ok (ops, out ++ t ++ " ").
Proof. intros Ht. unfold convert_step. by rewrite Ht. Qed.

Lemma convert_step_lparen ops out :
  convert_step (ops, out) "(" = Ok ("("%char :: ops, out).
Proof. done. Qed.

Lemma convert_step_rparen ops out :
  convert_step (ops, out) ")" =
    match pop_to_paren ops out with
    | (_ :: ops', out') => Ok (ops', out')
    | ([], _) => Undefined
    end.
Proof. done. Qed.

Lemma convert_step_operator ops out op :
  is_operator op = true →
  convert_step (ops, out) [op] =
    let '(ops', out') := pop_higher (precedence op) ops out in Ok (op :: ops', out').
Proof.
  intros (Hn & Hl & Hr)%operator_token. unfold convert_step.
  by rewrite Hn, !bool_decide_eq_false_2.
Qed.

(** ** Correctness on the grammar *)

(** The loop over an infix expression of level [k], started on a stack
    whose top ranks below [k]: it returns, it leaves the stack in place
    under some pending operators of rank at least [k], and the output
    followed by the pending operators is the postfix text of the tree. *)
Lemma convert_infix k ts e ops out :
  infix k ts e → top_below k ops →
  ∃ pending out',
    foldlM convert_step (ops, out) ts = Ok (pending ++ ops, out') ∧
    Forall (λ c, k ≤ precedence c) pending ∧
    drain pending out' = out ++ unwords (postfix e).
Proof.
  intros He. revert ops out.
  induction He as [t Ht|ts e He IH|op k ts1 ts2 e1 e2 Hop Hk _ IH1 _ IH2|k ts e Hk _ IH];
    intros ops out Hops.
  - exists [], (out ++ t ++ " "). split_and!; [|done|].
    + by rewrite foldlM_cons, convert_step_number.
    + simpl. by rewrite unwords_singleton.
  - destruct (IH ("("%char :: ops) out) as (pd & out' & Hrun & Hpd & Hout); [done|].
    exists [], (out ++ unwords (postfix e)). split_and!; [|done..].
    change (["("] ++ ts ++ [")"]) with ("(" :: ts ++ [")"]).
    rewrite foldlM_cons, convert_step_lparen, bind_Ok.
    rewrite foldlM_snoc, Hrun, bind_Ok.
    by rewrite convert_step_rparen, pop_to_paren_pending, Hout.
  - destruct (IH1 ops out) as (pd1 & o1 & Hrun1 & Hpd1 & Hout1); [done|].
    destruct (IH2 (op :: ops) (drain pd1 o1)) as (pd2 & o2 & Hrun2 & Hpd2 & Hout2).
    { simpl. lia. }
    exists (pd2 ++ [op]), o2. split_and!.
    + rewrite foldlM_app, Hrun1, bind_Ok.
      change ([[op]] ++ ts2) with ([op] :: ts2).
      rewrite foldlM_cons, convert_step_operator, Hk, pop_higher_pending, pop_higher_stop by done.
      by rewrite bind_Ok, Hrun2, <-app_assoc.
    + apply Forall_app. split; [|apply Forall_singleton; lia].
      eapply Forall_impl; [done|]. simpl. lia.
    + rewrite drain_app, Hout2, Hout1. simpl.
      by rewrite !unwords_app, unwords_singleton, <-!app_assoc.
  - destruct (IH ops out) as (pd & out' & Hrun & Hpd & Hout).
    { destruct ops; simpl in *; lia. }
    exists pd, out'. split_and!; [done| |done].
    eapply Forall_impl; [done|]. simpl. lia.
Qed.

(** A number or a parenthesised expression leaves every stack as it
    found it. *)
Lemma convert_atom ts e ops out :
  infix 4 ts e →
  foldlM convert_step (ops, out) ts = Ok (ops, out ++ unwords (postfix e)).
Proof.
  intros He. destruct (convert_infix 4 ts e ops out He) as (pd & out' & -> & Hpd & <-).
  { destruct ops as [|c ops]; [done|]. pose proof (precedence_range c). simpl. lia. }
  destruct pd as [|c pd]; [done|]. apply Forall_cons in Hpd as [Hc _].
  pose proof (precedence_range c). lia.
Qed.

(** C1: the shunting-yard loop implements the grammar.  If the tokens are
    an infix expression that denotes the tree [e] under the precedences
    1, 2, 3 and left association, [convert] returns, without undefined
    behaviour, the postfix text of [e]: its operands in order, each
    operator after its two operands, one space after every token. *)
Theorem convert_correct ts e :
  infix 1 ts e → convert ts = Ok (unwords (postfix e)).
Proof.
  intros He. unfold convert.
  destruct (convert_infix 1 ts e [] "" He) as (pd & out' & -> & _ & Hout); [done|].
  simpl. by rewrite app_nil_r, Hout.
Qed.

Lemma convert_correct_witness :
  convert ["3"; "+"; "4"; "*"; "2"] = Ok "3 4 2 * + ".
Proof.
  apply (convert_correct _
    (EBin "+" (ENum "3") (EBin "*" (ENum "4") (ENum "2")))).
  apply (infix_bin "+" 1 ["3"] ["4"; "*"; "2"]); [done..|by apply infix_atom|].
  apply (infix_bin "*" 2 ["4"] ["2"]); [done..| |]; by apply infix_atom.
Defined.

(** ** Termination of the [while] loops *)

(** The stack shrinks in every turn. *)
Lemma pop_variant test :
  variant (while (top_passes test) pop_to_output) (λ st, length st.1).
Proof.
  intros [[|top ops] out] st'; unfold while, top_passes; simpl; [done|].
  destruct (test top); [|done]. intros [= <-]. simpl. lia.
Qed.

(** A loop that pops while the top passes a test pops the longest prefix
    that passes it. *)
Lemma pop_loop_span test fuel ops out :
  (length ops < fuel)%nat →
  loop fuel (while (top_passes test) pop_to_output) (ops, out) =
    Some (Ok (let '(popped, rest) := span_stack test ops in
              (rest, out ++ unwords (chars popped)))).
Proof.
  revert fuel out; induction ops as [|top ops IH]; intros [|fuel] out Hlen;
    simpl in *; try lia.
  - by rewrite app_nil_r.
  - unfold while, top_passes. simpl. destruct (test top); [|by rewrite app_nil_r].
    rewrite IH by lia. destruct (span_stack test ops) as [popped rest].
    unfold chars. simpl. by rewrite unwords_cons, <-!app_assoc.
Qed.

Lemma span_stack_all ops : span_stack (λ _, true) ops = (ops, []).
Proof. induction ops as [|c ops IH]; [done|]. simpl. by rewrite IH. Qed.

(** The three [while] loops return within as many turns as the stack
    has entries, with the results of [pop_to_paren], [pop_higher] and
    [drain]. *)
Lemma converter_loops_terminate fuel token ops postfix :
  (length ops < fuel)%nat →
  paren_loop fuel (ops, postfix) = Some (Ok (pop_to_paren ops postfix)) ∧
  precedence_loop fuel token (ops, postfix)
    = Some (Ok (pop_higher (precedence (first_char token)) ops postfix)) ∧
  drain_loop fuel (ops, postfix) = Some (Ok ([], drain ops postfix)).
Proof.
  intros Hlen. unfold paren_loop, precedence_loop, drain_loop.
  rewrite !pop_loop_span, pop_to_paren_span, pop_higher_span by done.
  by rewrite span_stack_all, drain_unwords.
Qed.

(** No pop loop makes the stack higher, and a step adds at most one entry. *)
Lemma pop_to_paren_height ops out :
  (length (pop_to_paren ops out).1 ≤ length ops)%nat.
Proof.
  revert out; induction ops as [|c ops IH]; intros out; simpl; [done|].
  case_bool_decide; [|done]. etrans; [apply IH|lia].
Qed.

Lemma pop_higher_height p ops out :
  (length (pop_higher p ops out).1 ≤ length ops)%nat.
Proof.
  revert out; induction ops as [|c ops IH]; intros out; simpl; [done|].
  destruct (p <=? precedence c); [|done]. etrans; [apply IH|lia].
Qed.

Lemma convert_step_height st t st' :
  convert_step st t = Ok st' → (length st'.1 ≤ S (length st.1))%nat.
Proof.
  destruct st as [ops out]. unfold convert_step.
  pose proof (pop_to_paren_height ops out) as Hp.
  pose proof (pop_higher_height (precedence (first_char t)) ops out) as Hh.
  repeat case_match; intros; simplify_eq/=; lia.
Qed.

(** With fuel above the height of the stack a step with loops is a step. *)
Lemma convert_step_loop_step fuel st t :
  (length st.1 < fuel)%nat → convert_step_loop fuel st t = Some (convert_step st t).
Proof.
  destruct st as [ops out]. intros Hlen.
  destruct (converter_loops_terminate fuel t ops out Hlen) as (Hp & Hh & _).
  unfold convert_step_loop, convert_step. rewrite Hp, Hh. simpl.
  repeat case_match; by simplify_eq/=.
Qed.

Lemma convert_for_fold fuel st ts :
  (length st.1 + length ts < fuel)%nat →
  convert_for fuel st ts = Some (foldlM convert_step st ts).
Proof.
  revert st; induction ts as [|t ts IH]; intros st Hlen; [done|]. simpl in *.
  rewrite convert_step_loop_step by lia. simpl.
  destruct (convert_step st t) as [st'| |] eqn:Hstep; [|done..].
  apply convert_step_height in Hstep. apply IH. lia.
Qed.

(** The stack never holds more entries than tokens were read. *)
Lemma foldlM_convert_height ts st st' :
  foldlM convert_step st ts = Ok st' →
  (length st'.1 ≤ length st.1 + length ts)%nat.
Proof.
  revert st; induction ts as [|t ts IH]; intros st; simpl.
  - intros [= <-]. lia.
  - destruct (convert_step st t) as [st1| |] eqn:Hstep; [|done..]. simpl.
    intros Hrun%IH. apply convert_step_height in Hstep. lia.
Qed.

(** C20: [infixToPostfix] terminates.  Its [for] loop runs once per token,
    each turn of its [while] loops pops the operator stack, and the stack
    never holds more entries than tokens were read: with fuel above the
    length of the text every loop returns, and the function returns what
    the structural definition [infixToPostfix] computes. *)
Theorem infixToPostfix_terminates fuel expression :
  (length expression < fuel)%nat →
  infixToPostfix_loop fuel expression = Some (infixToPostfix expression).
Proof.
  intros Hlen. pose proof (tokenize_length expression) as Htok.
  unfold infixToPostfix_loop, infixToPostfix, convert.
  destruct (validateExpression _); simpl; [|done].
  rewrite convert_for_fold by (simpl; lia). simpl.
  destruct (foldlM convert_step _ _) as [[ops out]| |] eqn:Hrun; [|done..].
  apply foldlM_convert_height in Hrun. simpl in Hrun.
  by destruct (converter_loops_terminate fuel "" ops out) as (_ & _ & ->); [lia|].
Qed.

Lemma infixToPostfix_terminates_witness :
  infixToPostfix_loop 8 "(3+4)*2" = Some (infixToPostfix "(3+4)*2").
Proof. apply infixToPostfix_terminates. simpl. lia. Defined.

End converter.
