(* ===== verification/Evaluator.v ===== *)
(** * Evaluator: [evaluatePostfix] (main.cpp 156-173)

    The postfix text is read word by word: [read_word] is one
    [tokens >> token], and [words] lists the words the loop of line 161
    sees ([words_read_word] shows it is the iteration of [read_word]).
    [eval_step] is the loop body on the stack of values, the top at the
    head; reading or popping the empty stack is [Undefined].
    [evaluatePostfix] runs the loop and returns the top.

    Theorems: words written with a space after each are read back
    unchanged; the loop on the postfix form of a tree pushes the value of
    the tree, with the exceptions of [stod] and [applyOp] in the order
    [Syntax.eval] raises them; hence [evaluatePostfix] on the converter's
    output computes [eval].  On the postfix forms of two trees it returns
    the value of the second ([leftover_operands_ignored]).

    [same_words] is the equivalence of texts that have the same words;
    [evaluatePostfix] is a morphism for it, so whitespace may be added to
    a text or removed from it under [evaluatePostfix] by rewriting.

    [evaluatePostfix_loop] is the function with the loop of line 161 run
    by [Loops.loop] on the stream: [eval_turn] extracts a word and runs
    the body.  [evaluatePostfix_terminates] shows that it returns, with
    the result of [evaluatePostfix], when the fuel exceeds the length of
    the text. *)

From Stdlib Require Import ZArith Ascii List Floats.
From stdpp Require Import base tactics option list.
From S2P Require Import Prelude Loops Lexeme Arith Syntax.
Local Open Scope str_scope.

(** ** The program *)

(** Characters up to the next whitespace, and the rest. *)
Fixpoint read_nonspace (s : str) : str * str :=
  match s with
  | c :: s' =>
      if isspace c then ([], s)
      else let '(w, r) := read_nonspace s' in (c :: w, r)
  | [] => ([], [])
  end.

(** [tokens >> token]: skip whitespace and read a word; [None] when the
    stream is exhausted, which ends the loop of line 161. *)
Definition read_word (s : str) : option (str * str) :=
  match skipws s with
  | [] => None
  | s' => Some (read_nonspace s')
  end.

(** All the words of a text, [cur] being the word under construction. *)
Fixpoint words_from (cur : str) (s : str) : list str :=
  match s with
  | c :: s' =>
      if isspace c then
        if bool_decide (cur = []) then words_from [] s' else cur :: words_from [] s'
      else words_from (cur ++ [c]) s'
  | [] => if bool_decide (cur = []) then [] else [cur]
  end.

Definition words (s : str) : list str := words_from [] s.

(** Texts with the same words: the evaluator reads a text through
    [tokens >> token] only and cannot tell them apart. *)
Definition same_words (s1 s2 : str) : Prop := words s1 = words s2.

(** Lines 162-169: the body of the loop. *)
Definition eval_step `{Libm} (values : list float) (token : str) : result (list float) :=
  if isNumber token then
    v ← stod token; Ok (v :: values)
  else
    match values with
    | val2 :: val1 :: values =>
        result ← applyOp val1 val2 (first_char token); Ok (result :: values)
    | _ => Undefined
    end.

(** Line 172. *)
Definition top (values : list float) : result float :=
  match values with
  | v :: _ => Ok v
  | [] => Undefined
  end.

Definition evaluatePostfix `{Libm} (expression : str) : result float :=
  values ← foldlM eval_step [] (words expression); top values.

(** ** The loop as the source writes it *)

(** Lines 161-170: one turn of [while (tokens >> token)] on the stream
    and the value stack.  The loop is left when the extraction fails. *)
Definition eval_turn `{Libm} (st : str * list float) :
    option (result (str * list float)) :=
  match read_word st.1 with
  | None => None
  | Some (token, rest) => Some (values ← eval_step st.2 token; Ok (rest, values))
  end.

(** Lines 156-173, with fuel for the loop. *)
Definition evaluatePostfix_loop `{Libm} (fuel : nat) (expression : str) :
    option (result float) :=
  r ← loop fuel eval_turn (expression, []);
  Some (st ← r; top st.2).

(** ** Properties *)

Section words.
Implicit Types (s t cur w r : str) (ts : list str) (c : ascii).

Lemma spaceless_app t1 t2 : spaceless (t1 ++ t2) = spaceless t1 && spaceless t2.
Proof. apply forallb_app. Qed.

Lemma words_from_skipws s : words_from [] (skipws s) = words_from [] s.
Proof.
  induction s as [|c s IH]; [done|]. simpl.
  destruct (isspace c) eqn:Hc; [done|]. simpl. by rewrite Hc.
Qed.

(** What is left after skipping whitespace does not begin with it. *)
Lemma skipws_head s c s' : skipws s = c :: s' → isspace c = false.
Proof.
  induction s as [|c' s IH]; [done|]. simpl.
  destruct (isspace c') eqn:?; [auto|by intros [= -> ->]].
Qed.

(** From inside a word, the next word is what is left of it. *)
Lemma words_from_read cur s :
  cur ++ (read_nonspace s).1 ≠ [] →
  words_from cur s = (cur ++ (read_nonspace s).1) :: words_from [] (read_nonspace s).2.
Proof.
  revert cur; induction s as [|c s IH]; intros cur; simpl.
  - rewrite app_nil_r. intros. by rewrite bool_decide_eq_false_2.
  - destruct (isspace c) eqn:Hc; simpl.
    + rewrite app_nil_r, Hc. intros. by rewrite bool_decide_eq_false_2.
    + destruct (read_nonspace s) as [w r]; simpl in *. intros _.
      rewrite (IH (cur ++ [c])), <-app_assoc; [done|]. by destruct cur.
Qed.

(** [words] is the sequence of words that repeated extraction
    [tokens >> token] yields: empty when the extraction fails, and
    otherwise the extracted word followed by the words of the rest of the
    stream. *)
Lemma words_read_word s :
  words s = match read_word s with
            | Some (w, r) => w :: words r
            | None => []
            end.
Proof.
  unfold words, read_word. rewrite <-words_from_skipws.
  destruct (skipws s) as [|c s'] eqn:E; [done|].
  pose proof (skipws_head _ _ _ E) as Hc.
  destruct (read_nonspace (c :: s')) as [w r] eqn:Hr.
  rewrite words_from_read; rewrite Hr; [done|].
  simpl in Hr. rewrite Hc in Hr. by destruct (read_nonspace s'); simplify_eq.
Qed.

Lemma words_from_token cur t s :
  spaceless t = true → cur ++ t ≠ [] →
  words_from cur (t ++ " " ++ s) = (cur ++ t) :: words_from [] s.
Proof.
  revert cur; induction t as [|c t IH]; intros cur; simpl.
  - rewrite app_nil_r. intros _ ?. by rewrite bool_decide_eq_false_2.
  - intros [Hc%negb_true_iff Ht]%andb_prop _. rewrite Hc.
    rewrite IH, <-app_assoc; [done..|]. by destruct cur.
Qed.

(** Whitespace in front of a text is skipped. *)
Lemma words_from_blank t s :
  forallb isspace t = true → words_from [] (t ++ s) = words_from [] s.
Proof.
  induction t as [|c t IH]; [done|]. simpl. intros [Hc Ht]%andb_prop.
  rewrite Hc. auto.
Qed.

(** Words written with one space after each, in front of any text. *)
Lemma words_from_unwords ts s :
  Forall (λ t, spaceless t = true ∧ t ≠ []) ts →
  words_from [] (unwords ts ++ s) = ts ++ words_from [] s.
Proof.
  induction 1 as [|t ts [Ht Hne] _ IH]; [done|].
  rewrite unwords_cons, <-!app_assoc, words_from_token by done. by rewrite IH.
Qed.

Lemma unwords_inj ts1 ts2 :
  Forall (λ t, spaceless t = true ∧ t ≠ []) ts1 →
  Forall (λ t, spaceless t = true ∧ t ≠ []) ts2 →
  unwords ts1 = unwords ts2 → ts1 = ts2.
Proof.
  intros H1 H2 E. apply (f_equal (λ s, words_from [] (s ++ []))) in E.
  rewrite !words_from_unwords in E by done. by simplify_list_eq.
Qed.

(** C30: words that contain no whitespace and are not empty, written with
    one space after each, are read back as the same words. *)
Theorem words_unwords ts :
  Forall (λ t, spaceless t = true ∧ t ≠ []) ts → words (unwords ts) = ts.
Proof.
  intros Hts. unfold words.
  rewrite <-(app_nil_r (unwords ts)), words_from_unwords by done.
  apply app_nil_r.
Qed.

Lemma words_unwords_witness : words (unwords ["3"; "-5"; "+"]) = ["3"; "-5"; "+"].
Proof. apply words_unwords. repeat constructor; done. Defined.

(** An extraction consumes at least one character. *)
Lemma skipws_length s : length (skipws s) ≤ length s.
Proof.
  induction s as [|c s IH]; [done|]. simpl. destruct (isspace c); simpl; lia.
Qed.

Lemma read_nonspace_length s : length (read_nonspace s).2 ≤ length s.
Proof.
  induction s as [|c s IH]; [done|]. simpl. destruct (isspace c); [done|].
  destruct (read_nonspace s). simpl in *. lia.
Qed.

Lemma read_word_shorter s w r : read_word s = Some (w, r) → length r < length s.
Proof.
  unfold read_word. pose proof (skipws_length s) as Hs.
  destruct (skipws s) as [|c s'] eqn:E; [done|]. intros [= Hr].
  pose proof (skipws_head _ _ _ E) as Hc.
  pose proof (read_nonspace_length s') as Hs'. simpl in Hr, Hs. rewrite Hc in Hr.
  destruct (read_nonspace s'); simplify_eq/=. lia.
Qed.

End words.

Section evaluator.
Context `{Libm}.
Implicit Types (e : expr) (values : list float) (t : str).

(** The loop body, branch by branch. *)
Lemma eval_step_number values t :
  isNumber t = true → eval_step values t = v ← stod t; Ok (v :: values).
Proof. intros Ht. unfold eval_step. by rewrite Ht. Qed.

Lemma eval_step_apply values a b t :
  isNumber t = false →
  eval_step (b :: a :: values) t =
    r ← applyOp a b (first_char t); Ok (r :: values).
Proof. intros Hn. unfold eval_step. by rewrite Hn. Qed.

Lemma eval_step_operator values a b op :
  is_operator op = true →
  eval_step (b :: a :: values) [op] = r ← applyOp a b op; Ok (r :: values).
Proof. intros [Hn _]%operator_token. by apply eval_step_apply. Qed.

Lemma eval_step_underflow values t :
  isNumber t = false → (length values < 2)%nat → eval_step values t = Undefined.
Proof.
  intros Ht Hl. unfold eval_step. rewrite Ht.
  destruct values as [|? [|??]]; simpl in *; (done || lia).
Qed.

(** The loop over the postfix form of a tree pushes its value. *)
Lemma eval_postfix e values :
  wf_expr e →
  foldlM eval_step values (postfix e) = v ← eval e; Ok (v :: values).
Proof.
  revert values; induction e as [t|op l IHl r IHr]; intros values Hwf.
  - destruct Hwf as [[Ht _]%Forall_cons _]. simpl.
    rewrite eval_step_number by done. by destruct (stod t).
  - apply wf_expr_bin in Hwf as (Hl & Hr & Hop). simpl.
    rewrite foldlM_app, IHl by done.
    destruct (eval l) as [a| |]; [|done..]. rewrite !bind_Ok, foldlM_app, IHr by done.
    destruct (eval r) as [b| |]; [|done..]. rewrite !bind_Ok, foldlM_cons.
    rewrite eval_step_operator by done. by destruct (applyOp a b op).
Qed.

(** The loop over the postfix form of a tree and more words. *)
Lemma eval_postfix_app e toks values :
  wf_expr e →
  foldlM eval_step values (postfix e ++ toks)
  = v ← eval e; foldlM eval_step (v :: values) toks.
Proof. intros Hwf. rewrite foldlM_app, eval_postfix by done. by destruct (eval e). Qed.

(** On a text of words the evaluator runs its loop over the words. *)
Lemma evaluatePostfix_unwords ts :
  Forall (λ t, spaceless t = true ∧ t ≠ []) ts →
  evaluatePostfix (unwords ts) = values ← foldlM eval_step [] ts; top values.
Proof.
  intros Hts. unfold evaluatePostfix, words.
  rewrite <-(app_nil_r (unwords ts)), words_from_unwords by done.
  by rewrite app_nil_r.
Qed.

(** The evaluator respects the equivalence of texts. *)
#[export] Instance same_words_equivalence : Equivalence same_words.
Proof. unfold same_words. split; [by intros ?|by intros ??|intros ???; congruence]. Qed.

#[export] Instance evaluatePostfix_proper : Proper (same_words ==> (=)) evaluatePostfix.
Proof. intros s1 s2 Hs. unfold evaluatePostfix. by rewrite Hs. Qed.

Lemma same_words_blank t s : forallb isspace t = true → same_words (t ++ s) s.
Proof. apply words_from_blank. Qed.

(** The postfix tokens of a tree are words. *)
Lemma postfix_words e :
  wf_expr e → Forall (λ t, spaceless t = true) (leaves e) →
  Forall (λ t, spaceless t = true ∧ t ≠ []) (postfix e).
Proof.
  induction e as [t|op l IHl r IHr]; simpl; intros Hwf Hsp.
  - destruct Hwf as [[Ht%isNumber_nonempty _]%Forall_cons _].
    rewrite Forall_singleton in Hsp. by apply Forall_singleton.
  - apply wf_expr_bin in Hwf as (Hl & Hr & Hop).
    apply Forall_app in Hsp as [??]. rewrite !Forall_app, Forall_singleton.
    split_and!; auto.
    apply is_operator_inv in Hop as (_ & Hs & _). simpl. by rewrite Hs.
Qed.

(** The evaluator on the postfix text of a tree, as a loop result. *)
Lemma evaluatePostfix_tree e :
  wf_expr e → Forall (λ t, spaceless t = true) (leaves e) →
  evaluatePostfix (unwords (postfix e)) = values ← (v ← eval e; Ok [v]); top values.
Proof.
  intros Hwf Hsp.
  by rewrite evaluatePostfix_unwords, eval_postfix by auto using postfix_words.
Qed.

(** C2: evaluating the postfix text of a well-formed tree whose number
    lexemes contain no whitespace gives the value of the tree: the same
    number, or the same exception, raised by the operand or operator that
    raises it first in left-to-right order. *)
Theorem evaluatePostfix_correct e :
  wf_expr e → Forall (λ t, spaceless t = true) (leaves e) →
  evaluatePostfix (unwords (postfix e)) = eval e.
Proof.
  intros Hwf Hsp. rewrite evaluatePostfix_tree by done. by destruct (eval e).
Qed.

(** C38: the evaluator returns the top of the stack whatever its depth.
    On the postfix forms of two trees written one after the other it
    returns the value of the second; the value of the first is left on
    the stack, and the text is not reported as malformed. *)
Theorem leftover_operands_ignored e1 e2 :
  wf_expr e1 → wf_expr e2 →
  Forall (λ t, spaceless t = true) (leaves e1) →
  Forall (λ t, spaceless t = true) (leaves e2) →
  evaluatePostfix (unwords (postfix e1 ++ postfix e2)) = _ ← eval e1; eval e2.
Proof.
  intros Hw1 Hw2 Hs1 Hs2.
  rewrite evaluatePostfix_unwords by (apply Forall_app; auto using postfix_words).
  rewrite eval_postfix_app by done. destruct (eval e1) as [v1| |]; [|done..].
  rewrite bind_Ok, <-(app_nil_r (postfix e2)), eval_postfix_app by done.
  by destruct (eval e2).
Qed.

(** ** Termination of the loop *)

(** The stream shrinks in every turn. *)
Lemma eval_turn_variant : variant eval_turn (λ st, length st.1).
Proof.
  intros [s values] st'. unfold eval_turn. simpl.
  destruct (read_word s) as [[token rest]|] eqn:Hread; [|done].
  apply read_word_shorter in Hread.
  destruct (eval_step values token); simpl; [|done..]. by intros [= <-].
Qed.

(** The loop over the stream computes the fold over its words. *)
Lemma eval_loop_words fuel s values :
  length s < fuel →
  ∃ r, loop fuel eval_turn (s, values) = Some r ∧
       snd <$> r = foldlM eval_step values (words s).
Proof.
  revert s values; induction fuel as [|fuel IH]; intros s values Hlen; [lia|].
  rewrite loop_unfold, words_read_word. unfold eval_turn. simpl.
  destruct (read_word s) as [[token rest]|] eqn:Hread; [|by eexists].
  apply read_word_shorter in Hread. rewrite foldlM_cons.
  destruct (eval_step values token) as [values'| |]; simpl; [|by eexists..].
  apply IH. lia.
Qed.

(** C21: the loop of the evaluator terminates: each extraction consumes at
    least one character of the stream, so fuel above the length of the
    text is enough, and the function then returns what [evaluatePostfix]
    computes over the words of the text. *)
Theorem evaluatePostfix_terminates fuel expression :
  length expression < fuel →
  evaluatePostfix_loop fuel expression = Some (evaluatePostfix expression).
Proof.
  intros Hlen. unfold evaluatePostfix_loop, evaluatePostfix.
  destruct (eval_loop_words fuel expression [] Hlen) as (r & -> & Hr).
  rewrite <-Hr. by destruct r as [[??]| |].
Qed.

End evaluator.

Lemma evaluatePostfix_terminates_witness :
  @evaluatePostfix_loop exact_libm 11 "8 3 - 2 - "
  = Some (@evaluatePostfix exact_libm "8 3 - 2 - ").
Proof. apply (@evaluatePostfix_terminates exact_libm). simpl. lia. Defined.

Lemma evaluatePostfix_correct_witness :
  @evaluatePostfix exact_libm "8 3 - 2 - " = Ok 3%float.
Proof.
  apply (@evaluatePostfix_correct exact_libm
    (EBin "-" (EBin "-" (ENum "8") (ENum "3")) (ENum "2"))).
  - split; repeat constructor.
  - repeat constructor.
Defined.

Lemma leftover_operands_ignored_witness :
  @evaluatePostfix exact_libm "3 4 " = Ok 4%float.
Proof.
  apply (@leftover_operands_ignored exact_libm (ENum "3") (ENum "4"));
    by repeat constructor.
Defined.
