(* ===== verification/Safety.v ===== *)
(** * Safety: where the program has undefined behaviour, and where not

    [infixToPostfix] pops its operator stack and [evaluatePostfix] reads
    and pops its value stack without testing for emptiness.  This file
    shows on which inputs these calls are safe: all those the validator
    accepts, but for the ones with an operator token that [applyOp] does
    not know inside parentheses.  The only exceptions the program raises
    are the three messages "Invalid expression", "Division by zero" and
    "stod".

    - [depth_after]: the stack discipline of the evaluator, abstracted to
      the depth of the value stack: a number pushes, an operator needs two
      values and leaves one;
    - [known_operator], [unknown_inside]: the operator tokens whose first
      character is none of the five, and the decidable test that one of
      them stands at a parenthesis depth above 0;
    - [blank], [written], [visible]: an operator token may be a
      whitespace character, which the converter writes and the
      extraction of the evaluator skips, or begin with a digit, which the
      evaluator reads as a number; the depth is counted on the words that
      are read;
    - [safe_inv]: the invariant that ties the validator's state to the
      converter's stack and to the depth of the values the text written
      so far leaves: the stack holds as many ["("] as the validator
      counts, and each pending operator has its operands.

    [convert_operands] is independent of the validator: whenever the
    converter returns, the numbers ([numbers]) of its text are those of
    its tokens, in order.

    The sections follow the proof: the depth of the value stack, the
    counts of the operator stack, the tokens, the invariant branch by
    branch, the two loops on validated tokens ([emit_run_validated],
    [evaluate_safe]), and the undefined behaviour: an operator token of
    rank 0 inside parentheses empties the operator stack, and a stack
    with fewer opening parentheses than the validator counts cannot close
    them all ([convert_below]). *)

From Stdlib Require Import ZArith Ascii List Floats.
From stdpp Require Import base tactics option list.
From S2P Require Import Prelude Lexeme Arith Tokenizer Syntax Validator Converter Evaluator.
Local Open Scope str_scope.

(** ** Definitions *)

(** The depth of the value stack after the words [toks], from depth [n];
    [None] when an operator finds fewer than two values. *)
Fixpoint depth_after (n : nat) (toks : list str) : option nat :=
  match toks with
  | [] => Some n
  | t :: toks =>
      if isNumber t then depth_after (S n) toks
      else match n with
           | S (S n') => depth_after (S n') toks
           | _ => None
           end
  end.

(** A token that the validator takes for an operator begins with one of
    the five operator characters. *)
Definition known_operator (t : str) : bool :=
  match classify t with
  | Operator => is_operator (first_char t)
  | _ => true
  end.

(** Opening parentheses on the operator stack, and the other entries. *)
Definition nparens (ops : list ascii) : nat :=
  length (filter (λ c, c = "("%char) ops).
Definition npending (ops : list ascii) : nat :=
  length (filter (λ c, c ≠ "("%char) ops).

(** The messages of the exceptions the program throws. *)
Definition messages : list str := ["Invalid expression"; "Division by zero"; "stod"].

(** Validator state [st], operator stack [ops], and depth [v] of the
    value stack that the text written so far leaves: the stack holds as
    many ["("] as the validator counts, and every pending operator has
    its operands. *)
Definition safe_inv (st : val_state) (ops : list ascii) (v : nat) : Prop :=
  val_inv st ∧
  Z.of_nat (nparens ops) = openBrackets st ∧
  (npending ops + (if lastTokenWasOperator st then 0 else 1) ≤ v)%nat.

(** The words the evaluator reads: no whitespace inside, not empty. *)
Definition word (t : str) : Prop := spaceless t = true ∧ t ≠ [].

(** What the converter writes in front of a space is a word, or
    whitespace when the operator token was a whitespace character; the
    extraction of the evaluator skips the latter. *)
Definition blank (t : str) : bool := forallb isspace t.
Definition written (t : str) : Prop := word t ∨ blank t = true.
Definition visible (toks : list str) : list str := filter (λ t, blank t = false) toks.

(** The operands among tokens or words. *)
Definition numbers (toks : list str) : list str := filter (λ t, isNumber t = true) toks.

(** The tokens the converter is given: a number is a word, and an
    operator token that [applyOp] does not know does not begin with an
    opening parenthesis.  The tokens of [tokenize] are such. *)
Definition wordy (t : str) : Prop :=
  (isNumber t = true → word t) ∧ (known_operator t = false → first_char t ≠ "("%char).

(** Some operator token that [applyOp] does not know stands inside
    parentheses, [d] being the depth at which [ts] starts. *)
Fixpoint unknown_inside (d : Z) (ts : list str) : bool :=
  match ts with
  | [] => false
  | t :: ts =>
      (0 <? d)%Z && negb (known_operator t) || unknown_inside (d + paren_depth [t]) ts
  end.

(** ** The stack discipline of the evaluator *)

Section depth.
Context `{Libm}.
Implicit Types (n m v : nat) (toks : list str) (ops : list ascii).

Lemma depth_after_app n toks1 toks2 :
  depth_after n (toks1 ++ toks2) = depth_after n toks1 ≫= λ m, depth_after m toks2.
Proof.
  revert n; induction toks1 as [|t toks1 IH]; intros n; [done|]. simpl.
  destruct (isNumber t); [done|]. by destruct n as [|[|n]].
Qed.

Lemma visible_app toks1 toks2 : visible (toks1 ++ toks2) = visible toks1 ++ visible toks2.
Proof. apply filter_app. Qed.

Lemma visible_cons t toks :
  visible (t :: toks) = if blank t then visible toks else t :: visible toks.
Proof. unfold visible. rewrite filter_cons. by destruct (blank t). Qed.

Lemma word_not_blank t : word t → blank t = false.
Proof.
  intros [Hs Hne]. destruct t as [|c t]; [done|]. simpl in *.
  apply andb_prop in Hs as [Hc%negb_true_iff _]. by rewrite Hc.
Qed.

Lemma visible_words toks : Forall word toks → visible toks = toks.
Proof.
  induction 1 as [|t toks Ht%word_not_blank _ IH]; [done|].
  by rewrite visible_cons, Ht, IH.
Qed.

(** A single character is written as a word or as whitespace. *)
Lemma char_written c : written [c].
Proof. unfold written, word, blank. simpl. destruct (isspace c); [by right|by left]. Qed.

Lemma chars_written ops : Forall written (chars ops).
Proof. apply Forall_fmap, Forall_true, char_written. Qed.

(** What the loops pop finds its operands when the stack is deep enough:
    each character takes two values and leaves one, or is a digit and
    adds one, or is whitespace and is not read at all. *)
Lemma depth_after_popped popped n :
  (length popped < n)%nat →
  ∃ m, depth_after n (visible (chars popped)) = Some m ∧ (n - length popped ≤ m)%nat.
Proof.
  revert n; induction popped as [|c popped IH]; intros n Hn; cbn [length] in *.
  { exists n. split; [done|lia]. }
  change (chars (c :: popped)) with ([c] :: chars popped). rewrite visible_cons.
  destruct (blank [c]); [|cbn [depth_after]; destruct (isNumber [c])].
  - destruct (IH n) as (m & ? & ?); [lia|]. exists m. split; [done|lia].
  - destruct (IH (S n)) as (m & ? & ?); [lia|]. exists m. split; [done|lia].
  - destruct n as [|[|n]]; [lia..|].
    destruct (IH (S n)) as (m & ? & ?); [lia|]. exists m. split; [done|lia].
Qed.

(** The loop of the evaluator follows [depth_after]: where the depth is
    defined the loop does not read an empty stack, and it ends with a
    stack of that depth or with one of the program's exceptions. *)
Lemma eval_depth toks n m vs :
  depth_after n toks = Some m → length vs = n →
  match foldlM eval_step vs toks with
  | Ok vs' => length vs' = m
  | Throw w => w ∈ messages
  | Undefined => False
  end.
Proof.
  revert n vs; induction toks as [|t toks IH]; intros n vs.
  - simpl. by intros [= <-].
  - rewrite foldlM_cons. cbn [depth_after]. destruct (isNumber t) eqn:Ht.
    + rewrite eval_step_number by done. intros Hd Hvs.
      destruct (stod t) as [x|w|] eqn:Hx; cbn [mbind result_bind].
      * apply (IH (S n)); simpl; auto.
      * apply stod_Throw in Hx as ->. unfold messages. repeat constructor.
      * by apply stod_not_Undefined in Hx.
    + destruct n as [|[|n]]; [done..|]. destruct vs as [|b [|a vs]]; [done..|].
      intros Hd [= Hvs]. rewrite eval_step_apply by done.
      destruct (applyOp a b _) as [x|w|] eqn:Hx; cbn [mbind result_bind].
      * apply (IH (S n)); simpl; auto.
      * apply applyOp_message in Hx as ->. unfold messages. repeat constructor.
      * by apply applyOp_not_Undefined in Hx.
Qed.

End depth.

(** ** Counting the operator stack *)

Section counting.
Implicit Types (ops popped : list ascii) (c : ascii).

Lemma nparens_app ops1 ops2 : nparens (ops1 ++ ops2) = (nparens ops1 + nparens ops2)%nat.
Proof. unfold nparens. by rewrite filter_app, length_app. Qed.

Lemma npending_app ops1 ops2 : npending (ops1 ++ ops2) = (npending ops1 + npending ops2)%nat.
Proof. unfold npending. by rewrite filter_app, length_app. Qed.

Lemma count_no_paren popped :
  Forall (λ c, c ≠ "("%char) popped →
  nparens popped = 0%nat ∧ npending popped = length popped.
Proof.
  unfold nparens, npending. induction 1 as [|c l Hc _ [IH1 IH2]]; [done|].
  rewrite !filter_cons, decide_False, decide_True by done. simpl. auto.
Qed.

Lemma nparens_zero ops : nparens ops = 0%nat → Forall (λ c, c ≠ "("%char) ops.
Proof.
  unfold nparens. induction ops as [|c ops IH]; [constructor|].
  rewrite filter_cons. case_decide; [done|]. by constructor; auto.
Qed.

Lemma count_paren_cons ops :
  nparens ("("%char :: ops) = S (nparens ops) ∧ npending ("("%char :: ops) = npending ops.
Proof.
  unfold nparens, npending. rewrite !filter_cons, decide_True, decide_False; auto.
Qed.

Lemma count_pending_cons c ops :
  c ≠ "("%char →
  nparens (c :: ops) = nparens ops ∧ npending (c :: ops) = S (npending ops).
Proof.
  intros Hc. unfold nparens, npending.
  rewrite !filter_cons, decide_False, decide_True; auto.
Qed.

End counting.

(** ** The tokens *)

Section tokens.
Implicit Types (st : val_state) (t : str) (ts : list str) (d : Z).

Lemma unknown_inside_cons d t ts :
  unknown_inside d (t :: ts) = false →
  (known_operator t = true ∨ (d ≤ 0)%Z) ∧ unknown_inside (d + paren_depth [t]) ts = false.
Proof.
  cbn [unknown_inside]. intros [Ht ?]%orb_false_elim. split; [|done].
  apply andb_false_iff in Ht as [?%Z.ltb_ge|?%negb_false_iff]; auto.
Qed.

Lemma unknown_inside_known d ts :
  Forall (λ t, known_operator t = true) ts → unknown_inside d ts = false.
Proof.
  intros Hk. revert d; induction Hk as [|t ts Ht _ IH]; intros d; [done|].
  cbn [unknown_inside]. by rewrite Ht, IH, andb_false_r.
Qed.

(** An operator token of rank 0 is met at depth 0 only, and no operator
    token begins with an opening parenthesis. *)
Lemma operator_rank st t :
  wordy t → isNumber t = false → t ≠ "(" → t ≠ ")" →
  known_operator t = true ∨ (openBrackets st ≤ 0)%Z →
  first_char t ≠ "("%char ∧
  ((0 < precedence (first_char t))%Z ∨ (openBrackets st ≤ 0)%Z).
Proof.
  intros [_ Hc] Hn Hl Hr Hk. destruct (known_operator t) eqn:Hkt.
  - unfold known_operator, classify in Hkt.
    rewrite !bool_decide_eq_false_2, Hn in Hkt by done.
    split; [by apply is_operator_inv in Hkt as (_ & _ & _ & ? & _)|].
    left. by apply precedence_operator.
  - split; [auto|]. destruct Hk; [done|by right].
Qed.

(** A token list of known operators whose numbers are words. *)
Lemma known_wordy ts :
  Forall (λ t, known_operator t = true) ts →
  Forall (λ t, isNumber t = true → word t) ts → Forall wordy ts.
Proof.
  rewrite !Forall_forall. intros Hk Hw t Ht. split; [auto|].
  rewrite (Hk t Ht). done.
Qed.

(** With known operators, every token is written as a word. *)
Lemma known_operator_word t :
  known_operator t = true → (isNumber t = true → word t) →
  if isNumber t then word t else word [first_char t].
Proof.
  intros Hk Hw. destruct (isNumber t) eqn:Hn; [auto|].
  unfold known_operator, classify in Hk. rewrite Hn in Hk.
  repeat case_bool_decide; subst; [done..|].
  apply is_operator_inv in Hk as (_ & Hs & _). split; [|done]. simpl. by rewrite Hs.
Qed.

(** The tokens of the tokenizer that are not ["("] do not begin with it. *)
Lemma first_char_not_paren t :
  token_shape t = true → t ≠ "(" → first_char t ≠ "("%char.
Proof.
  destruct t as [|c [|c' t']]; simpl; [done|by intros _ ? ->|].
  unfold token_shape. simpl. intros [Hc _]%andb_prop _ ->. done.
Qed.

(** What the validator takes for an operator and [applyOp] does not know
    is no number and no parenthesis, and has rank 0. *)
Lemma known_operator_false t :
  known_operator t = false →
  isNumber t = false ∧ t ≠ "(" ∧ t ≠ ")" ∧ precedence (first_char t) = 0%Z.
Proof.
  unfold known_operator, classify. repeat case_bool_decide; try done.
  destruct (isNumber t); [done|]. intros Hop. split_and!; try done.
  pose proof (precedence_range (first_char t)).
  pose proof (proj1 (precedence_operator (first_char t))) as Hpos.
  destruct (decide (0 < precedence (first_char t))%Z) as [?%Hpos|]; [congruence|lia].
Qed.

Lemma known_operator_false_inv t :
  known_operator t = false → classify t = Operator ∧ is_operator (first_char t) = false.
Proof. unfold known_operator. by destruct (classify t). Qed.

Lemma token_shape_wordy t : token_shape t = true → wordy t.
Proof.
  intros Ht. split.
  - intros Hn. split; eauto using number_token_spaceless, token_shape_nonempty.
  - intros (_ & Hl & _)%known_operator_false. by apply first_char_not_paren.
Qed.

Lemma tokenize_wordy s : Forall wordy (tokenize s).
Proof.
  apply Forall_forall. intros t Ht%tokenize_elem_shape. by apply token_shape_wordy.
Qed.

End tokens.

(** ** The invariant, branch by branch *)

Section invariant.
Implicit Types (st : val_state) (ops popped rest : list ascii) (v : nat) (c : ascii).

Lemma safe_inv_init : safe_inv val_init [] 0.
Proof. split_and!; [apply val_inv_init|done..]. Qed.

Lemma safe_lparen st ops v :
  safe_inv st ops v →
  safe_inv {| openBrackets := openBrackets st + 1; lastTokenWasOperator := true;
              lastTokenWasOpeningBracket := true |} ("("%char :: ops) v.
Proof.
  intros ([Hd Hf] & Hpar & Hv). destruct (count_paren_cons ops) as [Hp Hn].
  split_and!; simpl.
  - split; simpl; [lia|done].
  - rewrite Hp. lia.
  - rewrite Hn. destruct (lastTokenWasOperator st); lia.
Qed.

Lemma safe_number st ops v :
  safe_inv st ops v → lastTokenWasOperator st = true →
  safe_inv {| openBrackets := openBrackets st; lastTokenWasOperator := false;
              lastTokenWasOpeningBracket := false |} ops (S v).
Proof.
  intros ([Hd Hf] & Hpar & Hv) Hop. rewrite Hop in Hv.
  split_and!; simpl; [by split|done|lia].
Qed.

(** What either [while] loop pops: no parenthesis, fewer entries than
    there are values, and the counts of what stays.  The loop stops at
    ["("], or the stack holds none. *)
Lemma safe_span (keep : ascii → bool) st ops v :
  safe_inv st ops v → lastTokenWasOperator st = false →
  keep "("%char = false ∨ nparens ops = 0%nat →
  ∃ popped rest,
    span_stack keep ops = (popped, rest) ∧ (length popped < v)%nat ∧
    nparens rest = nparens ops ∧
    (npending rest + length popped = npending ops)%nat ∧
    match rest with c :: _ => keep c = false | [] => True end.
Proof.
  intros (_ & Hpar & Hv) Hop Hk. rewrite Hop in Hv.
  pose proof (span_stack_spec keep ops) as Hspan.
  destruct (span_stack keep ops) as [popped rest]. destruct Hspan as (-> & Hkeep & Hrest).
  assert (Forall (λ c, c ≠ "("%char) popped) as Hnp.
  { destruct Hk as [Hk|Hz].
    - eapply Forall_impl; [done|]. intros c Hc ->. congruence.
    - apply nparens_zero in Hz. by apply Forall_app in Hz as [? _]. }
  destruct (count_no_paren popped Hnp) as [Hp0 Hpn].
  rewrite nparens_app, npending_app, Hp0, Hpn in *.
  exists popped, rest. split_and!; auto; lia.
Qed.

Lemma safe_rparen st ops v :
  safe_inv st ops v → lastTokenWasOperator st = false →
  (0 ≤ openBrackets st - 1)%Z →
  ∃ popped rest v',
    span_stack (λ c, bool_decide (c ≠ "("%char)) ops = (popped, "("%char :: rest) ∧
    depth_after v (visible (chars popped)) = Some v' ∧
    safe_inv {| openBrackets := openBrackets st - 1; lastTokenWasOperator := false;
                lastTokenWasOpeningBracket := false |} rest v'.
Proof.
  intros Hinv Hop Hd.
  destruct (safe_span (λ c, bool_decide (c ≠ "("%char)) st ops v)
    as (popped & rest & Hspan & Hlen & Hpar' & Hpend & Hhd); [done|done|by left|].
  destruct (depth_after_popped popped v Hlen) as (v' & Hv' & Hle).
  destruct Hinv as (_ & Hpar & Hv). rewrite Hop in Hv.
  destruct rest as [|c rest].
  { unfold nparens at 1 in Hpar'. simpl in Hpar'. lia. }
  apply bool_decide_eq_false_1 in Hhd. apply dec_stable in Hhd as ->.
  destruct (count_paren_cons rest) as [Hp Hn].
  exists popped, rest, v'. split_and!; [done..|].
  split_and!; simpl; [by split|lia|lia].
Qed.

Lemma safe_operator st ops v c :
  safe_inv st ops v → lastTokenWasOperator st = false → c ≠ "("%char →
  (0 < precedence c)%Z ∨ (openBrackets st ≤ 0)%Z →
  ∃ popped rest v',
    span_stack (λ x, (precedence c <=? precedence x)%Z) ops = (popped, rest) ∧
    depth_after v (visible (chars popped)) = Some v' ∧
    safe_inv {| openBrackets := openBrackets st; lastTokenWasOperator := true;
                lastTokenWasOpeningBracket := false |} (c :: rest) v'.
Proof.
  intros Hinv Hop Hc Hk.
  destruct (safe_span (λ x, (precedence c <=? precedence x)%Z) st ops v)
    as (popped & rest & Hspan & Hlen & Hpar' & Hpend & _); [done|done| |].
  { destruct Hinv as (_ & Hpar & _). destruct Hk; [left|right; lia].
    rewrite precedence_lparen. lia. }
  destruct (depth_after_popped popped v Hlen) as (v' & Hv' & Hle).
  destruct Hinv as ([Hd _] & Hpar & Hv). rewrite Hop in Hv.
  destruct (count_pending_cons c rest Hc) as [Hp Hn].
  exists popped, rest, v'. split_and!; [done..|].
  split_and!; simpl; [by split|lia|lia].
Qed.

End invariant.

(** ** The converter and the evaluator on validated tokens *)

Section safety.
Context `{Libm}.
Implicit Types (st : val_state) (ops : list ascii) (v : nat) (t : str) (ts : list str).

(** One token: where the validator goes on, the converter does not pop an
    empty stack, and what it writes finds its operands. *)
Lemma emit_step_safe st ops v t st' :
  safe_inv st ops v → wordy t →
  known_operator t = true ∨ (openBrackets st ≤ 0)%Z →
  validate_step st t = Some st' →
  ∃ ops' new v',
    emit_step ops t = Ok (ops', new) ∧ depth_after v (visible new) = Some v' ∧
    safe_inv st' ops' v' ∧ Forall written new.
Proof.
  intros Hinv Hw Hk Hstep. pose proof Hinv as ([_ Hf] & _).
  unfold validate_step in Hstep. unfold emit_step.
  destruct (decide (t = "(")) as [->|Hl]; [|rewrite bool_decide_eq_false_2 in * by done].
  { injection Hstep as <-. exists ("("%char :: ops), [], v.
    split_and!; [done..|by apply safe_lparen|constructor]. }
  destruct (decide (t = ")")) as [->|Hr]; [|rewrite bool_decide_eq_false_2 in * by done].
  { simpl in Hstep. destruct (lastTokenWasOperator st) eqn:Hop;
      [by rewrite orb_true_r in Hstep|].
    destruct (Z.ltb_spec (openBrackets st - 1) 0); [done|]. injection Hstep as <-.
    destruct (safe_rparen st ops v) as (popped & rest & v' & Hspan & Hdep & Hinv');
      [done..|].
    exists rest, (chars popped), v'. simpl. rewrite Hspan.
    split_and!; [done..|apply chars_written]. }
  destruct (isNumber t) eqn:Ht.
  - destruct (lastTokenWasOperator st) eqn:Hop.
    + injection Hstep as <-. destruct Hw as [Hw _]. exists ops, [t], (S v).
      rewrite visible_words by (constructor; auto). simpl. rewrite Ht.
      split_and!; [done..|by apply safe_number|constructor; [left; auto|constructor]].
    + destruct (lastTokenWasOpeningBracket st); [by discriminate Hf|done].
  - destruct (lastTokenWasOperator st) eqn:Hop; [done|]. injection Hstep as <-.
    destruct (operator_rank st t) as [Hne Hrank]; [done..|].
    destruct (safe_operator st ops v (first_char t)) as
      (popped & rest & v' & Hspan & Hdep & Hinv'); [done..|].
    exists (first_char t :: rest), (chars popped), v'. rewrite Hspan.
    split_and!; [done..|apply chars_written].
Qed.

Lemma emit_run_safe ts st ops v st' :
  safe_inv st ops v → Forall wordy ts →
  unknown_inside (openBrackets st) ts = false →
  validate_loop st ts = Some st' →
  ∃ ops' new v',
    emit_run ops ts = Ok (ops', new) ∧ depth_after v (visible new) = Some v' ∧
    safe_inv st' ops' v' ∧ Forall written new.
Proof.
  revert st ops v; induction ts as [|t ts IH]; intros st ops v Hinv Hw Hu.
  - intros [= <-]. exists ops, [], v. split_and!; (done || constructor).
  - apply Forall_cons in Hw as [Hw Hws]. apply unknown_inside_cons in Hu as [Hk Hu].
    cbn [validate_loop emit_run].
    destruct (validate_step st t) as [st1|] eqn:Hstep; [|done]. simpl. intros Hrun.
    rewrite <-(validate_step_depth _ _ _ Hstep) in Hu.
    destruct (emit_step_safe st ops v t st1) as (ops1 & new & v1 & He1 & Hd1 & Hinv1 & Hn1);
      [done..|].
    destruct (IH st1 ops1 v1) as (ops2 & more & v2 & He2 & Hd2 & Hinv2 & Hn2); [done..|].
    exists ops2, (new ++ more), v2. rewrite He1. simpl. rewrite He2. simpl.
    rewrite visible_app, depth_after_app, Hd1. split_and!; [done..|by apply Forall_app].
Qed.

(** The loop on an accepted token list with no unknown operator inside
    parentheses ends with no parenthesis on the stack, and what it wrote
    followed by the stack leaves a value when the evaluator reads it. *)
Lemma emit_run_validated ts :
  Forall wordy ts → unknown_inside 0 ts = false → validateExpression ts = true →
  ∃ ops new m, emit_run [] ts = Ok (ops, new) ∧ Forall written (new ++ chars ops) ∧
               depth_after 0 (visible (new ++ chars ops)) = Some (S m) ∧
               Forall (λ c, c ≠ "("%char) ops.
Proof.
  intros Hw Hu. unfold validateExpression, validate_end.
  destruct (validate_loop val_init ts) as [st|] eqn:Hrun; [|done].
  intros [Hd%negb_false_iff%Z.eqb_eq Hop]%negb_true_iff%orb_false_elim.
  destruct (emit_run_safe ts val_init [] 0 st safe_inv_init Hw Hu Hrun)
    as (ops & new & v & Hemit & Hdep & (_ & Hpar & Hv) & Hnew).
  rewrite Hop in Hv. rewrite Hd in Hpar.
  assert (Forall (λ c, c ≠ "("%char) ops) as Hnp by (apply nparens_zero; lia).
  destruct (count_no_paren ops Hnp) as [_ Hlen].
  destruct (depth_after_popped ops v) as (m & Hm & Hle); [lia|].
  exists ops, new, (m - 1)%nat. split_and!; [done| | |done].
  - apply Forall_app. split; [done|apply chars_written].
  - rewrite visible_app, depth_after_app, Hdep. simpl. rewrite Hm. f_equal. lia.
Qed.

(** What a step writes and leaves on the stack: the token when it is a
    number, first characters of the other tokens, and what the stack
    held. *)
Lemma emit_step_origin (Q : str → Prop) t ops ops' new :
  (if isNumber t then Q t else Q [first_char t]) → Forall Q (chars ops) →
  emit_step ops t = Ok (ops', new) → Forall Q new ∧ Forall Q (chars ops').
Proof.
  intros Ht Hops. unfold emit_step.
  destruct (isNumber t); [intros [= <- <-]; by repeat constructor|].
  case_bool_decide as Hl; [subst; intros [= <- <-]; split; by constructor|].
  case_bool_decide as Hr.
  - pose proof (span_stack_spec (λ c, bool_decide (c ≠ "("%char)) ops) as Hs.
    destruct (span_stack _ ops) as [popped [|c rest]]; [done|].
    destruct Hs as (-> & _). intros [= <- <-]. unfold chars in *.
    rewrite fmap_app, Forall_app, fmap_cons, Forall_cons in Hops. tauto.
  - pose proof (span_stack_spec (λ c, precedence (first_char t) <=? precedence c)%Z ops)
      as Hs.
    destruct (span_stack _ ops) as [popped rest]. destruct Hs as (-> & _).
    intros [= <- <-]. unfold chars in *. rewrite fmap_app, Forall_app in Hops.
    split; [tauto|]. constructor; tauto.
Qed.

Lemma emit_run_origin (Q : str → Prop) ts ops ops' new :
  Forall (λ t, if isNumber t then Q t else Q [first_char t]) ts → Forall Q (chars ops) →
  emit_run ops ts = Ok (ops', new) → Forall Q (new ++ chars ops').
Proof.
  intros Hts. revert ops new; induction Hts as [|t ts Ht _ IH]; intros ops new Hops.
  - intros [= <- <-]. done.
  - cbn [emit_run]. destruct (emit_step ops t) as [[ops1 new1]| |] eqn:Hstep; [|done..].
    destruct (emit_step_origin Q t ops ops1 new1) as [Hn1 Ho1]; [done..|]. simpl.
    destruct (emit_run ops1 ts) as [[ops2 more]| |] eqn:Hrun; [|done..].
    intros [= <- <-]. rewrite <-app_assoc. apply Forall_app. eauto.
Qed.

(** On an accepted token list whose operators are among the five, the
    converter returns: the pop of line 135 always finds its opening
    parenthesis.  The text it returns is a sequence of words that leaves
    the evaluator with at least one value and never lets an operator find
    fewer than two. *)
Lemma convert_safe ts :
  Forall (λ t, known_operator t = true) ts →
  Forall (λ t, isNumber t = true → word t) ts →
  validateExpression ts = true →
  ∃ toks m, convert ts = Ok (unwords toks) ∧ Forall word toks ∧
            depth_after 0 toks = Some (S m).
Proof.
  intros Hk Hw Hv.
  destruct (emit_run_validated ts) as (ops & new & m & Hemit & _ & Hd & _);
    [by apply known_wordy|by apply unknown_inside_known|done|].
  assert (Forall word (new ++ chars ops)) as Hwd.
  { eapply (emit_run_origin word ts []); [|constructor|done]. rewrite Forall_forall in *.
    intros t Ht. apply known_operator_word; auto. }
  exists (new ++ chars ops), m. rewrite convert_emit, Hemit.
  by rewrite visible_words in Hd.
Qed.

Lemma convert_safe_witness :
  ∃ toks m, convert ["2"; "("; "3"; "+"; "4"; ")"] = Ok (unwords toks) ∧
            Forall word toks ∧ depth_after 0 toks = Some (S m).
Proof.
  apply convert_safe; [by repeat constructor| |done].
  repeat constructor; done.
Defined.

(** The text the converter writes is read back without the whitespace. *)
Lemma words_from_written toks s :
  Forall written toks →
  words_from [] (unwords toks ++ s) = visible toks ++ words_from [] s.
Proof.
  induction 1 as [|t toks [[Hs Hne]|Hb] _ IH]; [done|..];
    rewrite unwords_cons, <-!app_assoc, visible_cons.
  - rewrite word_not_blank, words_from_token, IH by done. done.
  - rewrite Hb, words_from_blank by done. simpl. by rewrite IH.
Qed.

Lemma visible_word toks : Forall written toks → Forall word (visible toks).
Proof.
  induction 1 as [|t toks [Ht|Ht] _ IH]; [done|..]; rewrite visible_cons.
  - rewrite word_not_blank by done. by constructor.
  - by rewrite Ht.
Qed.

(** The whitespace the converter writes for an operator can be left out
    of the text. *)
Lemma unwords_visible toks :
  Forall written toks → same_words (unwords toks) (unwords (visible toks)).
Proof.
  intros Hw. unfold same_words, words.
  rewrite <-(app_nil_r (unwords toks)), words_from_written by done.
  by rewrite <-(app_nil_r (unwords (visible _))), words_from_unwords by by apply visible_word.
Qed.

Lemma evaluatePostfix_written toks :
  Forall written toks →
  evaluatePostfix (unwords toks) = values ← foldlM eval_step [] (visible toks); top values.
Proof.
  intros Hw. rewrite (unwords_visible toks Hw).
  by apply evaluatePostfix_unwords, visible_word.
Qed.

(** The evaluator on such a text returns a value or throws one of the
    program's exceptions. *)
Lemma evaluate_safe toks m :
  Forall written toks → depth_after 0 (visible toks) = Some (S m) →
  match evaluatePostfix (unwords toks) with
  | Ok _ => True
  | Throw w => w ∈ messages
  | Undefined => False
  end.
Proof.
  intros Hw Hd. rewrite evaluatePostfix_written by done.
  pose proof (eval_depth (visible toks) 0 (S m) [] Hd eq_refl) as Hrun.
  destruct (foldlM eval_step [] (visible toks)) as [[|x vs]|w|]; simpl in *; done.
Qed.

End safety.

(** ** The operands keep their order *)

Section operands.
Implicit Types (ops : list ascii) (t : str) (ts toks : list str).

Lemma char_number_word c : isNumber [c] = true → word [c].
Proof.
  rewrite isNumber_char. intros Hc%isdigit_not_space. split; [|done].
  simpl. by rewrite Hc.
Qed.

Lemma numbers_none toks : Forall (λ w, isNumber w = false) toks → numbers toks = [].
Proof.
  unfold numbers. induction 1; [done|]. by rewrite filter_cons_False by congruence.
Qed.

(** Whitespace is no number: skipping it loses no operand. *)
Lemma numbers_visible toks :
  Forall (λ t, isNumber t = true → word t) toks → numbers (visible toks) = numbers toks.
Proof.
  unfold numbers. induction 1 as [|t toks Ht _ IH]; [done|]. rewrite visible_cons.
  destruct (blank t) eqn:Hb; [|by rewrite !filter_cons, IH].
  rewrite filter_cons_False; [done|]. intros ?%Ht%word_not_blank. congruence.
Qed.

(** A step writes the token when it is a number, and otherwise only
    characters from the stack, none of which is a digit. *)
Lemma emit_step_operands t ops ops' new :
  (isNumber t = false → isdigit (first_char t) = false) →
  Forall (λ w, isNumber w = false) (chars ops) →
  emit_step ops t = Ok (ops', new) →
  numbers new = numbers [t] ∧ Forall (λ w, isNumber w = false) (chars ops').
Proof.
  intros Ht Hops. destruct (isNumber t) eqn:Hn.
  { unfold emit_step. rewrite Hn. intros [= <- <-]. done. }
  intros [Hnew Hops']%(emit_step_origin (λ w, isNumber w = false));
    [|rewrite Hn, isNumber_char; auto|done].
  split; [|done]. rewrite numbers_none by done.
  unfold numbers. by rewrite filter_cons_False, filter_nil by congruence.
Qed.

Lemma emit_run_operands ts ops ops' new :
  Forall (λ t, isNumber t = false → isdigit (first_char t) = false) ts →
  Forall (λ w, isNumber w = false) (chars ops) →
  emit_run ops ts = Ok (ops', new) →
  numbers (new ++ chars ops') = numbers ts.
Proof.
  intros Hts. revert ops new; induction Hts as [|t ts Ht _ IH]; intros ops new Hops.
  - intros [= <- <-]. by rewrite numbers_none.
  - cbn [emit_run]. destruct (emit_step ops t) as [[ops1 new1]| |] eqn:Hstep; [|done..].
    destruct (emit_step_operands t ops ops1 new1) as [Hn1 Ho1]; [done..|]. simpl.
    destruct (emit_run ops1 ts) as [[ops2 more]| |] eqn:Hrun; [|done..].
    intros [= <- <-]. specialize (IH ops1 more Ho1 Hrun). unfold numbers in *.
    by rewrite <-app_assoc, filter_app, Hn1, IH, <-filter_app.
Qed.

(** C13: the converter keeps the operands and their order.  Whenever it
    returns, on a token list of the grammar or not, the numbers among the
    words of its text are the numbers among its tokens, in the same
    order; the case of a malformed number, whose first digit is written
    as a number, is set aside. *)
Theorem convert_operands ts out :
  Forall wordy ts →
  Forall (λ t, isNumber t = false → isdigit (first_char t) = false) ts →
  convert ts = Ok out → numbers (words out) = numbers ts.
Proof.
  intros Hw Hd. rewrite convert_emit.
  destruct (emit_run [] ts) as [[ops new]| |] eqn:Hrun; [|done..]. intros [= <-].
  assert (Forall (λ t, written t ∧ (isNumber t = true → word t)) (new ++ chars ops)) as Hq.
  { eapply (emit_run_origin _ ts []); [|constructor|done].
    eapply Forall_impl; [exact Hw|]. intros t [Ht _]. destruct (isNumber t).
    - split; [left|]; auto.
    - split; [apply char_written|apply char_number_word]. }
  apply Forall_and in Hq as [Hq1 Hq2]. unfold words.
  rewrite <-(app_nil_r (unwords _)), words_from_written, app_nil_r by done.
  rewrite numbers_visible by done. by apply (emit_run_operands ts []).
Qed.

End operands.

Lemma convert_operands_witness :
  numbers (words "2 3 4 + ") = numbers ["2"; "("; "3"; "+"; "4"; ")"].
Proof.
  apply (convert_operands ["2"; "("; "3"; "+"; "4"; ")"]); [| |done];
    repeat constructor; done.
Defined.

(** ** Where the behaviour is undefined *)

Section undefined.
Implicit Types (st : val_state) (ops : list ascii) (out t : str) (ts : list str) (d : Z).

Lemma pop_to_paren_nparens ops out c ops' out' :
  pop_to_paren ops out = (c :: ops', out') → (nparens ops' < nparens ops)%nat.
Proof.
  revert out; induction ops as [|top ops IH]; intros out; simpl; [done|].
  case_bool_decide as Htop.
  - intros Hpop%IH. destruct (count_pending_cons top ops Htop) as [-> _]. lia.
  - subst top. intros [= <- <- <-].
    destruct (count_paren_cons ops) as [-> _]. lia.
Qed.

Lemma pop_higher_nparens k ops out :
  (nparens (pop_higher k ops out).1 ≤ nparens ops)%nat.
Proof.
  revert out; induction ops as [|top ops IH]; intros out; simpl; [done|].
  destruct (k <=? precedence top)%Z; [|done].
  change (top :: ops) with ([top] ++ ops). rewrite nparens_app.
  etrans; [apply IH|lia].
Qed.

(** An operator of rank 0 empties the stack. *)
Lemma pop_higher_zero ops out : pop_higher 0 ops out = ([], drain ops out).
Proof.
  revert out; induction ops as [|top ops IH]; intros out; simpl; [done|].
  pose proof (precedence_range top).
  by replace (0 <=? precedence top)%Z with true by lia.
Qed.

Lemma convert_step_no_throw s t what : convert_step s t ≠ Throw what.
Proof. destruct s. unfold convert_step. repeat case_match; done. Qed.

(** An operator token of rank 0 empties the operator stack and is pushed
    alone. *)
Lemma convert_step_unknown ops out t :
  isNumber t = false → t ≠ "(" → t ≠ ")" → precedence (first_char t) = 0%Z →
  convert_step (ops, out) t = Ok ([first_char t], drain ops out).
Proof.
  intros Hnum Hl Hr Hrank. unfold convert_step.
  by rewrite Hnum, !bool_decide_eq_false_2, Hrank, pop_higher_zero.
Qed.

(** Once the stack holds fewer parentheses than the validator counts
    above some depth [d], the closing parenthesis that returns below [d]
    finds none: the loop ends in undefined behaviour. *)
Lemma convert_below d ts st ops out st' :
  (Z.of_nat (nparens ops) ≤ openBrackets st - d)%Z →
  validate_loop st ts = Some st' → (openBrackets st' < d)%Z →
  Forall (λ t, token_shape t = true) ts →
  foldlM convert_step (ops, out) ts = Undefined.
Proof.
  revert st ops out; induction ts as [|t ts IH]; intros st ops out Hn; simpl.
  { intros [= <-] ? _. lia. }
  destruct (validate_step st t) as [st1|] eqn:Hstep; [|done]. simpl.
  intros Hrun Hd [Ht Hts]%Forall_cons. revert Hstep.
  unfold validate_step, convert_step.
  destruct (isNumber t) eqn:Hnum.
  - rewrite !bool_decide_eq_false_2 by by intros ->.
    case_match; [done|]. intros [= <-]. simpl.
    by eapply IH; [|exact Hrun|..].
  - case_bool_decide as Hl; [|case_bool_decide as Hr].
    + intros [= <-]. simpl. eapply IH; [|exact Hrun|done..].
      destruct (count_paren_cons ops) as [-> _]. simpl. lia.
    + case_match; [done|]. intros [= <-].
      destruct (pop_to_paren ops out) as [[|c ops'] out'] eqn:Hpop; [done|].
      apply pop_to_paren_nparens in Hpop. simpl.
      eapply IH; [|exact Hrun|done..]. simpl. lia.
    + case_match; [done|]. intros [= <-].
      pose proof (pop_higher_nparens (precedence (first_char t)) ops out) as Hh.
      destruct (pop_higher _ ops out) as [ops' out']. simpl in *.
      eapply IH; [|exact Hrun|done..].
      destruct (count_pending_cons (first_char t) ops') as [-> _];
        [by apply first_char_not_paren|]. simpl. lia.
Qed.

(** The loop of the converter on tokens that the validator accepts down
    to depth 0, with an unknown operator inside parentheses among them. *)
Lemma convert_unknown_inside ts st ops out st' :
  unknown_inside (openBrackets st) ts = true →
  validate_loop st ts = Some st' → (openBrackets st' ≤ 0)%Z →
  Forall (λ t, token_shape t = true) ts →
  foldlM convert_step (ops, out) ts = Undefined.
Proof.
  revert st ops out; induction ts as [|t ts IH]; intros st ops out; [done|].
  cbn [unknown_inside validate_loop]. intros Hu Hrun Hd [Ht Hts]%Forall_cons.
  destruct (validate_step st t) as [st1|] eqn:Hstep; [|done]. simpl in Hrun.
  pose proof (validate_step_depth _ _ _ Hstep) as Hst1. rewrite foldlM_cons.
  apply orb_prop in Hu as [[Hpos%Z.ltb_lt Hk%negb_true_iff]%andb_prop|Hu].
  - apply known_operator_false in Hk as (Hnum & Hl & Hr & Hrank).
    rewrite convert_step_unknown by done. cbn [mbind result_bind].
    apply (convert_below (openBrackets st) ts st1 _ _ st'); [|done|lia|done].
    destruct (count_pending_cons (first_char t) []) as [-> _];
      [by apply first_char_not_paren|].
    cbn [paren_depth] in Hst1. rewrite !bool_decide_eq_false_2 in Hst1 by done.
    unfold nparens. simpl. lia.
  - rewrite <-Hst1 in Hu.
    destruct (convert_step (ops, out) t) as [[ops1 out1]|what|] eqn:Hc;
      [|by apply convert_step_no_throw in Hc|done].
    cbn [mbind result_bind]. eauto.
Qed.

(** The converter on the tokens of a text, in the two cases. *)
Lemma infixToPostfix_unknown_inside expression :
  validateExpression (tokenize expression) = true →
  unknown_inside 0 (tokenize expression) = true →
  infixToPostfix expression = Undefined.
Proof.
  intros Hval Hu. unfold infixToPostfix, convert. rewrite Hval. simpl.
  unfold validateExpression, validate_end in Hval.
  destruct (validate_loop val_init _) as [st'|] eqn:Hrun; [|done].
  rewrite (convert_unknown_inside _ val_init [] [] st'); [done..| |].
  - bool_cases. lia.
  - apply Forall_forall, tokenize_elem_shape.
Qed.

Lemma infixToPostfix_defined expression :
  validateExpression (tokenize expression) = true →
  unknown_inside 0 (tokenize expression) = false →
  ∃ toks m, infixToPostfix expression = Ok (unwords toks) ∧ Forall written toks ∧
            depth_after 0 (visible toks) = Some (S m).
Proof.
  intros Hval Hu. unfold infixToPostfix. rewrite Hval. simpl.
  destruct (emit_run_validated (tokenize expression))
    as (ops & new & m & Hemit & Hw & Hd & _); [apply tokenize_wordy|done..|].
  exists (new ++ chars ops), m. by rewrite convert_emit, Hemit.
Qed.

(** C12: [infixToPostfix] calls [top] and [pop] on an empty operator stack
    exactly when [validateExpression] accepts the tokens and one of them,
    inside parentheses, is an operator token whose first character
    [applyOp] does not know.  Such a token ranks 0, so the loop of line
    137 pops the opening parentheses with everything else, and the
    closing parenthesis that follows finds none (main.cpp 130-135).  On
    every other input the function returns or throws. *)
Theorem infixToPostfix_undefined expression :
  infixToPostfix expression = Undefined ↔
  validateExpression (tokenize expression) = true ∧
  unknown_inside 0 (tokenize expression) = true.
Proof.
  split; [|intros []; by apply infixToPostfix_unknown_inside].
  destruct (validateExpression (tokenize expression)) eqn:Hval;
    [|unfold infixToPostfix; by rewrite Hval].
  destruct (unknown_inside 0 (tokenize expression)) eqn:Hu; [done|].
  destruct (infixToPostfix_defined expression) as (? & ? & -> & _); done.
Qed.

End undefined.
