(* ===== verification/Forest.v ===== *)
(** * Forest: the text of the converter, read as trees

    The validator accepts more than the grammar: an opening parenthesis
    may follow an operand.  On such input the converter still writes a
    postfix text, and the evaluator still returns a value.  This file
    says which: with operators among the five, the text is the postfix
    form of a sequence of trees, one more than there are operands in
    front of a parenthesis, and the evaluator computes all of them in
    order and returns the last.

    - [build] (of [Syntax]) reads postfix words into a stack of trees;
      [build_depth], [build_eval], [build_forest], [build_wf] and
      [build_leaves] relate the stack to the depth of the value stack,
      to the run of the evaluator, to the words read, and to the operands;
    - [emit_run_known]: with known operators the converter writes
      numbers and operator characters, never a parenthesis;
    - [validate_loop_count], [emit_run_count], [depth_count]: operands
      and operators counted in the tokens, in what the converter writes,
      and on the value stack;
    - [convert_forest]: the text of the converter on an accepted token
      list is the postfix form of a non-empty stack of well-formed trees
      whose leaves are the numbers of the tokens, in order, with one tree
      more for every opening parenthesis that follows an operand
      ([juxtaposed]). *)

From Stdlib Require Import ZArith Ascii List Floats.
From stdpp Require Import base tactics option list.
From S2P Require Import Prelude Lexeme Arith Tokenizer Syntax Validator Converter Evaluator Safety.
Local Open Scope str_scope.

(** ** Definitions *)

(** The values of a stack of trees, computed from the lowest tree up, as
    the evaluator meets them. *)
Fixpoint eval_stack `{Libm} (stack : list expr) : result (list float) :=
  match stack with
  | [] => Ok []
  | e :: below => values ← eval_stack below; v ← eval e; Ok (v :: values)
  end.

(** The postfix words of a stack of trees, the lowest tree first. *)
Definition forest (stack : list expr) : list str := concat (postfix <$> reverse stack).

(** The operands of a stack of trees, left to right. *)
Definition forest_leaves (stack : list expr) : list str := concat (leaves <$> reverse stack).

(** A word of a postfix text: a number or one of the five operators. *)
Definition postfix_word (w : str) : Prop :=
  isNumber w = true ∨ ∃ op, w = [op] ∧ is_operator op = true.

(** An entry of the operator stack. *)
Definition stacked (c : ascii) : Prop := c = "("%char ∨ is_operator c = true.

(** The operator tokens of a token list. *)
Definition operator_token (t : str) : bool :=
  match classify t with
  | Operator => true
  | _ => false
  end.

Definition noperators (ts : list str) : nat :=
  length (filter (λ t, operator_token t = true) ts).

(** The opening parentheses of [ts] that follow an operand: a number or
    a closing parenthesis.  [operand] tells whether [ts] itself follows
    one. *)
Fixpoint juxtaposed (operand : bool) (ts : list str) : nat :=
  match ts with
  | [] => 0
  | t :: ts =>
      (if operand && bool_decide (t = "(") then 1 else 0) +
      juxtaposed (bool_decide (t = ")") || isNumber t) ts
  end.

(** ** Reading a postfix text *)

Section build.
Context `{Libm}.
Implicit Types (e : expr) (stack below : list expr) (toks : list str) (n m : nat).

Lemma forest_cons e stack : forest (e :: stack) = forest stack ++ postfix e.
Proof. unfold forest. rewrite reverse_cons, fmap_app, concat_app. simpl. by rewrite app_nil_r. Qed.

Lemma forest_leaves_cons e stack :
  forest_leaves (e :: stack) = forest_leaves stack ++ leaves e.
Proof.
  unfold forest_leaves. rewrite reverse_cons, fmap_app, concat_app. simpl.
  by rewrite app_nil_r.
Qed.

(** Where the value stack is deep enough, the words are read. *)
Lemma build_depth toks n m stack :
  depth_after n toks = Some m → length stack = n →
  ∃ stack', build stack toks = Some stack' ∧ length stack' = m.
Proof.
  revert n stack; induction toks as [|t toks IH]; intros n stack; simpl.
  - intros [= <-] Hl. by exists stack.
  - destruct (isNumber t); [intros Hd Hl; apply (IH (S n)); simpl; auto|].
    destruct n as [|[|n]]; [done..|]. destruct stack as [|r [|l stack]]; [done..|].
    intros Hd [= Hl]. apply (IH (S n)); simpl; auto.
Qed.

(** The evaluator on the words computes the trees they build. *)
Lemma build_eval toks stack stack' :
  build stack toks = Some stack' →
  eval_stack stack' = values ← eval_stack stack; foldlM eval_step values toks.
Proof.
  revert stack; induction toks as [|t toks IH]; intros stack; simpl.
  - intros [= <-]. by destruct (eval_stack stack).
  - destruct (isNumber t) eqn:Ht.
    + intros ->%IH. simpl. destruct (eval_stack stack) as [values| |]; [|done..].
      rewrite !bind_Ok, eval_step_number by done. by destruct (stod t).
    + destruct stack as [|r [|l below]]; [done..|]. intros ->%IH. simpl.
      destruct (eval_stack below) as [values| |]; [|done..]. rewrite !bind_Ok.
      destruct (eval l) as [a| |]; [|done..]. rewrite !bind_Ok.
      destruct (eval r) as [b| |]; [|done..]. rewrite !bind_Ok.
      rewrite eval_step_apply by done. by destruct (applyOp a b (first_char t)).
Qed.

(** The trees built are written as the words read. *)
Lemma build_forest toks stack stack' :
  Forall postfix_word toks → build stack toks = Some stack' →
  forest stack' = forest stack ++ toks.
Proof.
  intros Hw. revert stack; induction Hw as [|t toks Ht _ IH]; intros stack; simpl.
  - intros [= <-]. by rewrite app_nil_r.
  - destruct (isNumber t) eqn:Hn.
    + intros ->%IH. by rewrite forest_cons, <-app_assoc.
    + destruct Ht as [?|(op & -> & _)]; [congruence|].
      destruct stack as [|r [|l below]]; [done..|]. intros ->%IH.
      rewrite !forest_cons. simpl. by rewrite <-!app_assoc.
Qed.

Lemma build_wf toks stack stack' :
  Forall postfix_word toks → Forall wf_expr stack → build stack toks = Some stack' →
  Forall wf_expr stack'.
Proof.
  intros Hw. revert stack; induction Hw as [|t toks Ht _ IH]; intros stack Hs; simpl.
  - by intros [= <-].
  - destruct (isNumber t) eqn:Hn.
    + apply IH. constructor; [|done]. split; simpl; by repeat constructor.
    + destruct Ht as [?|(op & -> & Hop)]; [congruence|].
      destruct stack as [|r [|l below]]; [done..|].
      apply Forall_cons in Hs as [Hr [Hl Hb]%Forall_cons].
      apply IH. constructor; [by apply wf_expr_bin|done].
Qed.

(** The leaves of the trees built are the numbers read. *)
Lemma build_leaves toks stack stack' :
  build stack toks = Some stack' →
  forest_leaves stack' = forest_leaves stack ++ numbers toks.
Proof.
  unfold numbers. revert stack; induction toks as [|t toks IH]; intros stack; simpl.
  - intros [= <-]. by rewrite app_nil_r.
  - rewrite filter_cons. destruct (isNumber t) eqn:Hn.
    + intros ->%IH. rewrite decide_True by done.
      by rewrite forest_leaves_cons, <-app_assoc.
    + destruct stack as [|r [|l below]]; [done..|]. intros ->%IH.
      rewrite decide_False by done. rewrite !forest_leaves_cons. simpl.
      by rewrite <-!app_assoc.
Qed.

(** Every word moves the depth of the value stack by one. *)
Lemma depth_count toks n m :
  depth_after n toks = Some m → m + length toks = n + 2 * length (numbers toks).
Proof.
  unfold numbers. revert n; induction toks as [|t toks IH]; intros n; simpl.
  - intros [= <-]. lia.
  - rewrite filter_cons. destruct (isNumber t) eqn:Hn.
    + rewrite decide_True by done. intros ?%IH. simpl. lia.
    + rewrite decide_False by done. destruct n as [|[|n]]; [done..|].
      intros ?%IH. lia.
Qed.

End build.

(** ** What the converter writes *)

Section known.
Implicit Types (t : str) (ts : list str) (ops popped : list ascii) (keep : ascii → bool).

(** An operator token that [applyOp] knows begins with an operator. *)
Lemma known_operator_char t :
  known_operator t = true → isNumber t = false → t ≠ "(" → t ≠ ")" →
  is_operator (first_char t) = true.
Proof.
  intros Hk Hn Hl Hr. unfold known_operator, classify in Hk.
  by rewrite !bool_decide_eq_false_2, Hn in Hk by done.
Qed.

Lemma known_operator_no_digit t :
  known_operator t = true → isNumber t = false → isdigit (first_char t) = false.
Proof.
  intros Hk Hn. destruct (decide (t = "(")) as [->|Hl]; [done|].
  destruct (decide (t = ")")) as [->|Hr]; [done|].
  by apply is_operator_inv, known_operator_char.
Qed.

(** What a loop pops when it stops at an opening parenthesis. *)
Lemma popped_words keep popped :
  keep "("%char = false → Forall (λ c, keep c = true) popped → Forall stacked popped →
  Forall postfix_word (chars popped).
Proof.
  intros Hk Hp Hs. unfold chars. apply Forall_fmap.
  induction Hs as [|c popped [->|Hc] _ IH]; [constructor|..];
    apply Forall_cons in Hp as [Hp1 Hp2]; [congruence|].
  constructor; [right; by exists c|auto].
Qed.

Lemma emit_step_known t ops ops' new :
  known_operator t = true → Forall stacked ops → emit_step ops t = Ok (ops', new) →
  Forall postfix_word new ∧ Forall stacked ops'.
Proof.
  intros Hk Hops. unfold emit_step. destruct (isNumber t) eqn:Hn.
  { intros [= <- <-]. split; [by repeat constructor|done]. }
  case_bool_decide as Hl.
  { intros [= <- <-]. split; constructor; [by left|done]. }
  case_bool_decide as Hr.
  - pose proof (span_stack_spec (λ c, bool_decide (c ≠ "("%char)) ops) as Hs.
    destruct (span_stack _ ops) as [popped [|c rest]]; [done|].
    destruct Hs as (-> & Hp & _). intros [= <- <-].
    apply Forall_app in Hops as [Hops1 [_ Hops2]%Forall_cons].
    split; [by apply (popped_words _ _ eq_refl Hp)|done].
  - pose proof (known_operator_char t Hk Hn Hl Hr) as Hop.
    pose proof (span_stack_spec (λ c, precedence (first_char t) <=? precedence c)%Z ops)
      as Hs.
    destruct (span_stack _ ops) as [popped rest]. destruct Hs as (-> & Hp & _).
    intros [= <- <-]. apply Forall_app in Hops as [Hops1 Hops2].
    split; [|constructor; [by right|done]].
    apply (popped_words _ _) in Hp; [done| |done].
    apply precedence_operator in Hop. rewrite precedence_lparen. by apply Z.leb_gt.
Qed.

(** With known operators the converter writes numbers and operators. *)
Lemma emit_run_known ts ops ops' new :
  Forall (λ t, known_operator t = true) ts → Forall stacked ops →
  emit_run ops ts = Ok (ops', new) → Forall postfix_word new ∧ Forall stacked ops'.
Proof.
  intros Hts. revert ops new; induction Hts as [|t ts Ht _ IH]; intros ops new Hops.
  - by intros [= <- <-].
  - cbn [emit_run]. destruct (emit_step ops t) as [[ops1 new1]| |] eqn:Hstep; [|done..].
    destruct (emit_step_known t ops ops1 new1) as [Hn1 Ho1]; [done..|]. simpl.
    destruct (emit_run ops1 ts) as [[ops2 more]| |] eqn:Hrun; [|done..].
    intros [= <- <-]. destruct (IH ops1 more Ho1 Hrun). split; [by apply Forall_app|done].
Qed.

End known.

(** ** Counting operands and operators *)

Section counting.
Implicit Types (t : str) (ts : list str) (st : val_state) (ops : list ascii).

Lemma numbers_cons t ts :
  length (numbers (t :: ts)) = (if isNumber t then 1 else 0) + length (numbers ts).
Proof.
  unfold numbers. rewrite filter_cons.
  destruct (isNumber t); [by rewrite decide_True|by rewrite decide_False].
Qed.

Lemma noperators_cons t ts :
  noperators (t :: ts) = (if operator_token t then 1 else 0) + noperators ts.
Proof.
  unfold noperators. rewrite filter_cons.
  destruct (operator_token t); [by rewrite decide_True|by rewrite decide_False].
Qed.

(** One token of the validator: an operand closes what an operator or a
    juxtaposed parenthesis opens. *)
Lemma validate_step_count st t st' :
  val_inv st → validate_step st t = Some st' →
  (if isNumber t then 1 else 0) + (if lastTokenWasOperator st then 0 else 1) =
    (if operator_token t then 1 else 0) +
    (if negb (lastTokenWasOperator st) && bool_decide (t = "(") then 1 else 0) +
    (if lastTokenWasOperator st' then 0 else 1) ∧
  negb (lastTokenWasOperator st') = bool_decide (t = ")") || isNumber t.
Proof.
  intros [_ Hf]. unfold validate_step, operator_token, classify.
  destruct st as [d [] []]; simpl in *; repeat case_match; try done;
    intros [= <-]; simpl; bool_cases; by discriminate Hf.
Qed.

Lemma validate_loop_count ts st st' :
  val_inv st → validate_loop st ts = Some st' →
  length (numbers ts) + (if lastTokenWasOperator st then 0 else 1) =
    noperators ts + juxtaposed (negb (lastTokenWasOperator st)) ts +
    (if lastTokenWasOperator st' then 0 else 1).
Proof.
  revert st; induction ts as [|t ts IH]; intros st Hinv; simpl.
  - intros [= <-]. unfold noperators. simpl. lia.
  - destruct (validate_step st t) as [st1|] eqn:Hstep; [|done]. simpl. intros Hrun.
    destruct (validate_step_count st t st1 Hinv Hstep) as [Hc Hl].
    apply IH in Hrun; [|by eapply validate_step_inv]. rewrite Hl in Hrun.
    rewrite numbers_cons, noperators_cons. lia.
Qed.

(** One token of the converter: a number or an operator is written or
    waits on the stack. *)
Lemma emit_step_count t ops ops' new :
  known_operator t = true → emit_step ops t = Ok (ops', new) →
  length new + npending ops' =
    npending ops + (if isNumber t then 1 else 0) + (if operator_token t then 1 else 0).
Proof.
  intros Hk. unfold emit_step, operator_token, classify. destruct (isNumber t) eqn:Hn.
  { intros [= <- <-]. repeat case_bool_decide; simpl; lia. }
  case_bool_decide as Hl.
  { intros [= <- <-]. destruct (count_paren_cons ops) as [_ ->]. simpl. lia. }
  case_bool_decide as Hr.
  - pose proof (span_stack_spec (λ c, bool_decide (c ≠ "("%char)) ops) as Hs.
    destruct (span_stack _ ops) as [popped [|c rest]]; [done|].
    destruct Hs as (-> & Hp & Hc). intros [= <- <-].
    apply bool_decide_eq_false_1, dec_stable in Hc as ->.
    destruct (count_no_paren popped) as [_ Hpn].
    { eapply Forall_impl; [exact Hp|]. intros c. by apply bool_decide_eq_true_1. }
    destruct (count_paren_cons rest) as [_ Hr'].
    unfold chars. rewrite length_fmap, npending_app, Hpn, Hr'. lia.
  - pose proof (known_operator_char t Hk Hn Hl Hr) as Hop.
    pose proof (span_stack_spec (λ c, precedence (first_char t) <=? precedence c)%Z ops)
      as Hs.
    destruct (span_stack _ ops) as [popped rest]. destruct Hs as (-> & Hp & _).
    intros [= <- <-]. destruct (count_no_paren popped) as [_ Hpn].
    { eapply Forall_impl; [exact Hp|]. intros c Hc ->. apply Z.leb_le in Hc.
      apply precedence_operator in Hop. rewrite precedence_lparen in Hc. lia. }
    destruct (count_pending_cons (first_char t) rest) as [_ Hr'].
    { by apply is_operator_inv in Hop as (_ & _ & _ & ? & _). }
    unfold chars. rewrite length_fmap, npending_app, Hpn, Hr'. lia.
Qed.

Lemma emit_run_count ts ops ops' new :
  Forall (λ t, known_operator t = true) ts → emit_run ops ts = Ok (ops', new) →
  length new + npending ops' = npending ops + length (numbers ts) + noperators ts.
Proof.
  intros Hts. revert ops new; induction Hts as [|t ts Ht _ IH]; intros ops new.
  - intros [= <- <-]. unfold noperators. simpl. lia.
  - cbn [emit_run]. destruct (emit_step ops t) as [[ops1 new1]| |] eqn:Hstep; [|done..].
    simpl. destruct (emit_run ops1 ts) as [[ops2 more]| |] eqn:Hrun; [|done..].
    intros [= <- <-]. apply IH in Hrun. apply emit_step_count in Hstep; [|done].
    rewrite length_app, numbers_cons, noperators_cons. lia.
Qed.

End counting.

(** ** The forest of an accepted token list *)

Section forest.
Implicit Types (t : str) (ts : list str) (ops : list ascii).

(** The depth of the value stack at the end: one value, and one more
    for every opening parenthesis that follows an operand. *)
Lemma forest_depth ts ops new m :
  Forall (λ t, known_operator t = true) ts → validateExpression ts = true →
  emit_run [] ts = Ok (ops, new) → Forall (λ c, c ≠ "("%char) ops →
  numbers (new ++ chars ops) = numbers ts →
  depth_after 0 (new ++ chars ops) = Some m → m = S (juxtaposed false ts).
Proof.
  intros Hk Hv Hemit Hnp Hnum Hd%depth_count. rewrite Hnum, length_app in Hd.
  apply emit_run_count in Hemit; [|done]. destruct (count_no_paren ops Hnp) as [_ Hops].
  unfold validateExpression, validate_end in Hv.
  destruct (validate_loop val_init ts) as [st|] eqn:Hrun; [|done].
  apply negb_true_iff, orb_false_elim in Hv as [_ Hop].
  apply validate_loop_count in Hrun; [|apply val_inv_init]. rewrite Hop in Hrun.
  unfold chars in Hd. rewrite length_fmap in Hd. simpl in *. lia.
Qed.

(** The text of the converter on accepted tokens is a forest. *)
Lemma convert_forest ts :
  Forall (λ t, known_operator t = true) ts →
  Forall (λ t, isNumber t = true → word t) ts →
  validateExpression ts = true →
  ∃ e below,
    convert ts = Ok (unwords (forest (e :: below))) ∧
    build [] (forest (e :: below)) = Some (e :: below) ∧
    Forall word (forest (e :: below)) ∧ Forall wf_expr (e :: below) ∧
    forest_leaves (e :: below) = numbers ts ∧ length below = juxtaposed false ts.
Proof.
  intros Hk Hw Hv.
  destruct (emit_run_validated ts) as (ops & new & m & Hemit & _ & Hd & Hnp);
    [by apply known_wordy|by apply unknown_inside_known|done|].
  assert (Forall word (new ++ chars ops)) as Hwd.
  { eapply (emit_run_origin word ts []); [|constructor|done]. rewrite Forall_forall in *.
    intros t Ht. apply known_operator_word; auto. }
  rewrite visible_words in Hd by done.
  destruct (emit_run_known ts [] ops new Hk) as [Hnew Hops]; [constructor|done|].
  assert (Forall postfix_word (new ++ chars ops)) as Hpw.
  { apply Forall_app. split; [done|]. apply (popped_words (λ c, bool_decide (c ≠ "("%char)));
      [done| |done]. eapply Forall_impl; [exact Hnp|]. intros c Hc. by apply bool_decide_eq_true. }
  destruct (build_depth _ 0 (S m) [] Hd eq_refl) as ([|e below] & Hb & Hlen); [done|].
  pose proof (build_forest _ _ _ Hpw Hb) as Hf. simpl in Hf.
  assert (numbers (new ++ chars ops) = numbers ts) as Hnum.
  { apply (emit_run_operands ts []); [|constructor|done].
    eapply Forall_impl; [exact Hk|]. intros t. apply known_operator_no_digit. }
  exists e, below. rewrite convert_emit, Hemit, Hf. split_and!; [done..| | |].
  - by apply (build_wf _ [] _ Hpw).
  - by rewrite (build_leaves _ _ _ Hb).
  - apply (forest_depth ts ops new) in Hd; [|done..]. simpl in Hlen. lia.
Qed.

End forest.
