(* ===== verification/Console.v ===== *)
(** * Console: the standard streams as [main] uses them

    [main] (main.cpp 176-191) writes to [std::cout] and [std::cerr], reads
    one line of [std::cin], and catches the exceptions of the pipeline.

    - [st S A]: a computation on a state [S] that returns an [A], throws,
      or has undefined behaviour; the state is threaded through all three
      outcomes, so that what was written before a [throw] stays written;
      [lift] is a call of a function of the program, [try_catch] is
      [try { body } catch (const std::exception& e) { handler }], the
      handler receiving [e.what()];
    - [item]: what is inserted into a stream with [<<], a text or the
      manipulator [std::endl];
    - [Streams S]: the interface of the three streams on a state [S]:
      [cout] and [cerr] are [stream << item], [getline] is
      [std::getline(std::cin, line)];
    - [console], [io]: the simplest implementation, which keeps what is
      left to read and what has been written to each output stream;
      [std::endl] is a newline there.  [Terminal] implements the
      interface with the buffer of [std::cout] and the order of the
      events;
    - [refines], [Refinement]: a computation on one state implements a
      computation on another through an abstraction function, and an
      implementation of [Streams] implements another operation by
      operation;
    - [Iostream]: [operator<<(double)], a routine of the C++ library, as
      an interface. *)

From Stdlib Require Import ZArith Ascii List Floats.
From stdpp Require Import base tactics option list.
From S2P Require Import Prelude.
Local Open Scope str_scope.

(** ** Computations on a state *)

Definition st (S A : Type) : Type := S → S * result A.

#[export] Instance st_ret {S} : MRet (st S) := λ A a s, (s, Ok a).

#[export] Instance st_bind {S} : MBind (st S) := λ A B f m s,
  match m s with
  | (s', Ok a) => f a s'
  | (s', Throw what) => (s', Throw what)
  | (s', Undefined) => (s', Undefined)
  end.

Definition lift {S A} (r : result A) : st S A := λ s, (s, r).

Definition try_catch {S A} (body : st S A) (handler : str → st S A) : st S A := λ s,
  match body s with
  | (s', Throw what) => handler what s'
  | outcome => outcome
  end.

(** ** The interface of the streams *)

Definition newline : ascii := "010"%char.

(** The right operand of [<<]. *)
Inductive item :=
| text (s : str)
| endl.

#[warning="-uniform-inheritance"] Coercion text : str >-> item.

(** The characters an item adds to its stream. *)
Definition chars_of (x : item) : str :=
  match x with
  | text s => s
  | endl => [newline]
  end.

Class Streams (S : Type) := {
  cout : item → st S unit;
  cerr : item → st S unit;
  getline : st S str;
}.

(** The text of a [double] as [operator<<] writes it. *)
Class Iostream := { put_double : float → str }.

(** ** The streams as three texts *)

Record console := Console {
  stdin : str;
  stdout : str;
  stderr : str;
}.

(** A console on which nothing has been written yet. *)
Definition start (input : str) : console :=
  {| stdin := input; stdout := []; stderr := [] |}.

Abbreviation io := (st console).

Definition console_cout (x : item) : io unit := λ c,
  ({| stdin := stdin c; stdout := stdout c ++ chars_of x; stderr := stderr c |}, Ok tt).

Definition console_cerr (x : item) : io unit := λ c,
  ({| stdin := stdin c; stdout := stdout c; stderr := stderr c ++ chars_of x |}, Ok tt).

(** The first line of a text and what follows its newline. *)
Fixpoint read_line (s : str) : str * str :=
  match s with
  | [] => ([], [])
  | ch :: s' =>
      if bool_decide (ch = newline) then ([], s')
      else let '(line, rest) := read_line s' in (ch :: line, rest)
  end.

Definition console_getline : io str := λ c,
  let '(line, rest) := read_line (stdin c) in
  ({| stdin := rest; stdout := stdout c; stderr := stderr c |}, Ok line).

#[export] Instance console_streams : Streams console :=
  {| cout := console_cout; cerr := console_cerr; getline := console_getline |}.

(** ** Refinement *)

(** The computation [m1] on [S1] implements [m2] on [S2]: from related
    states they return the same outcome in related states. *)
Definition refines {S1 S2 A} (abs : S1 → S2) (m1 : st S1 A) (m2 : st S2 A) : Prop :=
  ∀ s, m2 (abs s) = (abs (m1 s).1, (m1 s).2).

(** An implementation of the streams implements another. *)
Class Refinement {S1 S2} (abs : S1 → S2) `{Streams S1} `{Streams S2} : Prop := {
  cout_refines x : refines abs (cout x) (cout x);
  cerr_refines x : refines abs (cerr x) (cerr x);
  getline_refines : refines abs getline getline;
}.

Create HintDb refine.

(** ** Properties *)

Section st.
Context {S A B : Type}.
Implicit Types (s : S) (m : st S A) (f : A → st S B) (r : result A).

Lemma st_bind_ret (a : A) f s : (mret a ≫= f) s = f a s.
Proof. done. Qed.

Lemma st_bind_lift r f s :
  (lift r ≫= f) s =
    match r with
    | Ok a => f a s
    | Throw what => (s, Throw what)
    | Undefined => (s, Undefined)
    end.
Proof. by destruct r. Qed.

Lemma try_catch_Ok (body : st S A) handler s s' a :
  body s = (s', Ok a) → try_catch body handler s = (s', Ok a).
Proof. unfold try_catch. by intros ->. Qed.

Lemma try_catch_Throw (body : st S A) handler s s' what :
  body s = (s', Throw what) → try_catch body handler s = handler what s'.
Proof. unfold try_catch. by intros ->. Qed.

(** Undefined behaviour is not an exception: no handler sees it. *)
Lemma try_catch_Undefined (body : st S A) handler s s' :
  body s = (s', Undefined) → try_catch body handler s = (s', Undefined).
Proof. unfold try_catch. by intros ->. Qed.

End st.

Section refines.
Context {S1 S2 : Type} (abs : S1 → S2).

Lemma refines_ret {A} (a : A) : refines abs (mret a) (mret a).
Proof. done. Qed.

Lemma refines_lift {A} (r : result A) : refines abs (lift r) (lift r).
Proof. done. Qed.

Lemma refines_bind {A B} (m1 : st S1 A) m2 (f1 : A → st S1 B) f2 :
  refines abs m1 m2 → (∀ a, refines abs (f1 a) (f2 a)) →
  refines abs (m1 ≫= f1) (m2 ≫= f2).
Proof.
  intros Hm Hf s. unfold mbind, st_bind. rewrite Hm.
  destruct (m1 s) as [s' [a| |]]; [apply Hf|done..].
Qed.

Lemma refines_try_catch {A} (m1 : st S1 A) m2 h1 h2 :
  refines abs m1 m2 → (∀ what, refines abs (h1 what) (h2 what)) →
  refines abs (try_catch m1 h1) (try_catch m2 h2).
Proof.
  intros Hm Hh s. unfold try_catch. rewrite Hm.
  destruct (m1 s) as [s' [a| |]]; [done|apply Hh|done].
Qed.

End refines.

(** Refinements compose. *)
Lemma refines_compose {S1 S2 S3 A} (abs1 : S1 → S2) (abs2 : S2 → S3)
    (m1 : st S1 A) m2 m3 :
  refines abs1 m1 m2 → refines abs2 m2 m3 → refines (abs2 ∘ abs1) m1 m3.
Proof. intros H12 H23 s. simpl. by rewrite H23, H12. Qed.

#[export] Hint Resolve refines_ret refines_lift refines_bind refines_try_catch
  cout_refines cerr_refines getline_refines : refine.

(** Refinements compose. *)
#[export] Instance refinement_compose {S1 S2 S3} (abs1 : S1 → S2) (abs2 : S2 → S3)
    `{!Streams S1} `{!Streams S2} `{!Streams S3}
    `{!Refinement abs1} `{!Refinement abs2} : Refinement (abs2 ∘ abs1).
Proof. split; intros; eapply refines_compose; eauto with refine. Qed.

Section read_line.
Implicit Types (s line rest : str).

(** A line that ends with a newline is read as it is. *)
Lemma read_line_newline line rest :
  newline ∉ line → read_line (line ++ [newline] ++ rest) = (line, rest).
Proof.
  induction line as [|ch line IH]; [done|]. intros Hin. simpl in *.
  rewrite bool_decide_eq_false_2 by (intros ->; apply Hin; left).
  rewrite IH; [done|]. intros ?. apply Hin. by right.
Qed.

(** At the end of the input the line is what was left. *)
Lemma read_line_eof line : newline ∉ line → read_line line = (line, []).
Proof.
  induction line as [|ch line IH]; [done|]. intros Hin. simpl.
  rewrite bool_decide_eq_false_2 by (intros ->; apply Hin; left).
  rewrite IH; [done|]. intros ?. apply Hin. by right.
Qed.

(** The line and the rest make up the input, but for the newline. *)
Lemma read_line_input s :
  (newline ∉ (read_line s).1) ∧
  (s = (read_line s).1 ++ [newline] ++ (read_line s).2 ∨
   s = (read_line s).1 ∧ (read_line s).2 = []).
Proof.
  induction s as [|ch s IH]; simpl.
  - split; [by intros ?%elem_of_nil|by right].
  - case_bool_decide as Hch; [subst; split; [by intros ?%elem_of_nil|by left]|].
    destruct (read_line s) as [line rest]. simpl in *. destruct IH as [Hin Hs].
    split; [by intros [?|?]%elem_of_cons|].
    destruct Hs as [->|[-> ->]]; [by left|by right].
Qed.

End read_line.
