(* ===== verification/Terminal.v ===== *)
(** * Terminal: the buffer of [std::cout] and the order of the events

    Two more implementations of [Console.Streams], below the three texts
    of [console].

    - [display]: the terminal as the user sees it, a sequence of
      [event]s: a line read from the keyboard, or characters written by
      one of the two output streams.  Writes of the same stream that
      follow one another are one write on the screen ([merge]).
    - [terminal]: the streams as the C++ library runs them.  What is
      written to [std::cout] goes to a buffer, [buffer], and reaches the
      [device] when the buffer is flushed: by [std::endl], before every
      read of [std::cin] and before every write to [std::cerr], to which
      [std::cout] is tied, at [exit], and whenever the library decides
      to, which the field [early] stands for (line buffering, a full
      buffer, no buffering at all).  [std::cerr] is not buffered.

    [terminal_display] and [display_console] show that each
    implementation refines the next through [displayed] and
    [streams_of], operation by operation: what a program built from the
    operations shows on the screen does not depend on when the library
    flushes, and the texts of [console] are what the screen shows of each
    stream. *)

From Stdlib Require Import ZArith Ascii List.
From stdpp Require Import base tactics option list.
From S2P Require Import Prelude Console.
Local Open Scope str_scope.

(** ** Events *)

Inductive ostream := Cout | Cerr.

#[export] Instance ostream_eq_dec : EqDecision ostream.
Proof. solve_decision. Defined.

Inductive event :=
| Read (line : str)
| Write (os : ostream) (s : str).

(** An event in front of a screen: a write joins a write of the same
    stream, and a write of nothing is not seen. *)
Definition join (ev : event) (evs : list event) : list event :=
  match ev, evs with
  | Read _, _ => ev :: evs
  | Write os a, Write os' b :: rest =>
      if decide (os = os') then Write os (a ++ b) :: rest
      else match a with [] => evs | _ => ev :: evs end
  | Write os a, _ => match a with [] => evs | _ => ev :: evs end
  end.
Global Arguments join : simpl nomatch.

(** What a sequence of events looks like on the screen. *)
Fixpoint merge (evs : list event) : list event :=
  match evs with
  | [] => []
  | ev :: evs => join ev (merge evs)
  end.

(** The characters one stream has written. *)
Fixpoint output_of (os : ostream) (evs : list event) : str :=
  match evs with
  | [] => []
  | Write os' s :: evs => if decide (os = os') then s ++ output_of os evs else output_of os evs
  | Read _ :: evs => output_of os evs
  end.

(** No two writes of one stream in a row, and no empty write. *)
Fixpoint normal (evs : list event) : Prop :=
  match evs with
  | [] => True
  | Read _ :: evs => normal evs
  | Write os a :: evs =>
      a ≠ [] ∧ normal evs ∧
      match evs with Write os' _ :: _ => os ≠ os' | _ => True end
  end.

(** ** The screen *)

Record display := Display {
  unread : str;
  shown : list event;
}.

Definition switch_on (input : str) : display := {| unread := input; shown := [] |}.

(** The screen after more events. *)
Definition shows (evs : list event) (d : display) : display :=
  {| unread := unread d; shown := merge (shown d ++ evs) |}.
Global Arguments shows : simpl never.

Definition display_cout (x : item) : st display unit := λ d,
  (shows [Write Cout (chars_of x)] d, Ok tt).

Definition display_cerr (x : item) : st display unit := λ d,
  (shows [Write Cerr (chars_of x)] d, Ok tt).

Definition display_getline : st display str := λ d,
  let '(line, rest) := read_line (unread d) in
  (shows [Read line] {| unread := rest; shown := shown d |}, Ok line).

#[export] Instance display_streams : Streams display :=
  {| cout := display_cout; cerr := display_cerr; getline := display_getline |}.

(** ** The buffered streams *)

Record terminal := Terminal {
  early : str → bool;
  keyboard : str;
  buffer : str;
  device : list event;
}.

Definition boot (policy : str → bool) (input : str) : terminal :=
  {| early := policy; keyboard := input; buffer := []; device := [] |}.

(** Three policies: no buffer, a buffer flushed at each end of line, and a
    buffer that is never full. *)
Definition unbuffered : str → bool := λ _, true.

Definition line_buffered : str → bool := λ buffer, bool_decide (newline ∈ buffer).

Definition fully_buffered : str → bool := λ _, false.

(** [std::cout.flush()]: the buffer goes to the device. *)
Definition flush (t : terminal) : terminal :=
  match buffer t with
  | [] => t
  | _ => {| early := early t; keyboard := keyboard t; buffer := [];
            device := device t ++ [Write Cout (buffer t)] |}
  end.

Definition is_endl (x : item) : bool :=
  match x with
  | endl => true
  | text _ => false
  end.

(** [std::cout << x]: into the buffer, which [std::endl] flushes and the
    library may flush. *)
Definition terminal_cout (x : item) : st terminal unit := λ t,
  let t' := {| early := early t; keyboard := keyboard t;
               buffer := buffer t ++ chars_of x; device := device t |} in
  (if is_endl x || early t (buffer t') then flush t' else t', Ok tt).

(** [std::cerr << x]: [std::cout] is flushed first, and the characters go
    to the device at once. *)
Definition terminal_cerr (x : item) : st terminal unit := λ t,
  let t' := flush t in
  ({| early := early t'; keyboard := keyboard t'; buffer := buffer t';
      device := device t' ++ [Write Cerr (chars_of x)] |}, Ok tt).

(** [std::getline(std::cin, line)]: [std::cout] is flushed first. *)
Definition terminal_getline : st terminal str := λ t,
  let t' := flush t in
  let '(line, rest) := read_line (keyboard t') in
  ({| early := early t'; keyboard := rest; buffer := buffer t';
      device := device t' ++ [Read line] |}, Ok line).

#[export] Instance terminal_streams : Streams terminal :=
  {| cout := terminal_cout; cerr := terminal_cerr; getline := terminal_getline |}.

(** The end of the program flushes [std::cout]. *)
Definition exit (t : terminal) : terminal := flush t.

(** ** The abstractions *)

(** What the screen shows once the buffer is flushed. *)
Definition displayed (t : terminal) : display :=
  {| unread := keyboard t; shown := merge (device t ++ [Write Cout (buffer t)]) |}.

(** What each stream holds. *)
Definition streams_of (d : display) : console :=
  {| stdin := unread d; stdout := output_of Cout (shown d);
     stderr := output_of Cerr (shown d) |}.

(** ** Properties of the screen *)

Section screen.
Implicit Types (ev : event) (evs l : list event) (os : ostream) (a b : str) (d : display).

Lemma join_empty os evs : join (Write os []) evs = evs.
Proof. unfold join. destruct evs as [|[|os' b] rest]; [done..|]. by case_decide; subst. Qed.

Lemma join_join os a b evs :
  join (Write os a) (join (Write os b) evs) = join (Write os (a ++ b)) evs.
Proof.
  unfold join. destruct evs as [|[line|os' c] rest], a as [|x a], b as [|y b]; simpl;
    repeat case_decide; simplify_eq/=; by rewrite ?app_nil_r, <-?app_assoc.
Qed.

Lemma join_normal ev evs : normal evs → normal (join ev evs).
Proof.
  destruct ev as [line|os a]; [done|]. unfold join.
  destruct evs as [|[line|os' b] rest], a as [|x a]; simpl; try done.
  - case_decide; [subst|done]. intros (Hb & Hr & Hh). by destruct b.
  - case_decide; [subst|done]. by intros (Hb & Hr & Hh).
Qed.

Lemma merge_normal evs : normal (merge evs).
Proof. induction evs; [done|]. by apply join_normal. Qed.

Lemma normal_merge evs : normal evs → merge evs = evs.
Proof.
  induction evs as [|[line|os a] evs IH]; simpl; [done|by intros ->%IH|].
  intros (Ha & ->%IH & Hh). unfold join.
  destruct evs as [|[line|os' b] rest], a; simpl; try done. by rewrite decide_False.
Qed.

Lemma merge_idemp evs : merge (merge evs) = merge evs.
Proof. apply normal_merge, merge_normal. Qed.

(** The screen of a sequence is the screen of the screens of its parts. *)
Lemma merge_app_r l1 l2 : merge (l1 ++ merge l2) = merge (l1 ++ l2).
Proof. induction l1 as [|ev l1 IH]; simpl; [apply merge_idemp|by rewrite IH]. Qed.

Lemma merge_join_app ev l1 l2 : merge (join ev l1 ++ l2) = join ev (merge (l1 ++ l2)).
Proof.
  destruct ev as [line|os a]; [done|]. unfold join at 1.
  destruct l1 as [|[line|os' b] rest], a as [|x a]; try case_decide; subst; simpl;
    by rewrite ?join_empty, ?join_join.
Qed.

Lemma merge_app_l l1 l2 : merge (merge l1 ++ l2) = merge (l1 ++ l2).
Proof.
  induction l1 as [|ev l1 IH]; [done|]. simpl. by rewrite merge_join_app, IH.
Qed.

(** Two writes of one stream are one write, and a write of nothing is
    none. *)
Lemma merge_write_write l os a b l' :
  merge (l ++ Write os a :: Write os b :: l') = merge (l ++ Write os (a ++ b) :: l').
Proof.
  rewrite <-merge_app_r, <-(merge_app_r l (_ :: l')). simpl. by rewrite join_join.
Qed.

Lemma merge_write_empty l os l' : merge (l ++ Write os [] :: l') = merge (l ++ l').
Proof. rewrite <-merge_app_r, <-(merge_app_r l l'). simpl. by rewrite join_empty. Qed.

Lemma output_of_join os ev evs : output_of os (join ev evs) = output_of os (ev :: evs).
Proof.
  destruct ev as [line|os1 a]; [done|]. unfold join.
  destruct evs as [|[line|os2 b] rest], a as [|x a]; simpl;
    repeat (case_decide; simplify_eq/=); by rewrite ?app_nil_r, <-?app_assoc.
Qed.

Lemma output_of_merge os evs : output_of os (merge evs) = output_of os evs.
Proof.
  induction evs as [|ev evs IH]; [done|]. simpl. rewrite output_of_join.
  destruct ev; simpl; by rewrite IH.
Qed.

Lemma output_of_app os l1 l2 : output_of os (l1 ++ l2) = output_of os l1 ++ output_of os l2.
Proof.
  induction l1 as [|[line|os' a] l1 IH]; simpl; [done..|].
  case_decide; by rewrite IH, ?app_assoc.
Qed.

Lemma shows_shows l1 l2 d : shows l2 (shows l1 d) = shows (l1 ++ l2) d.
Proof. unfold shows. simpl. by rewrite merge_app_l, app_assoc. Qed.

End screen.

(** ** The buffer *)

Section flushing.
Implicit Types (t : terminal) (x : item).

Lemma flush_buffer t : buffer (flush t) = [].
Proof. unfold flush. by destruct (buffer t) eqn:E. Qed.

Lemma flush_keyboard t : keyboard (flush t) = keyboard t.
Proof. unfold flush. by destruct (buffer t). Qed.

(** A flush is not seen. *)
Lemma flush_displayed t : displayed (flush t) = displayed t.
Proof.
  unfold flush, displayed. destruct (buffer t) as [|c p] eqn:E; simpl; [by rewrite E|].
  rewrite <-app_assoc. simpl. by rewrite (merge_write_write _ Cout (c :: p) []), app_nil_r.
Qed.

(** After a flush the device holds what the screen shows. *)
Lemma flush_device t : merge (device (flush t)) = shown (displayed t).
Proof.
  rewrite <-flush_displayed. unfold displayed. simpl.
  by rewrite flush_buffer, merge_write_empty, app_nil_r.
Qed.

Lemma displayed_boot policy s : displayed (boot policy s) = switch_on s.
Proof. done. Qed.

End flushing.

(** ** The refinements *)

#[export] Instance terminal_display : Refinement displayed.
Proof.
  split.
  - intros x t. unfold cout; simpl. unfold terminal_cout, display_cout, shows.
    set (t' := Terminal _ _ _ _).
    assert (displayed t' = {| unread := unread (displayed t);
              shown := merge (shown (displayed t) ++ [Write Cout (chars_of x)]) |}) as <-.
    { unfold displayed. simpl.
      rewrite merge_app_l, <-app_assoc. simpl. by rewrite (merge_write_write _ Cout). }
    by destruct (_ || _); simpl; rewrite ?flush_displayed.
  - intros x t. unfold cerr; simpl. unfold terminal_cerr, display_cerr, shows.
    rewrite <-(flush_displayed t). unfold displayed. simpl.
    rewrite flush_buffer, merge_app_l, (merge_write_empty _ Cout []), app_nil_r.
    rewrite <-app_assoc. simpl. by rewrite merge_write_empty.
  - intros t. unfold getline; simpl. unfold terminal_getline, display_getline.
    rewrite <-(flush_displayed t). unfold displayed at 1. simpl.
    destruct (read_line (keyboard (flush t))) as [line rest]. unfold displayed, shows. simpl.
    rewrite flush_buffer, merge_app_l, (merge_write_empty _ Cout []), app_nil_r.
    rewrite <-app_assoc. simpl. by rewrite merge_write_empty.
Qed.

#[export] Instance display_console : Refinement streams_of.
Proof.
  split.
  - intros x d. unfold cout; simpl. unfold display_cout, console_cout, streams_of, shows.
    simpl. rewrite !output_of_merge, !output_of_app. simpl. by rewrite !app_nil_r.
  - intros x d. unfold cerr; simpl. unfold display_cerr, console_cerr, streams_of, shows.
    simpl. rewrite !output_of_merge, !output_of_app. simpl. by rewrite !app_nil_r.
  - intros d. unfold getline; simpl. unfold display_getline, console_getline.
    simpl. destruct (read_line (unread d)) as [line rest]. unfold streams_of, shows. simpl.
    rewrite !output_of_merge, !output_of_app. simpl. by rewrite !app_nil_r.
Qed.

#[export] Hint Resolve terminal_display display_console : refine.
