(* ===== verification/Format.v ===== *)
(** * Format: the text of a [double], as [std::cout << x] writes it

    [operator<<(double)] with the default flags of a stream formats as
    [printf("%g")] does with precision 6.  [printf_g] is that conversion as
    the GNU C library performs it, exactly: the binary value is rounded to
    six significant decimal digits, to nearest with ties to even, and
    written in fixed notation when the decimal exponent lies between -4
    and 5, in scientific notation otherwise, without trailing zeros.

    - [round6] gives the six digits and the decimal exponent of a
      positive fraction, [layout] their text, [fraction] the value of a
      finite float as a fraction of integers;
    - [round6_spec]: the digits are a number of six digits, and the
      fraction scaled by the exponent is within one half of it
      ([between], [nearest]);
    - [printf_g_finite]: the text of a finite float is the layout of
      such digits;
    - [digits_of_length], [decimal_exponent_spec]: a numeral of [k + 1]
      digits lies between [10 ^ k] and [10 ^ (k + 1)], which is how the
      exponent is found.

    [gnu_iostream] is the instance of [Console.Iostream] used in concrete
    runs and in [Driver.result_rounded]; the other theorems of the
    development hold for every instance.  The sign of a NaN is not part
    of a kernel float: [printf_g] writes [nan] where the C library may
    write [-nan].  The fuel of [digits_from] is the number of binary
    digits, which no number of decimal digits exceeds. *)

From Stdlib Require Import ZArith Ascii List Floats.
From stdpp Require Import base tactics list.
From S2P Require Import Prelude Console.
Local Open Scope str_scope.
Local Open Scope Z_scope.

(** ** Decimal numerals *)

Definition digit_char (d : Z) : ascii := ascii_of_N (Z.to_N (48 + d)).

(** The decimal digits of [n] in front of [acc]; [fuel] bounds their
    number. *)
Fixpoint digits_from (fuel : nat) (n : Z) (acc : str) : str :=
  match fuel with
  | O => acc
  | S fuel =>
      let acc := digit_char (n mod 10) :: acc in
      if n <? 10 then acc else digits_from fuel (n / 10) acc
  end.

(** The decimal numeral of a natural number, without leading zeros.  A
    number has no more decimal digits than binary ones. *)
Definition digits_of (n : Z) : str := digits_from (S (Z.to_nat (Z.log2 n))) n [].

(** ** Rounding to six digits *)

(** [a / b] rounded to the nearest integer, ties to even. *)
Definition round_div (a b : Z) : Z :=
  let q := a / b in
  match 2 * (a mod b) ?= b with
  | Lt => q
  | Gt => q + 1
  | Eq => if Z.even q then q else q + 1
  end.

(** [num / den * 10 ^ s] as a fraction. *)
Definition scale10 (num den s : Z) : Z * Z :=
  if 0 <=? s then (num * 10 ^ s, den) else (num, den * 10 ^ (- s)).

(** [num / den * 10 ^ s], rounded. *)
Definition scaled (num den s : Z) : Z :=
  let '(a, b) := scale10 num den s in round_div a b.

(** The exponent [x] with [10 ^ x <= num / den < 10 ^ (x + 1)]. *)
Definition decimal_exponent (num den : Z) : Z :=
  if den <=? num then Z.of_nat (length (digits_of (num / den))) - 1
  else - Z.of_nat (length (digits_of ((den - 1) / num))).

(** ** Writing the digits *)

(** Without its trailing zeros. *)
Fixpoint strip_zeros (ds : str) : str :=
  match ds with
  | [] => []
  | d :: ds' =>
      match strip_zeros ds' with
      | [] => if bool_decide (d = "0"%char) then [] else [d]
      | r => d :: r
      end
  end.

(** The point is written only in front of a digit. *)
Definition with_point (int frac : str) : str :=
  match frac with
  | [] => int
  | _ => int ++ "." ++ frac
  end.

(** A sign and at least two digits. *)
Definition exponent_text (x : Z) : str :=
  (if x <? 0 then "-" else "+") ++
  match digits_of (Z.abs x) with
  | [d] => ["0"%char; d]
  | ds => ds
  end.

(** Six significant digits [n] and the decimal exponent [x] of the
    first: [num / den] is [n * 10 ^ (x - 5)], nearly.  Rounding up to
    seven digits moves the exponent. *)
Definition round6 (num den : Z) : Z * Z :=
  let x0 := decimal_exponent num den in
  let n0 := scaled num den (5 - x0) in
  if 1000000 <=? n0 then (100000, x0 + 1) else (n0, x0).

(** The text of the digits [n] with the exponent [x]: scientific notation
    when [x < -4] or [x >= 6], fixed notation otherwise, without trailing
    zeros. *)
Definition layout (neg : bool) (n x : Z) : str :=
  let ds := digits_of n in
  (if neg then "-" else "") ++
  if (x <? -4) || (6 <=? x) then
    with_point (take 1 ds) (strip_zeros (drop 1 ds)) ++ "e" ++ exponent_text x
  else if 0 <=? x then
    with_point (take (Z.to_nat (x + 1)) ds) (strip_zeros (drop (Z.to_nat (x + 1)) ds))
  else
    "0." ++ replicate (Z.to_nat (- x - 1)) "0"%char ++ strip_zeros ds.

(** [%g] on the positive rational [num / den], with its sign. *)
Definition format_g (neg : bool) (num den : Z) : str :=
  let '(n, x) := round6 num den in layout neg n x.

(** The value [m * 2 ^ e] of a finite float, as a fraction. *)
Definition fraction (m : positive) (e : Z) : Z * Z :=
  if 0 <=? e then (Z.pos m * 2 ^ e, 1) else (Z.pos m, 2 ^ (- e)).

Definition printf_g (x : float) : str :=
  match Prim2SF x with
  | S754_zero s => if s then "-0" else "0"
  | S754_infinity s => if s then "-inf" else "inf"
  | S754_nan => "nan"
  | S754_finite s m e => let '(num, den) := fraction m e in format_g s num den
  end.

Definition gnu_iostream : Iostream := {| put_double := printf_g |}.

(** ** What the rounding promises *)

(** The fraction [p] lies in [[lo, hi)]. *)
Definition between (lo hi : Z) (p : Z * Z) : Prop := lo * p.2 ≤ p.1 < hi * p.2.

(** The integer [n] is within one half of the fraction [p]. *)
Definition nearest (n : Z) (p : Z * Z) : Prop := Z.abs (2 * (p.1 - p.2 * n)) ≤ p.2.

(** ** Properties of the rounding *)

Section rounding.
Implicit Types (a b : Z).

(** The quotient is within half a unit of the exact ratio. *)
Lemma round_div_nearest a b :
  0 < b → Z.abs (2 * (a - b * round_div a b)) ≤ b.
Proof.
  intros Hb. unfold round_div.
  pose proof (Z.div_mod a b ltac:(lia)) as Hdiv.
  pose proof (Z.mod_pos_bound a b Hb) as Hmod.
  set (q := a / b) in *. set (r := a mod b) in *. clearbody q r. subst a.
  destruct (Z.compare_spec (2 * r) b); [destruct (Z.even q)| |]; nia.
Qed.

(** An exact quotient is not changed. *)
Lemma round_div_exact a b : 0 < b → a mod b = 0 → round_div a b = a / b.
Proof.
  intros Hb Hmod. unfold round_div. rewrite Hmod.
  by destruct (Z.compare_spec (2 * 0) b); try lia.
Qed.

(** On a tie the even neighbour is taken. *)
Lemma round_div_tie a b :
  0 < b → 2 * (a mod b) = b → Z.even (round_div a b) = true.
Proof.
  intros Hb Htie. unfold round_div. rewrite Htie, Z.compare_refl.
  destruct (Z.even (a / b)) eqn:He; [done|].
  by rewrite Z.even_add, He.
Qed.

(** Rounding to the nearest integer stays within integer bounds. *)
Lemma round_div_between lo hi a b :
  0 < b → lo * b ≤ a < hi * b → lo ≤ round_div a b ≤ hi.
Proof.
  intros Hb Hab. unfold round_div.
  pose proof (Z.div_mod a b ltac:(lia)) as Hdiv.
  pose proof (Z.mod_pos_bound a b Hb) as Hmod.
  set (q := a / b) in *. set (r := a mod b) in *. clearbody q r. subst a.
  assert (lo ≤ q < hi) by nia.
  destruct (Z.compare_spec (2 * r) b); [destruct (Z.even q)| |]; nia.
Qed.

End rounding.

(** ** Properties of the numerals *)

Section digits.
Implicit Types (n num den : Z) (fuel k : nat) (acc : str).

(** A numeral of [k + 1] digits is a number from [10 ^ k] up to
    [10 ^ (k + 1)]. *)
Lemma digits_from_length fuel n acc :
  0 < n < 10 ^ Z.of_nat fuel →
  ∃ k, length (digits_from fuel n acc) = (S k + length acc)%nat ∧
       10 ^ Z.of_nat k ≤ n < 10 ^ Z.of_nat (S k).
Proof.
  revert n acc; induction fuel as [|fuel IH]; intros n acc Hn; [simpl in Hn; lia|].
  cbn [digits_from]. destruct (Z.ltb_spec n 10) as [Hlt|Hge].
  { exists 0%nat. split; [done|simpl; lia]. }
  rewrite Nat2Z.inj_succ, Z.pow_succ_r in Hn by lia.
  destruct (IH (n / 10) (digit_char (n mod 10) :: acc)) as (k & Hlen & Hk).
  { split; [apply Z.div_str_pos; lia|apply Z.div_lt_upper_bound; lia]. }
  exists (S k). rewrite Hlen. split; [simpl; lia|].
  rewrite !Nat2Z.inj_succ, !Z.pow_succ_r in * by lia.
  pose proof (Z.div_mod n 10 ltac:(lia)). pose proof (Z.mod_pos_bound n 10 ltac:(lia)).
  lia.
Qed.

(** The fuel of [digits_of] is enough. *)
Lemma digits_fuel n : 0 ≤ n → n < 10 ^ Z.of_nat (S (Z.to_nat (Z.log2 n))).
Proof.
  intros Hn. destruct (decide (n = 0)) as [->|Hz]; [done|].
  pose proof (Z.log2_spec n ltac:(lia)) as [_ Hlog].
  pose proof (Z.log2_nonneg n). rewrite Nat2Z.inj_succ, Z2Nat.id by done.
  eapply Z.lt_le_trans; [exact Hlog|]. apply Z.pow_le_mono_l. lia.
Qed.

Lemma digits_of_length n :
  0 < n → ∃ k, length (digits_of n) = S k ∧ 10 ^ Z.of_nat k ≤ n < 10 ^ Z.of_nat (S k).
Proof.
  intros Hn.
  destruct (digits_from_length (S (Z.to_nat (Z.log2 n))) n []) as (k & Hlen & Hk).
  { split; [done|]. apply digits_fuel. lia. }
  exists k. simpl in Hlen. by rewrite Nat.add_0_r in Hlen.
Qed.

End digits.

(** ** Properties of the six digits *)

Section six_digits.
Implicit Types (n num den s x lo hi : Z).

Lemma scale10_pos num den s :
  0 < num → 0 < den → 0 < (scale10 num den s).1 ∧ 0 < (scale10 num den s).2.
Proof. intros Hn Hd. unfold scale10. case_match; simpl; split; nia. Qed.

(** One more power of ten multiplies the numerator or divides the
    denominator. *)
Lemma scale10_succ num den s :
  let p := scale10 num den s in
  let p' := scale10 num den (s + 1) in
  p'.1 = 10 * p.1 ∧ p'.2 = p.2 ∨ p'.1 = p.1 ∧ p.2 = 10 * p'.2.
Proof.
  unfold scale10. destruct (Z.leb_spec 0 s), (Z.leb_spec 0 (s + 1)); simpl; try lia.
  - left. rewrite Z.pow_add_r by lia. lia.
  - right. assert (s = -1) as -> by lia. simpl. lia.
  - right. replace (- s) with (Z.succ (- (s + 1))) by lia.
    rewrite Z.pow_succ_r by lia. lia.
Qed.

Lemma between_succ num den s lo hi :
  0 < den → between lo hi (scale10 num den s) →
  between (10 * lo) (10 * hi) (scale10 num den (s + 1)).
Proof.
  intros Hd. unfold between.
  pose proof (scale10_succ num den s) as [[-> ->]|[-> ->]]; simpl; lia.
Qed.

(** The decimal exponent is that of the first digit. *)
Lemma decimal_exponent_spec num den :
  0 < num → 0 < den → between 1 10 (scale10 num den (- decimal_exponent num den)).
Proof.
  intros Hn Hd. unfold decimal_exponent, between, scale10.
  destruct (Z.leb_spec den num) as [Hle|Hlt].
  - destruct (digits_of_length (num / den)) as (k & -> & Hk); [apply Z.div_str_pos; lia|].
    pose proof (Z.div_mod num den ltac:(lia)). pose proof (Z.mod_pos_bound num den Hd).
    rewrite Nat2Z.inj_succ, Z.pow_succ_r in Hk by lia.
    replace (Z.of_nat (S k) - 1) with (Z.of_nat k) by lia.
    destruct (Z.leb_spec 0 (- Z.of_nat k)); simpl.
    + assert (k = 0%nat) as -> by lia. simpl in *. nia.
    + rewrite Z.opp_involutive. nia.
  - destruct (digits_of_length ((den - 1) / num)) as (k & -> & Hk);
      [apply Z.div_str_pos; lia|].
    pose proof (Z.div_mod (den - 1) num ltac:(lia)).
    pose proof (Z.mod_pos_bound (den - 1) num Hn).
    rewrite Z.opp_involutive, Nat2Z.inj_succ.
    destruct (Z.leb_spec 0 (Z.succ (Z.of_nat k))); [|lia].
    rewrite Nat2Z.inj_succ in Hk. rewrite Z.pow_succ_r in * by lia. simpl. nia.
Qed.

Lemma between_five num den s :
  0 < den → between 1 10 (scale10 num den s) →
  between 100000 1000000 (scale10 num den (s + 5)).
Proof.
  intros Hd H0. do 5 apply (between_succ _ _ _ _ _ Hd) in H0.
  by replace (s + 1 + 1 + 1 + 1 + 1) with (s + 5) in H0 by lia.
Qed.

(** Moving the exponent with the carry keeps the digits nearest. *)
Lemma nearest_carry num den s :
  0 < num → 0 < den → nearest 1000000 (scale10 num den (s + 1)) →
  nearest 100000 (scale10 num den s).
Proof.
  intros Hn Hd. unfold nearest. pose proof (scale10_pos num den s Hn Hd) as [_ Hp].
  pose proof (scale10_succ num den s) as [[-> ->]|[-> Hb]]; simpl; [lia|].
  rewrite Hb in *. lia.
Qed.

(** The six digits: a number of six digits, nearest to the value scaled
    by the exponent. *)
Lemma round6_spec num den :
  0 < num → 0 < den →
  100000 ≤ (round6 num den).1 < 1000000 ∧
  nearest (round6 num den).1 (scale10 num den (5 - (round6 num den).2)).
Proof.
  intros Hn Hd. unfold round6, scaled. set (x0 := decimal_exponent num den).
  pose proof (between_five num den (- x0) Hd (decimal_exponent_spec num den Hn Hd)) as Hb.
  replace (- x0 + 5) with (5 - x0) in Hb by lia.
  pose proof (scale10_pos num den (5 - x0) Hn Hd) as [_ Hp].
  destruct (scale10 num den (5 - x0)) as [a b] eqn:Hs. simpl in *.
  pose proof (round_div_between 100000 1000000 a b Hp Hb) as Hr.
  pose proof (round_div_nearest a b Hp) as Hnear.
  destruct (Z.leb_spec 1000000 (round_div a b)) as [Hc|Hc]; simpl.
  - split; [lia|]. apply nearest_carry; [done..|].
    replace (5 - (x0 + 1) + 1) with (5 - x0) by lia. rewrite Hs. unfold nearest. simpl.
    by replace 1000000 with (round_div a b) by lia.
  - split; [lia|]. by rewrite Hs.
Qed.

(** [%g] on a finite value: the layout of its six digits. *)
Lemma printf_g_finite v (sign : bool) m e :
  Prim2SF v = S754_finite sign m e →
  let '(num, den) := fraction m e in
  let '(n, x) := round6 num den in
  printf_g v = layout sign n x ∧ 100000 ≤ n < 1000000 ∧
  nearest n (scale10 num den (5 - x)).
Proof.
  intros Hv. unfold printf_g, format_g. rewrite Hv.
  assert (0 < (fraction m e).1 ∧ 0 < (fraction m e).2) as [Hn Hd].
  { unfold fraction. case_match; simpl; split; try lia; apply Z.pow_pos_nonneg; lia. }
  destruct (fraction m e) as [num den]. pose proof (round6_spec num den Hn Hd).
  by destruct (round6 num den) as [n x].
Qed.

End six_digits.

(** The conversion on some values whose text is known. *)
Lemma printf_g_examples :
  printf_g 11 = "11" ∧ printf_g 0.5 = "0.5" ∧ printf_g (1 / 3) = "0.333333" ∧
  printf_g 1000000 = "1e+06" ∧ printf_g 123456.5 = "123456" ∧
  printf_g 0x1p-20 = "9.53674e-07" ∧ printf_g (-0) = "-0" ∧
  printf_g infinity = "inf".
Proof. by vm_compute. Qed.
