(* ===== verification/Echo.v ===== *)
(** * Echo: the text of a [double], read back

    [Format.layout] writes six digits and a decimal exponent as
    [printf("%g")] does; [Lexeme.scan_decimal] reads a decimal literal as
    [strtod] does.  This file shows that the two agree: the text that is
    written for the digits [n] and the exponent [x] is read, to its end,
    as the decimal [n * 10 ^ (x - 5)] with the sign that was written, in
    fixed and in scientific notation ([layout_scan]).  The trailing zeros
    that [%g] leaves out are the [j] of [spells].

    - [digits_of_value], [digits_of_digits], [digits_of_six]: the numeral
      of a number is made of digits, has the number as its value, and
      has six digits for a number of six digits;
    - [strip_zeros_spec]: what is left out are zeros at the end;
    - [read_mantissa_point], [read_exponent_text]: the scanner on a
      mantissa with or without a point, and on the text of an exponent. *)

From Stdlib Require Import ZArith Ascii List Floats.
From stdpp Require Import base tactics list.
From S2P Require Import Prelude Lexeme Decimal Console Format.
Local Open Scope str_scope.
Local Open Scope Z_scope.

(** ** Definitions *)

(** The decimal [d] is [n * 10 ^ e], written without [j] zeros at the end
    of [n]. *)
Definition spells (d : decimal) (n e : Z) : Prop :=
  ∃ j, 0 ≤ j ∧ d_exp10 d = e + j ∧ d_digits d * 10 ^ j = n.

(** A text that ends, or goes on with something that is not a digit. *)
Definition stops (rest : str) : Prop :=
  match rest with
  | c :: _ => isdigit c = false
  | [] => True
  end.

(** ** Numerals *)

Section numerals.
Implicit Types (n d acc : Z) (fuel : nat) (ds : str).

Lemma digit_char_spec d :
  0 ≤ d < 10 → isdigit (digit_char d) = true ∧ digit_val (digit_char d) = d.
Proof.
  intros Hd.
  assert (d ∈ [0; 1; 2; 3; 4; 5; 6; 7; 8; 9]) as Hin.
  { rewrite !elem_of_cons. lia. }
  repeat (apply elem_of_cons in Hin as [->|Hin]; [by vm_compute|]).
  by apply elem_of_nil in Hin.
Qed.

Lemma digits_from_app fuel n ds : digits_from fuel n ds = digits_from fuel n [] ++ ds.
Proof.
  revert n ds; induction fuel as [|fuel IH]; intros n ds; [done|]. cbn [digits_from].
  destruct (n <? 10); [done|]. rewrite IH, (IH _ [_]). by rewrite <-app_assoc.
Qed.

Lemma digits_from_spec fuel n :
  0 ≤ n < 10 ^ Z.of_nat fuel →
  forallb isdigit (digits_from fuel n []) = true ∧
  digits_value 0 (digits_from fuel n []) = n.
Proof.
  revert n; induction fuel as [|fuel IH]; intros n Hn; [simpl in *; split; [done|lia]|].
  pose proof (Z.div_mod n 10 ltac:(lia)). pose proof (Z.mod_pos_bound n 10 ltac:(lia)).
  destruct (digit_char_spec (n mod 10)) as [Hd Hv]; [lia|].
  cbn [digits_from]. destruct (Z.ltb_spec n 10) as [Hlt|Hge].
  { simpl. rewrite Hd, Hv. split; [done|]. rewrite Z.mod_small; lia. }
  rewrite Nat2Z.inj_succ, Z.pow_succ_r in Hn by lia.
  destruct (IH (n / 10)) as [Hds Hval].
  { split; [apply Z.div_pos; lia|apply Z.div_lt_upper_bound; lia]. }
  rewrite digits_from_app, forallb_app, digits_value_app, Hds, Hval. simpl.
  rewrite Hd, Hv. split; [done|lia].
Qed.

Lemma digits_of_digits n : 0 ≤ n → forallb isdigit (digits_of n) = true.
Proof. intros Hn. by apply digits_from_spec, conj, digits_fuel. Qed.

Lemma digits_of_value n : 0 ≤ n → digits_value 0 (digits_of n) = n.
Proof. intros Hn. by apply digits_from_spec, conj, digits_fuel. Qed.

Lemma digits_of_six n : 100000 ≤ n < 1000000 → length (digits_of n) = 6%nat.
Proof.
  intros Hn. destruct (digits_of_length n) as (k & -> & Hk); [lia|].
  assert (Z.of_nat k = 5); [|lia].
  change 100000 with (10 ^ 5) in Hn. change 1000000 with (10 ^ 6) in Hn.
  destruct Hk as [Hk1 Hk2], Hn as [Hn1 Hn2].
  apply (Z.le_lt_trans _ _ _ Hk1), Z.pow_lt_mono_r_iff in Hn2; [|lia..].
  apply (Z.le_lt_trans _ _ _ Hn1), Z.pow_lt_mono_r_iff in Hk2; lia.
Qed.

End numerals.

(** ** Zeros at the end and in front *)

Section zeros.
Implicit Types (ds ip fp : str) (a n : Z) (j k : nat).

Lemma strip_zeros_spec ds : ∃ j, ds = strip_zeros ds ++ replicate j "0"%char.
Proof.
  induction ds as [|d ds [j IH]]; [by exists 0%nat|]. simpl.
  destruct (strip_zeros ds) as [|c r] eqn:Hs.
  - rewrite IH. case_bool_decide as Hd; [subst; by exists (S j)|by exists j].
  - exists j. by rewrite IH at 1.
Qed.

Lemma digits_value_zeros a j :
  digits_value a (replicate j "0"%char) = a * 10 ^ Z.of_nat j.
Proof.
  revert a; induction j as [|j IH]; intros a; [simpl; lia|].
  cbn [replicate]. change (digits_value a ("0"%char :: ?l)) with (digits_value (10 * a + 0) l).
  rewrite IH, Nat2Z.inj_succ, Z.pow_succ_r by lia. lia.
Qed.

Lemma zeros_digits j : forallb isdigit (replicate j "0"%char) = true.
Proof. by induction j. Qed.

(** The digits in front of position [k] and what [%g] keeps of the
    others: the numeral, without its zeros at the end. *)
Lemma split_digits ds k :
  forallb isdigit ds = true → (k ≤ length ds)%nat →
  let ip := take k ds in
  let fp := strip_zeros (drop k ds) in
  forallb isdigit ip = true ∧ forallb isdigit fp = true ∧ length ip = k ∧
  ∃ j, (length fp + j = length ds - k)%nat ∧
       digits_value 0 (ip ++ fp) * 10 ^ Z.of_nat j = digits_value 0 ds.
Proof.
  intros Hds Hk. simpl. destruct (strip_zeros_spec (drop k ds)) as [j Hj].
  rewrite <-(take_drop k ds), forallb_app in Hds. apply andb_prop in Hds as [Hip Hfp].
  rewrite Hj, forallb_app in Hfp. apply andb_prop in Hfp as [Hfp _].
  split_and!; [done..|by rewrite length_take_le|]. exists j. split.
  - apply (f_equal length) in Hj. rewrite length_app, length_replicate, length_drop in Hj.
    lia.
  - rewrite <-(take_drop k ds) at 3. rewrite Hj at 2.
    by rewrite app_assoc, (digits_value_app _ (_ ++ _)), digits_value_zeros.
Qed.

End zeros.

(** ** The scanner on what is written *)

Section scanner.
Implicit Types (ds ip fp rest r : str) (acc n x : Z) (neg : bool).

Lemma read_digits_run ds rest acc n :
  forallb isdigit ds = true → stops rest →
  read_digits (ds ++ rest) acc n = (digits_value acc ds, n + Z.of_nat (length ds), rest).
Proof.
  intros Hds Hr. rewrite read_digits_app by done.
  destruct rest as [|c rest]; [done|]. simpl in *. by rewrite Hr.
Qed.

(** A mantissa with its point, if it has digits behind it. *)
Lemma read_mantissa_point neg ip fp rest :
  forallb isdigit ip = true → forallb isdigit fp = true → ip ≠ [] →
  stops rest → rest ≠ "." ++ drop 1 rest →
  read_mantissa (sign_text neg ++ with_point ip fp ++ rest) =
    Some ({| d_neg := neg; d_digits := digits_value 0 (ip ++ fp);
             d_exp10 := - Z.of_nat (length fp) |}, rest).
Proof.
  intros Hip Hfp Hne Hr Hdot. unfold read_mantissa.
  rewrite read_sign_text.
  2:{ destruct ip as [|c ip]; [done|]. destruct fp; simpl in *; unfold numchar;
        by apply andb_prop in Hip as [-> _]. }
  destruct fp as [|c fp]; simpl with_point.
  - rewrite app_nil_r, read_digits_run by done. simpl.
    destruct rest as [|c rest]; [by destruct ip|]. case_bool_decide; [by subst|].
    by destruct ip.
  - apply andb_prop in Hfp as [Hc Hfp]. rewrite <-app_assoc, read_digits_run by done.
    simpl. rewrite Hc, read_digits_run, digits_value_app by done.
    destruct ip; [done|]. simpl. rewrite (proj2 (Z.eqb_neq _ _)) by lia.
    repeat f_equal; lia.
Qed.

(** The exponent of the scientific notation. *)
Lemma read_exponent_text x : read_exponent (exponent_text x) = Some (x, []).
Proof.
  unfold exponent_text, read_exponent.
  pose proof (digits_of_digits (Z.abs x) ltac:(lia)) as Hds.
  pose proof (digits_of_value (Z.abs x) ltac:(lia)) as Hv.
  assert (∃ ds, forallb isdigit ds = true ∧ ds ≠ [] ∧ digits_value 0 ds = Z.abs x ∧
    match digits_of (Z.abs x) with [d] => ["0"%char; d] | ds => ds end = ds)
    as (ds & Hd & Hne & Hval & ->).
  { destruct (digits_of (Z.abs x)) as [|d [|d' ds]] eqn:E.
    - exfalso. unfold digits_of in E. simpl in E. destruct (_ <? 10); [done|].
      rewrite digits_from_app in E. by destruct (digits_from _ _ []).
    - exists ["0"%char; d]. split_and!; [done..| |done]. by rewrite <-Hv.
    - by eexists. }
  destruct (Z.ltb_spec x 0); simpl; rewrite <-(app_nil_r ds), read_digits_run by done;
    rewrite Hval; destruct ds; try done; simpl; repeat f_equal; lia.
Qed.

End scanner.

(** ** The text of six digits *)

Section layout.
Implicit Types (ds ip fp : str) (n x : Z) (neg : bool) (k : nat).

(** Fixed notation, the point behind [k] digits. *)
Lemma scan_fixed neg ds k :
  forallb isdigit ds = true → (0 < k ≤ length ds)%nat →
  ∃ d, scan_decimal (sign_text neg ++ with_point (take k ds) (strip_zeros (drop k ds)))
       = Some (d, []) ∧ d_neg d = neg ∧
       spells d (digits_value 0 ds) (Z.of_nat k - Z.of_nat (length ds)).
Proof.
  intros Hds Hk.
  destruct (split_digits ds k Hds) as (Hip & Hfp & Hlen & j & Hj & Hval); [lia|].
  eexists. unfold scan_decimal.
  rewrite <-(app_nil_r (with_point _ _)), read_mantissa_point; [|done..| |done|done].
  2:{ intros E. rewrite E in Hlen. simpl in Hlen. lia. }
  split_and!; [done..|]. exists (Z.of_nat j). simpl. split_and!; [lia|lia|done].
Qed.

(** Scientific notation: one digit, the point, and the exponent. *)
Lemma scan_scientific neg ds x :
  forallb isdigit ds = true → (0 < length ds)%nat →
  ∃ d, scan_decimal (sign_text neg ++ with_point (take 1 ds) (strip_zeros (drop 1 ds))
                       ++ "e" ++ exponent_text x) = Some (d, []) ∧ d_neg d = neg ∧
       spells d (digits_value 0 ds) (x + 1 - Z.of_nat (length ds)).
Proof.
  intros Hds Hk.
  destruct (split_digits ds 1 Hds) as (Hip & Hfp & Hlen & j & Hj & Hval); [lia|].
  eexists. unfold scan_decimal. rewrite read_mantissa_point; [|done..| |done|done].
  2:{ intros E. rewrite E in Hlen. simpl in Hlen. lia. }
  simpl. rewrite read_exponent_text.
  split_and!; [done..|]. exists (Z.of_nat j). simpl. split_and!; [lia|lia|done].
Qed.

(** A value below one: a zero, the point, zeros and the digits. *)
Lemma scan_small neg ds k :
  forallb isdigit ds = true → digits_value 0 ds ≠ 0 →
  ∃ d, scan_decimal (sign_text neg ++ "0." ++ replicate k "0"%char ++ strip_zeros ds)
       = Some (d, []) ∧ d_neg d = neg ∧
       spells d (digits_value 0 ds) (- Z.of_nat k - Z.of_nat (length ds)).
Proof.
  intros Hds Hnz.
  destruct (split_digits ds 0 Hds) as (_ & Hfp & _ & j & Hj & Hval); [lia|].
  rewrite drop_0 in *. simpl in Hval.
  assert (strip_zeros ds ≠ []) as Hne by (intros E; rewrite E in Hval; simpl in Hval; lia).
  pose proof (read_mantissa_point neg "0" (replicate k "0"%char ++ strip_zeros ds) [])
    as Hread.
  replace (with_point "0" _) with ("0." ++ replicate k "0"%char ++ strip_zeros ds) in Hread
    by (destruct k, (strip_zeros ds); done).
  rewrite (app_nil_r ("0." ++ _)) in Hread. eexists. unfold scan_decimal.
  rewrite Hread; [|done|by rewrite forallb_app, zeros_digits|done..].
  split_and!; [done..|]. exists (Z.of_nat j). simpl. rewrite length_app, length_replicate.
  split_and!; [lia|lia|].
  change (digits_value 0 ("0" ++ ?l)) with (digits_value 0 l).
  by rewrite digits_value_app, digits_value_zeros.
Qed.

(** What [%g] writes for six digits is read by [strtod], to its end, as
    the decimal of these digits. *)
Lemma layout_scan neg n x :
  100000 ≤ n < 1000000 →
  ∃ d, scan_decimal (layout neg n x) = Some (d, []) ∧ d_neg d = neg ∧ spells d n (x - 5).
Proof.
  intros Hn. pose proof (digits_of_digits n ltac:(lia)) as Hds.
  pose proof (digits_of_value n ltac:(lia)) as Hv.
  pose proof (digits_of_six n Hn) as Hlen. unfold layout.
  destruct ((x <? -4) || (6 <=? x)) eqn:Hsci.
  { destruct (scan_scientific neg (digits_of n) x Hds) as (d & Hd); [lia|].
    rewrite Hv, Hlen in Hd. exists d. by replace (x - 5) with (x + 1 - Z.of_nat 6) by lia. }
  apply orb_false_elim in Hsci as [?%Z.ltb_ge ?%Z.leb_gt].
  destruct (Z.leb_spec 0 x).
  - destruct (scan_fixed neg (digits_of n) (Z.to_nat (x + 1)) Hds) as (d & Hd); [lia|].
    rewrite Hv, Hlen in Hd. exists d.
    by replace (x - 5) with (Z.of_nat (Z.to_nat (x + 1)) - Z.of_nat 6) by lia.
  - destruct (scan_small neg (digits_of n) (Z.to_nat (- x - 1)) Hds) as (d & Hd); [lia|].
    rewrite Hv, Hlen in Hd. exists d.
    by replace (x - 5) with (- Z.of_nat (Z.to_nat (- x - 1)) - Z.of_nat 6) by lia.
Qed.

End layout.
