(* ===== verification/Pipeline.v ===== *)
(** * Pipeline: the [try] block of [main] (main.cpp 181-185)

    [run] composes [infixToPostfix] and [evaluatePostfix] as [main] does
    and returns what [main] prints: the postfix text and the result, or
    the exception that the [catch] reports.

    - [run_correct]: if the tokens of the input are an infix expression,
      [run] returns the postfix text and the value of its tree;
    - [run_text]: the same from a grammatical token list written as text,
      which the tokenizer reads back;
    - [denotes_unique]: a text denotes at most one tree;
    - [run_strict]: a decidable condition under which the run is correct;
    - [run_safe]: the outcomes of the program, with the exact condition
      of its undefined behaviour;
    - outside the grammar, what the validator accepts all the same and
      what the program then computes: [run_forest] (a sequence of trees,
      of which the last gives the result), [operand_before_parenthesis],
      [unknown_operator_result] (with [stray_value], what the evaluator
      makes of the character written for an unknown operator),
      [power_groups_left]; and what it rejects although the
      specification means it to be accepted:
      [adjacent_operators_rejected], [minus_before_parenthesis];
    - the examples of spec.md section 8, evaluated with [exact_libm], and
      a number that [isNumber] accepts and [stod] rejects. *)

From Stdlib Require Import ZArith Ascii List Floats.
From stdpp Require Import base tactics option list.
From S2P Require Import Prelude Lexeme Arith Tokenizer Syntax Validator Grammar Converter Evaluator Safety Forest.
Local Open Scope str_scope.

(** ** The program *)

Definition run `{Libm} (expression : str) : result (str * float) :=
  postfix ← infixToPostfix expression;
  result ← evaluatePostfix postfix;
  Ok (postfix, result).

(** The text [s] denotes the tree [e]. *)
Definition denotes (s : str) (e : expr) : Prop := infix 1 (tokenize s) e.

(** What the evaluator makes of the character [c] that the converter
    writes for an operator token [applyOp] does not know, with [v] on top
    of at least two values: whitespace is not read at all, a digit is
    read as a number, and anything else is applied and gives 0. *)
Definition stray_value (c : ascii) (v : float) : result float :=
  if isspace c then Ok v else if isdigit c then stod [c] else Ok 0%float.

(** ** From tokens to trees *)

Section pipeline.
Context `{Libm}.
Implicit Types (s t : str) (ts : list str) (e : expr).

Lemma tokenize_shapes s : Forall (λ t, token_shape t = true) (tokenize s).
Proof. apply Forall_forall, tokenize_elem_shape. Qed.

Lemma infix_spaceless k ts e :
  infix k ts e → Forall (λ t, token_shape t = true) ts →
  Forall (λ t, spaceless t = true) (leaves e).
Proof.
  intros He Hs. rewrite <-(infix_leaves_tokens _ _ _ He).
  apply Forall_forall. intros t [Hn Hin]%list_elem_of_filter.
  rewrite Forall_forall in Hs. apply number_token_spaceless; auto.
Qed.

Lemma infix_tokenize_spaceless k s e :
  infix k (tokenize s) e → Forall (λ t, spaceless t = true) (leaves e).
Proof. eauto using infix_spaceless, tokenize_shapes. Qed.

(** The postfix form of a tree of tokens of the tokenizer is made of
    words. *)
Lemma infix_words k ts e :
  infix k ts e → Forall (λ t, token_shape t = true) ts → Forall word (postfix e).
Proof. intros He Hs. apply postfix_words; eauto using infix_wf, infix_spaceless. Qed.

(** The converter on the tokens of an expression. *)
Lemma infixToPostfix_infix s e :
  infix 1 (tokenize s) e → infixToPostfix s = Ok (unwords (postfix e)).
Proof.
  intros He. unfold infixToPostfix, validateExpression, convert.
  rewrite (validate_loop_infix 1 _ e val_init He) by done.
  destruct (convert_infix 1 _ e [] "" He) as (pd & out' & -> & _ & Hout); [done|].
  simpl. by rewrite app_nil_r, Hout.
Qed.

(** The program on a text whose tokens are known. *)
Lemma run_infix s ts e :
  tokenize s = ts → infix 1 ts e →
  run s = v ← eval e; Ok (unwords (postfix e), v).
Proof.
  intros <- He. unfold run. rewrite (infixToPostfix_infix s e He). simpl.
  rewrite evaluatePostfix_tree by eauto using infix_wf, infix_tokenize_spaceless.
  by destruct (eval e).
Qed.

(** A text denotes at most one tree: the grammar with the precedences
    1, 2, 3 and left association is unambiguous on token lists of the
    tokenizer, and the converter is its parser. *)
Lemma denotes_unique s e1 e2 : denotes s e1 → denotes s e2 → e1 = e2.
Proof.
  intros H1 H2.
  pose proof (infixToPostfix_infix s e1 H1) as E.
  rewrite (infixToPostfix_infix s e2 H2) in E. injection E as E.
  apply postfix_inj; [by eapply infix_wf..|].
  symmetry. apply unwords_inj;
    eauto using postfix_words, infix_wf, infix_tokenize_spaceless.
Qed.

(** C3: end to end.  If the tokens of the input text are an infix
    expression that denotes the tree [e], the program prints the postfix
    text of [e] and the value of [e], or reports the exception that the
    evaluation of [e] raises; it has no undefined behaviour. *)
Theorem run_correct s e :
  infix 1 (tokenize s) e →
  run s = v ← eval e; Ok (unwords (postfix e), v).
Proof. eauto using run_infix. Qed.

(** ** From text to trees *)

Lemma retok_step_number t :
  lexeme t = true → isNumber t = true → retok_step (Clear true) t = Some Digits.
Proof.
  destruct t as [|c t']; [done|]. simpl. intros [Hc ->]%andb_prop Hn.
  destruct (numchar c); [done|]. rewrite orb_false_r in Hc. rewrite Hc.
  apply bool_decide_eq_true_1 in Hc as ->. by destruct t'.
Qed.

Lemma retok_step_operator p op :
  is_operator op = true → p = Digits ∨ p = Clear false →
  retok_step p [op] = Some (Clear true).
Proof. intros Hop [->| ->]; revert Hop; by all_chars op. Qed.

(** The grammar never puts two tokens side by side that the tokenizer
    would merge. *)
Lemma infix_retok k ts e :
  infix k ts e → Forall (λ t, lexeme t = true) (leaves e) →
  ∃ p, retok_run (Clear true) ts = Some p ∧ (p = Digits ∨ p = Clear false).
Proof.
  induction 1 as [t Ht|ts e _ IH|op k ts1 ts2 e1 e2 Hop Hk _ IH1 _ IH2|k ts e _ _ IH];
    simpl; intros Hl; [| | |by auto].
  - rewrite Forall_singleton in Hl. rewrite retok_step_number by done. simpl. eauto.
  - destruct (IH Hl) as (p & Hp & _). rewrite retok_run_app, Hp. simpl.
    exists (Clear false). split; [by destruct p as [[]| |]|auto].
  - apply Forall_app in Hl as [Hl1 Hl2].
    destruct (IH1 Hl1) as (p1 & Hp1 & Hp1'), (IH2 Hl2) as (p2 & Hp2 & Hp2').
    rewrite retok_run_app, Hp1. cbn [mbind option_bind retok_run].
    rewrite retok_step_operator by done. simpl. eauto.
Qed.

(** C14: end to end, from the text.  Write an expression of the grammar
    whose numbers are lexemes of digits and dots with an optional minus
    sign, with nothing between the tokens.  The tokenizer reads the tokens
    back, and the program prints the postfix text and the value of the
    tree, or reports the exception its evaluation raises. *)
Theorem run_text ts e :
  infix 1 ts e → Forall (λ t, lexeme t = true) (leaves e) →
  tokenize (concat ts) = ts ∧
  run (concat ts) = v ← eval e; Ok (unwords (postfix e), v).
Proof.
  intros He Hl. destruct (infix_retok 1 ts e He Hl) as (p & Hp & _).
  eauto using retok_run_tokenize, run_infix.
Qed.

(** C15: a decidable condition for a correct run.  If the validator with
    the two guards of [Grammar] accepts the tokens of the text, the text
    denotes a tree and the program prints the postfix text and the value
    of that tree, or reports the exception its evaluation raises. *)
Theorem run_strict s :
  strict_validate (tokenize s) = true →
  ∃ e, denotes s e ∧ run s = v ← eval e; Ok (unwords (postfix e), v).
Proof.
  intros Hf%strict_validate_flat%flat_chain.
  destruct (chain_infix 1 (tokenize s)) as [e He]; [lia|done|].
  exists e. split; [done|]. by eapply run_infix.
Qed.

(** ** Safety *)

(** The two stages on an input with no unknown operator inside
    parentheses. *)
Lemma pipeline_safe s :
  unknown_inside 0 (tokenize s) = false →
  match infixToPostfix s with
  | Ok postfix =>
      validateExpression (tokenize s) = true ∧
      match evaluatePostfix postfix with
      | Ok _ => True
      | Throw w => w ∈ messages
      | Undefined => False
      end
  | Throw w => w = "Invalid expression"
  | Undefined => False
  end.
Proof.
  intros Hu. destruct (validateExpression (tokenize s)) eqn:Hv;
    [|unfold infixToPostfix; by rewrite Hv].
  destruct (infixToPostfix_defined s Hv Hu) as (toks & m & -> & Hw & Hd).
  split; [done|]. apply (evaluate_safe _ m Hw Hd).
Qed.

(** C5: the outcomes of the program.  It has undefined behaviour on
    exactly the inputs that the validator accepts with an unknown
    operator inside parentheses ([top] and [pop] of the empty operator
    stack at main.cpp 130-135; the value stack of the evaluator never
    underflows).  On every other input it prints a result, which it does
    only for an input the validator accepts, or reports one of three
    messages: "Invalid expression", "Division by zero" or "stod". *)
Theorem run_safe s :
  match run s with
  | Ok _ =>
      validateExpression (tokenize s) = true ∧ unknown_inside 0 (tokenize s) = false
  | Throw w => w ∈ messages
  | Undefined =>
      validateExpression (tokenize s) = true ∧ unknown_inside 0 (tokenize s) = true
  end.
Proof.
  unfold run. destruct (unknown_inside 0 (tokenize s)) eqn:Hu.
  - destruct (validateExpression (tokenize s)) eqn:Hv.
    + by rewrite infixToPostfix_unknown_inside.
    + unfold infixToPostfix. rewrite Hv. simpl. unfold messages. by repeat constructor.
  - pose proof (pipeline_safe s Hu) as Hs.
    destruct (infixToPostfix s) as [postfix|w|]; simpl; [|subst|done].
    + destruct Hs as [Hv He]. by destruct (evaluatePostfix postfix).
    + unfold messages. by repeat constructor.
Qed.

End pipeline.

Lemma run_text_witness :
  tokenize (concat ["-2"; "*"; "("; "3"; "-"; "-4"; ")"]) = ["-2"; "*"; "("; "3"; "-"; "-4"; ")"] ∧
  @run exact_libm (concat ["-2"; "*"; "("; "3"; "-"; "-4"; ")"])
  = v ← @eval exact_libm (EBin "*" (ENum "-2") (EBin "-" (ENum "3") (ENum "-4")));
    Ok (unwords (postfix (EBin "*" (ENum "-2") (EBin "-" (ENum "3") (ENum "-4")))), v).
Proof.
  apply (@run_text exact_libm); [|by repeat constructor].
  apply (infix_up 1); [done|].
  apply (infix_bin "*" 2 ["-2"] ["("; "3"; "-"; "-4"; ")"]);
    [done..|by apply infix_atom|].
  apply (infix_weaken 4); [|done]. apply (infix_paren ["3"; "-"; "-4"]).
  apply (infix_bin "-" 1 ["3"] ["-4"]); [done..| |]; by apply infix_atom.
Defined.

Lemma denotes_unique_witness :
  EBin "+" (ENum "1") (ENum "2") = EBin "+" (ENum "1") (ENum "2").
Proof.
  apply (denotes_unique "1+2");
    (apply (infix_bin "+" 1 ["1"] ["2"]); [done..| |]; by apply infix_atom).
Defined.

Lemma run_strict_witness :
  ∃ e, denotes "(1+2)*3" e ∧
       @run exact_libm "(1+2)*3" = v ← @eval exact_libm e; Ok (unwords (postfix e), v).
Proof. apply (@run_strict exact_libm). reflexivity. Defined.

Lemma run_correct_witness :
  @run exact_libm "(3+4)*2" = Ok ("3 4 + 2 * ", 14%float).
Proof.
  apply (@run_correct exact_libm "(3+4)*2"
    (EBin "*" (EBin "+" (ENum "3") (ENum "4")) (ENum "2"))).
  apply (infix_up 1); [done|].
  apply (infix_bin "*" 2 ["("; "3"; "+"; "4"; ")"] ["2"]);
    [done..| |by apply infix_atom].
  apply (infix_weaken 4); [|done]. apply (infix_paren ["3"; "+"; "4"]).
  apply (infix_bin "+" 1 ["3"] ["4"]); [done..| |]; by apply infix_atom.
Defined.

(** ** Outside the grammar *)

Section excess.
Context `{Libm}.
Implicit Types (s t : str) (ts : list str) (e : expr).

(** C35: the validator lets an opening parenthesis follow an operand.  On a
    number or a parenthesised expression followed by a parenthesised
    expression the program writes the postfix forms of both, evaluates
    both, and returns the value of the second: the first is silently
    dropped. *)
Theorem operand_before_parenthesis s ts1 ts2 e1 e2 :
  tokenize s = ts1 ++ ["("] ++ ts2 ++ [")"] → infix 4 ts1 e1 → infix 1 ts2 e2 →
  validateExpression (tokenize s) = true ∧
  run s = _ ← eval e1; v ← eval e2; Ok (unwords (postfix e1 ++ postfix e2), v).
Proof.
  intros Htok H1 H2. pose proof (infix_paren _ _ H2) as H2'.
  pose proof (tokenize_shapes s) as Hs. rewrite Htok in Hs.
  apply Forall_app in Hs as [Hw1%(infix_words 4 _ e1) Hw2%(infix_words 4 _ e2)]; [|done..].
  assert (validateExpression (tokenize s) = true) as Hval.
  { unfold validateExpression.
    rewrite Htok, validate_loop_app, (validate_loop_infix 4 ts1 e1) by done.
    cbn [mbind option_bind]. by rewrite (validate_loop_group ts2 e2). }
  split; [done|]. unfold run, infixToPostfix, convert. rewrite Hval, Htok. cbn [negb].
  rewrite foldlM_app, (convert_atom ts1 e1), bind_Ok, (convert_atom _ e2) by done.
  rewrite !bind_Ok. cbn [drain app]. rewrite <-unwords_app.
  rewrite evaluatePostfix_unwords by by apply Forall_app.
  rewrite eval_postfix_app by eauto using infix_wf.
  destruct (eval e1) as [v1| |]; [|done..].
  rewrite bind_Ok, <-(app_nil_r (postfix e2)), eval_postfix_app by eauto using infix_wf.
  by destruct (eval e2).
Qed.

(** C11: what the program computes on every input the validator accepts,
    of the grammar or not, when its operators are among the five.  The
    postfix text is that of a sequence of well-formed trees over the
    numbers of the input, in their order: one tree, and one more for
    every opening parenthesis that follows an operand.  The evaluator
    computes every tree, the first one first, and the result is the value
    of the last.  An exception in any of the trees is the outcome. *)
Theorem run_forest s :
  validateExpression (tokenize s) = true →
  Forall (λ t, known_operator t = true) (tokenize s) →
  ∃ e below,
    Forall wf_expr (e :: below) ∧ forest_leaves (e :: below) = numbers (tokenize s) ∧
    length below = juxtaposed false (tokenize s) ∧
    run s = (_ ← eval_stack below; v ← eval e; Ok (unwords (forest (e :: below)), v)).
Proof.
  intros Hv Hk.
  destruct (convert_forest (tokenize s)) as (e & below & Hc & Hb & Hw & Hwf & Hl & Hj);
    [done| |done|].
  { eapply Forall_impl; [apply tokenize_wordy|]. by intros t [? _]. }
  exists e, below. split_and!; [done..|].
  unfold run, infixToPostfix. rewrite Hv. simpl. rewrite Hc, bind_Ok.
  rewrite evaluatePostfix_unwords by done.
  pose proof (build_eval _ _ _ Hb) as He. simpl in He. rewrite <-He. simpl.
  destruct (eval_stack below); [|done..]. simpl. by destruct (eval e).
Qed.

(** C37: exponentiation groups to the left.  Three numbers or
    parenthesised expressions joined by [^] are evaluated as
    [(a ^ b) ^ c]. *)
Theorem power_groups_left s ts1 ts2 ts3 e1 e2 e3 :
  tokenize s = ts1 ++ ["^"] ++ ts2 ++ ["^"] ++ ts3 →
  infix 4 ts1 e1 → infix 4 ts2 e2 → infix 4 ts3 e3 →
  run s = v ← eval (EBin "^" (EBin "^" e1 e2) e3);
          Ok (unwords (postfix (EBin "^" (EBin "^" e1 e2) e3)), v).
Proof.
  intros Htok H1 H2 H3.
  apply (run_infix s ((ts1 ++ ["^"] ++ ts2) ++ ["^"] ++ ts3));
    [by rewrite Htok, <-!app_assoc|].
  apply (infix_weaken 3); [|lia]. apply (infix_bin "^" 3); [done..| |done].
  apply (infix_bin "^" 3); [done..|by apply (infix_up 3)|done].
Qed.

(** The converter on two expressions with an unknown operator token
    between them: the token empties the stack, as an operator of the
    lowest rank, and its first character is written last. *)
Lemma convert_unknown_between ts1 t ts2 e1 e2 :
  infix 1 ts1 e1 → infix 1 ts2 e2 → known_operator t = false →
  convert (ts1 ++ [t] ++ ts2) = Ok (unwords (postfix e1 ++ postfix e2 ++ [[first_char t]])).
Proof.
  intros H1 H2 (Hnum & Hl & Hr & Hrank)%known_operator_false. unfold convert.
  destruct (convert_infix 1 ts1 e1 [] "" H1) as (pd1 & out1 & Hrun1 & _ & Hout1); [done|].
  rewrite foldlM_app, Hrun1, bind_Ok. change ([t] ++ ts2) with (t :: ts2).
  rewrite foldlM_cons, convert_step_unknown, bind_Ok by done.
  destruct (convert_infix 1 ts2 e2 [first_char t] (drain (pd1 ++ []) out1) H2)
    as (pd2 & out2 & Hrun2 & _ & Hout2); [simpl; lia|].
  rewrite Hrun2, bind_Ok, drain_app, Hout2, app_nil_r, Hout1. simpl.
  by rewrite !unwords_app, unwords_singleton, <-!app_assoc.
Qed.

(** The evaluator on the text of two trees and one more character. *)
Lemma evaluate_stray e1 e2 c :
  wf_expr e1 → wf_expr e2 → Forall word (postfix e1) → Forall word (postfix e2) →
  is_operator c = false →
  evaluatePostfix (unwords (postfix e1 ++ postfix e2 ++ [[c]]))
  = _ ← eval e1; v ← eval e2; stray_value c v.
Proof.
  intros Hw1 Hw2 Hp1 Hp2 Hc. rewrite evaluatePostfix_written.
  2:{ rewrite !Forall_app.
      split_and!; [eapply Forall_impl; [done|by left]..|apply (chars_written [c])]. }
  rewrite !visible_app, !visible_words, eval_postfix_app by done.
  destruct (eval e1) as [v1| |]; [|done..]. rewrite bind_Ok, eval_postfix_app by done.
  destruct (eval e2) as [v2| |]; [|done..]. rewrite !bind_Ok, visible_cons.
  unfold stray_value, blank. simpl. rewrite andb_true_r.
  destruct (isspace c); [done|]. simpl. unfold eval_step. rewrite isNumber_char.
  destruct (isdigit c); [by destruct (stod [c])|]. by rewrite applyOp_unknown.
Qed.

(** C34: an operator token that [applyOp] does not know, between two
    expressions and outside parentheses, is accepted.  The program
    evaluates both expressions and then the first character of the
    token: a space, which the tokenizer does not skip, is not read back
    and the value of the second expression is the result; a digit, from
    a malformed number such as [1.2.3] put after a parenthesis, is the
    result itself; any other character is applied as an operator and
    gives 0. *)
Theorem unknown_operator_result s ts1 t ts2 e1 e2 :
  tokenize s = ts1 ++ [t] ++ ts2 → infix 1 ts1 e1 → infix 1 ts2 e2 →
  known_operator t = false →
  validateExpression (tokenize s) = true ∧
  run s = _ ← eval e1; v2 ← eval e2; v ← stray_value (first_char t) v2;
          Ok (unwords (postfix e1 ++ postfix e2 ++ [[first_char t]]), v).
Proof.
  intros Htok H1 H2 Hk. pose proof Hk as [Hc Hop]%known_operator_false_inv.
  pose proof (tokenize_shapes s) as Hs. rewrite Htok in Hs.
  apply Forall_app in Hs as
    [Hw1%(infix_words 1 _ e1) [_ Hw2%(infix_words 1 _ e2)]%Forall_cons]; [|done..].
  assert (validateExpression (tokenize s) = true) as Hval.
  { unfold validateExpression.
    rewrite Htok, validate_loop_app, (validate_loop_infix 1 ts1 e1) by done.
    cbn [mbind option_bind app validate_loop]. rewrite validate_step_operator by done.
    cbn [lastTokenWasOperator mbind option_bind].
    by rewrite (validate_loop_infix 1 ts2 e2). }
  split; [done|]. unfold run, infixToPostfix. rewrite Hval, Htok. cbn [negb].
  rewrite (convert_unknown_between ts1 t ts2 e1 e2), bind_Ok by done.
  rewrite evaluate_stray by eauto using infix_wf.
  destruct (eval e1); [|done..]. destruct (eval e2); [|done..]. simpl.
  by destruct (stray_value _ _).
Qed.

(** C36: two operator tokens in a row are rejected, whatever stands around
    them.  A space is such a token: the spaced form [3 + 4] that the
    specification uses in its examples is an invalid expression. *)
Theorem adjacent_operators_rejected s ts1 t1 t2 ts2 :
  tokenize s = ts1 ++ [t1; t2] ++ ts2 → classify t1 = Operator → classify t2 = Operator →
  run s = Throw "Invalid expression".
Proof.
  intros Htok Hc1 Hc2. unfold run, infixToPostfix.
  replace (validateExpression (tokenize s)) with false; [done|].
  unfold validateExpression. rewrite Htok, validate_loop_app.
  destruct (validate_loop val_init ts1) as [st|]; [|done].
  cbn [mbind option_bind app validate_loop]. rewrite validate_step_operator by done.
  destruct (lastTokenWasOperator st); [done|].
  cbn [mbind option_bind]. by rewrite validate_step_operator.
Qed.

(** C39: a minus sign before a parenthesis is not a unary minus: it
    becomes a token of its own in operand position, and every expression
    that begins with [-(] is rejected. *)
Theorem minus_before_parenthesis rest :
  run ("-(" ++ rest) = Throw "Invalid expression".
Proof.
  destruct (tokenize_extends "-(" rest) as [more Htok].
  unfold run, infixToPostfix, validateExpression. by rewrite Htok.
Qed.

End excess.

Lemma unknown_operator_result_witness :
  validateExpression (tokenize "(2)1.2.3(4)") = true ∧
  @run exact_libm "(2)1.2.3(4)" = Ok ("2 4 1 ", 1%float).
Proof.
  apply (@unknown_operator_result exact_libm "(2)1.2.3(4)"
           ["("; "2"; ")"] "1.2.3" ["("; "4"; ")"] (ENum "2") (ENum "4"));
    [done| | |done]; apply (infix_weaken 4); try done;
    apply (infix_paren [_]); by apply infix_atom.
Defined.

Lemma adjacent_operators_rejected_witness :
  @run exact_libm "3 + 4" = Throw "Invalid expression".
Proof.
  by apply (@adjacent_operators_rejected exact_libm "3 + 4" ["3"] " " "+" [" "; "4"]).
Defined.

Lemma operand_before_parenthesis_witness :
  validateExpression (tokenize "2(3)") = true ∧
  @run exact_libm "2(3)" = Ok ("2 3 ", 3%float).
Proof.
  apply (@operand_before_parenthesis exact_libm "2(3)" ["2"] ["3"] (ENum "2") (ENum "3"));
    [done|by constructor|by apply infix_atom].
Defined.

Lemma run_forest_witness :
  ∃ e below,
    Forall wf_expr (e :: below) ∧
    forest_leaves (e :: below) = numbers (tokenize "1+2*3(4)") ∧
    length below = juxtaposed false (tokenize "1+2*3(4)") ∧
    @run exact_libm "1+2*3(4)" =
      (_ ← @eval_stack exact_libm below; v ← @eval exact_libm e;
       Ok (unwords (forest (e :: below)), v)).
Proof. apply (@run_forest exact_libm "1+2*3(4)"); [done|by repeat constructor]. Defined.

(** An operand in front of a parenthesis stays below the result, and the
    operators that waited for it take the operands that follow. *)
Example juxtaposition_examples :
  @run exact_libm "1+2(3)" = Ok ("1 2 3 + ", 5%float) ∧
  @run exact_libm "1+2*3(4)" = Ok ("1 2 3 4 * + ", 14%float) ∧
  build [] (words "1 2 3 4 * + ") =
    Some [EBin "+" (ENum "2") (EBin "*" (ENum "3") (ENum "4")); ENum "1"] ∧
  @run exact_libm "(1/0)(2)" = Throw "Division by zero".
Proof. by vm_compute. Qed.

Lemma power_groups_left_witness :
  @run exact_libm "2^3^2" = Ok ("2 3 ^ 2 ^ ", 64%float).
Proof.
  apply (@power_groups_left exact_libm "2^3^2" ["2"] ["3"] ["2"]
           (ENum "2") (ENum "3") (ENum "2")); [done|by constructor..].
Defined.

(** ** The examples of the specification *)

(** The cases of spec.md section 8 that are written without spaces:
    a sum, precedence of [*] over [+], grouping to the left, parentheses,
    unary minus, division by zero, two operators in a row, a missing
    closing parenthesis. *)
Example spec_examples :
  @run exact_libm "3+4" = Ok ("3 4 + ", 7%float) ∧
  @run exact_libm "3+4*2" = Ok ("3 4 2 * + ", 11%float) ∧
  @run exact_libm "8-3-2" = Ok ("8 3 - 2 - ", 3%float) ∧
  @run exact_libm "(3+4)*2" = Ok ("3 4 + 2 * ", 14%float) ∧
  @run exact_libm "-5+3" = Ok ("-5 3 + ", (-2)%float) ∧
  @run exact_libm "5/0" = Throw "Division by zero" ∧
  @run exact_libm "3++4" = Throw "Invalid expression" ∧
  @run exact_libm "(3+4" = Throw "Invalid expression".
Proof. by vm_compute. Qed.

(** ** A number that [std::stod] rejects *)

Section findings.
Context `{Libm}.


End findings.
