(* ===== verification/Driver.v ===== *)
(** * Driver: [main] (main.cpp 176-190)

    [main] prompts, reads one line, runs the two stages of the pipeline
    inside a [try] block and writes their results as they come: the
    postfix text is on [std::cout] before the evaluation starts, so an
    exception of the evaluator leaves it there and adds the error line on
    [std::cerr].  [main] always returns 0.

    [main] is written once, over the interface [Console.Streams], and
    runs on the three texts of [console], on the screen of
    [Terminal.display] and on the buffered streams of
    [Terminal.terminal].

    - [main_outcome]: the streams after [main], by the outcomes of
      [infixToPostfix] and [evaluatePostfix];
    - [main_correct]: on a line that denotes an expression tree, [main]
      writes the postfix form of the tree and its value, or the postfix
      form and the error of its evaluation;
    - [main_responds]: on a line with no unknown operator inside
      parentheses, [main] returns 0 and has written either a result or an
      error line with one of three messages;
    - [main_undefined]: the inputs on which [main] has undefined
      behaviour, exactly;
    - [main_refinement]: a run of [main] on one implementation of the
      streams is its run on any implementation that this one refines;
    - [main_buffered]: the texts and the outcome of the run on the
      buffered streams are those of the run on [console], for every
      policy of flushing;
    - [main_screen]: what the terminal shows after [main], in order, for
      every policy of flushing ([session]);
    - [result_rounded]: with the formatting of the GNU C library the
      result line shows six significant digits, correctly rounded, in a
      text that [strtod] reads as their decimal;
    - [main_examples], [main_devices]: runs with the reference instances
      of [std::pow] and of [operator<<(double)]. *)

From Stdlib Require Import ZArith Ascii List Floats.
From stdpp Require Import base tactics option list.
From S2P Require Import Prelude Lexeme Arith Tokenizer Syntax Validator Converter Evaluator Safety Console Terminal Format Echo Pipeline.
Local Open Scope str_scope.

(** ** The program *)

Definition main `{Libm} `{Iostream} {S} `{!Streams S} : st S Z :=
  cout "Input expression: ";;
  expression ← getline;
  try_catch
    (postfix ← lift (infixToPostfix expression);
     cout "Postfix: ";; cout postfix;; cout endl;;
     result ← lift (evaluatePostfix postfix);
     cout "Result: ";; cout (put_double result);; cout endl)
    (λ what, cerr "Error: ";; cerr what;; cerr endl);;
  mret 0%Z.

(** ** What is written *)

Definition prompt : str := "Input expression: ".

Definition postfix_line (postfix : str) : str := "Postfix: " ++ postfix ++ [newline].

Definition result_line `{Iostream} (value : float) : str :=
  "Result: " ++ put_double value ++ [newline].

Definition error_line (what : str) : str := "Error: " ++ what ++ [newline].

(** What the screen shows of a run: the prompt, the line typed, and the
    lines of the two stages. *)
Definition session `{Iostream} (line : str) (stage1 : result str)
    (stage2 : str → result float) : list event :=
  [Write Cout prompt; Read line] ++
  match stage1 with
  | Ok postfix =>
      match stage2 postfix with
      | Ok value => [Write Cout (postfix_line postfix ++ result_line value)]
      | Throw what => [Write Cout (postfix_line postfix); Write Cerr (error_line what)]
      | Undefined => [Write Cout (postfix_line postfix)]
      end
  | Throw what => [Write Cerr (error_line what)]
  | Undefined => []
  end.

(** ** Properties *)

Section driver.
Context `{Libm} `{Iostream}.
Implicit Types (input line rest : str) (e : expr).

Lemma main_outcome input :
  main (start input) =
    match infixToPostfix (read_line input).1 with
    | Ok postfix =>
        match evaluatePostfix postfix with
        | Ok value =>
            (Console (read_line input).2
               (prompt ++ postfix_line postfix ++ result_line value) [], Ok 0%Z)
        | Throw what =>
            (Console (read_line input).2
               (prompt ++ postfix_line postfix) (error_line what), Ok 0%Z)
        | Undefined =>
            (Console (read_line input).2 (prompt ++ postfix_line postfix) [], Undefined)
        end
    | Throw what => (Console (read_line input).2 prompt (error_line what), Ok 0%Z)
    | Undefined => (Console (read_line input).2 prompt [], Undefined)
    end.
Proof.
  unfold main, mbind, st_bind, try_catch, start, lift; simpl.
  unfold console_getline, console_cout, console_cerr; simpl.
  destruct (read_line input) as [line rest]; simpl.
  destruct (infixToPostfix line) as [postfix| |]; simpl; [|done..].
  unfold postfix_line, result_line.
  destruct (evaluatePostfix postfix); simpl; by rewrite <-?app_assoc.
Qed.

Lemma main_display input :
  (main (switch_on input)).1 =
    {| unread := (read_line input).2;
       shown := session (read_line input).1 (infixToPostfix (read_line input).1)
                  evaluatePostfix |}.
Proof.
  unfold main, session, mbind, st_bind, try_catch, lift; simpl.
  unfold display_getline, display_cout, display_cerr; simpl.
  destruct (read_line input) as [line rest]; simpl.
  destruct (infixToPostfix line) as [postfix|what|]; simpl;
    [destruct (evaluatePostfix postfix); simpl|..];
    rewrite ?shows_shows; unfold shows, result_line; simpl; by rewrite <-?app_assoc.
Qed.

(** C4: [main] on a line that denotes an expression tree.  It consumes
    the line, writes the prompt and the postfix form of the tree, then
    either the value of the tree on [std::cout] or the message of the
    exception that its evaluation raises on [std::cerr], and returns 0.
    The postfix line is written in both cases. *)
Theorem main_correct line rest e :
  newline ∉ line → denotes line e →
  main (start (line ++ [newline] ++ rest)) =
    match eval e with
    | Ok value =>
        (Console rest
           (prompt ++ postfix_line (unwords (postfix e)) ++ result_line value) [],
         Ok 0%Z)
    | Throw what =>
        (Console rest (prompt ++ postfix_line (unwords (postfix e)))
           (error_line what), Ok 0%Z)
    | Undefined =>
        (Console rest (prompt ++ postfix_line (unwords (postfix e))) [], Undefined)
    end.
Proof.
  intros Hline He. rewrite main_outcome, read_line_newline by done. simpl.
  rewrite (infixToPostfix_infix line e He).
  rewrite evaluatePostfix_tree by eauto using infix_wf, infix_tokenize_spaceless.
  by destruct (eval e).
Qed.

(** C6: [main] always answers.  On an input whose first line has no
    unknown operator inside parentheses it returns 0 with the line
    consumed, and it has written either a postfix line and a result line
    and no error, or an error line with one of the three messages of the
    program. *)
Theorem main_responds input :
  unknown_inside 0 (tokenize (read_line input).1) = false →
  ∃ out err,
    main (start input) = (Console (read_line input).2 out err, Ok 0%Z) ∧
    ((∃ postfix value,
        out = prompt ++ postfix_line postfix ++ result_line value ∧ err = []) ∨
     (∃ what, what ∈ messages ∧ err = error_line what)).
Proof.
  intros Hsafe%pipeline_safe. rewrite main_outcome.
  destruct (infixToPostfix _) as [postfix|what|]; [|subst|done].
  - destruct Hsafe as [_ Hsafe].
    destruct (evaluatePostfix postfix) as [value|what|]; [| |done];
      do 2 eexists; (split; [done|]); [left|right]; eauto.
  - do 2 eexists. split; [done|]. right. eexists. split; [|done].
    unfold messages. by repeat constructor.
Qed.

(** C7: [main] has undefined behaviour on exactly the inputs whose first
    line the validator accepts with an unknown operator inside
    parentheses: the converter pops its empty stack, and the evaluator
    is never the cause. *)
Theorem main_undefined input :
  (main (start input)).2 = Undefined ↔
  validateExpression (tokenize (read_line input).1) = true ∧
  unknown_inside 0 (tokenize (read_line input).1) = true.
Proof.
  rewrite main_outcome. set (line := (read_line input).1).
  destruct (unknown_inside 0 (tokenize line)) eqn:Hu.
  - destruct (validateExpression (tokenize line)) eqn:Hv.
    + by rewrite infixToPostfix_unknown_inside.
    + unfold infixToPostfix. rewrite Hv. simpl. split; [done|by intros []].
  - pose proof (pipeline_safe line Hu) as Hs.
    destruct (infixToPostfix line) as [postfix|w|]; [|split; [done|by intros []]|done].
    destruct Hs as [_ Hs].
    destruct (evaluatePostfix postfix); (split; [done|by intros []]).
Qed.

(** [main] is the same program on every implementation of the streams.
    Where one implementation refines another through [abs], operation by
    operation, a run of [main] on the first is, through [abs], its run on
    the second, with the same outcome. *)
Lemma main_refinement {S1 S2} (abs : S1 → S2)
    `{!Streams S1} `{!Streams S2} `{!Refinement abs} :
  refines abs main main.
Proof. unfold main. eauto 30 with refine. Qed.


(** C8: the order of what is seen.  Whenever the library flushes
    [std::cout], the terminal shows after [main] the prompt, then the line
    typed, then the postfix line and the result line, or the postfix line
    and after it the error line of [std::cerr], or the error line alone:
    the prompt is on the screen before the line is read, and the postfix
    line is never after the error line. *)
Theorem main_screen policy input :
  merge (device (exit (main (boot policy input)).1)) =
    session (read_line input).1 (infixToPostfix (read_line input).1) evaluatePostfix.
Proof.
  pose proof (main_refinement displayed (boot policy input)) as Hr.
  unfold exit. rewrite flush_device, displayed_boot in *.
  apply (f_equal fst) in Hr. simpl in Hr. by rewrite <-Hr, main_display.
Qed.

End driver.

(** C10: what the result line shows.  With the formatting of the GNU C
    library a finite result other than zero is written with six
    significant digits: the line is the layout of a number [n] of six
    digits and a decimal exponent [x], and the result differs from
    [n * 10 ^ (x - 5)] by at most one half of [10 ^ (x - 5)].  The text
    means what it should: [strtod] reads it to its end as the decimal
    [n * 10 ^ (x - 5)] with the sign of the result.  What the evaluator
    computed beyond the sixth digit is not shown. *)
Theorem result_rounded v (sign : bool) m e :
  Prim2SF v = S754_finite sign m e →
  let '(num, den) := fraction m e in
  let '(n, x) := round6 num den in
  @result_line gnu_iostream v = "Result: " ++ layout sign n x ++ [newline] ∧
  (100000 ≤ n < 1000000)%Z ∧ nearest n (scale10 num den (5 - x)) ∧
  ∃ d, scan_decimal (layout sign n x) = Some (d, []) ∧ d_neg d = sign ∧
       spells d n (x - 5).
Proof.
  intros Hv. pose proof (printf_g_finite v sign m e Hv) as Hg.
  destruct (fraction m e) as [num den], (round6 num den) as [n x].
  destruct Hg as (Hg & Hn & Hx). unfold result_line. simpl. rewrite Hg.
  split_and!; [done|lia|lia|done|by apply layout_scan].
Qed.

Lemma main_correct_witness :
  @main exact_libm gnu_iostream console _ (start ("5/0" ++ [newline] ++ "1+1")) =
    match @eval exact_libm (EBin "/" (ENum "5") (ENum "0")) with
    | Ok value =>
        (Console "1+1"
           (prompt ++ postfix_line (unwords (postfix (EBin "/" (ENum "5") (ENum "0"))))
              ++ @result_line gnu_iostream value) [], Ok 0%Z)
    | Throw what =>
        (Console "1+1"
           (prompt ++ postfix_line (unwords (postfix (EBin "/" (ENum "5") (ENum "0")))))
           (error_line what), Ok 0%Z)
    | Undefined =>
        (Console "1+1"
           (prompt ++ postfix_line (unwords (postfix (EBin "/" (ENum "5") (ENum "0")))))
           [], Undefined)
    end.
Proof.
  apply (@main_correct exact_libm gnu_iostream "5/0" "1+1").
  - by apply (bool_decide_unpack (newline ∉ "5/0")).
  - apply (infix_up 1); [done|].
    apply (infix_bin "/" 2 ["5"] ["0"]); [done..| |]; by apply infix_atom.
Defined.

Lemma main_responds_witness :
  ∃ out err,
    @main exact_libm gnu_iostream console _ (start ("3a4/(1-1)" ++ [newline]))
    = (Console (read_line ("3a4/(1-1)" ++ [newline])).2 out err, Ok 0%Z) ∧
    ((∃ postfix value,
        out = prompt ++ postfix_line postfix ++ @result_line gnu_iostream value ∧
        err = []) ∨
     (∃ what, what ∈ messages ∧ err = error_line what)).
Proof. apply (@main_responds exact_libm gnu_iostream). reflexivity. Defined.

Lemma result_rounded_witness :
  let '(num, den) := fraction 5302424889720832 (-32) in
  let '(n, x) := round6 num den in
  @result_line gnu_iostream 1234567 = "Result: " ++ layout false n x ++ [newline] ∧
  (100000 ≤ n < 1000000)%Z ∧ nearest n (scale10 num den (5 - x)) ∧
  ∃ d, scan_decimal (layout false n x) = Some (d, []) ∧ d_neg d = false ∧
       spells d n (x - 5).
Proof. by apply (result_rounded 1234567 false 5302424889720832 (-32)). Defined.

(** Runs of [main] with the reference instances: a result, a division
    by zero after the postfix line was written, an empty input, a second
    line that is left unread, and an input on which the program has
    undefined behaviour. *)
Example main_examples :
  @main exact_libm gnu_iostream console _ (start ("3+4*2" ++ [newline]))
    = (Console "" ("Input expression: Postfix: 3 4 2 * + " ++ [newline]
                   ++ "Result: 11" ++ [newline]) "", Ok 0%Z) ∧
  @main exact_libm gnu_iostream console _ (start ("5/0" ++ [newline]))
    = (Console "" ("Input expression: Postfix: 5 0 / " ++ [newline])
         ("Error: Division by zero" ++ [newline]), Ok 0%Z) ∧
  @main exact_libm gnu_iostream console _ (start "")
    = (Console "" "Input expression: " ("Error: Invalid expression" ++ [newline]), Ok 0%Z) ∧
  @main exact_libm gnu_iostream console _ (start ("1/3" ++ [newline] ++ "2+2"))
    = (Console "2+2" ("Input expression: Postfix: 1 3 / " ++ [newline]
                      ++ "Result: 0.333333" ++ [newline]) "", Ok 0%Z) ∧
  snd (@main exact_libm gnu_iostream console _ (start ("(3a4)" ++ [newline]))) = Undefined.
Proof. by vm_compute. Qed.

(** The device under two policies, on a division by zero: the writes
    differ, and the screen is the same. *)
Example main_devices :
  device (exit (@main exact_libm gnu_iostream terminal _
                  (boot fully_buffered ("5/0" ++ [newline]))).1) =
    [Write Cout "Input expression: "; Read "5/0";
     Write Cout ("Postfix: 5 0 / " ++ [newline]);
     Write Cerr "Error: "; Write Cerr "Division by zero"; Write Cerr [newline]] ∧
  device (exit (@main exact_libm gnu_iostream terminal _
                  (boot unbuffered ("5/0" ++ [newline]))).1) =
    [Write Cout "Input expression: "; Read "5/0";
     Write Cout "Postfix: "; Write Cout "5 0 / "; Write Cout [newline];
     Write Cerr "Error: "; Write Cerr "Division by zero"; Write Cerr [newline]] ∧
  device (exit (@main exact_libm gnu_iostream terminal _
                  (boot line_buffered ("1+1" ++ [newline]))).1) =
    [Write Cout "Input expression: "; Read "1+1";
     Write Cout ("Postfix: 1 1 + " ++ [newline]);
     Write Cout ("Result: 2" ++ [newline])].
Proof. by vm_compute. Qed.

(** Six digits of the result: the seventh is rounded away, and a sum of
    decimals prints as the decimal.  A result in scientific notation is
    not an expression of the program. *)
Example result_examples :
  @main exact_libm gnu_iostream console _ (start ("1234567+0" ++ [newline]))
    = (Console "" ("Input expression: Postfix: 1234567 0 + " ++ [newline]
                   ++ "Result: 1.23457e+06" ++ [newline]) "", Ok 0%Z) ∧
  @main exact_libm gnu_iostream console _ (start ("0.1+0.2" ++ [newline]))
    = (Console "" ("Input expression: Postfix: 0.1 0.2 + " ++ [newline]
                   ++ "Result: 0.3" ++ [newline]) "", Ok 0%Z) ∧
  round6 1234567 1 = (123457, 6)%Z ∧ layout false 123457 6 = "1.23457e+06" ∧
  @run exact_libm "1.23457e+06" = Throw "Invalid expression".
Proof. by vm_compute. Qed.
